(** * PC-BASIC values: types, conversions, operators, number tokeniser and
      number formatter ([pcbasic/basic/values.py]).

    A shallow embedding of the value runtime.  Python integers are [Z],
    bytearrays are lists of [Z] in [0, 255], strings are [string], and
    exceptions are carried by an explicit [result] type.  Methods decorated
    with [float_safe] thread the [Values] object, whose math error handler
    owns the display surface the soft-fault diagnostics are written to. *)

From Stdlib Require Import ZArith List String Ascii Bool Lia.
Import ListNotations.
Open Scope Z_scope.

(* ------------------------------------------------------------------ *)
(** * Error codes ([error] module) *)

Module error.

(** Modelled from the spec: the [error] module is not part of the sources;
    the codes named by [values.py] are the constants below (section 7 of
    the specification lists the faults of this core). *)
Inductive code : Set :=
| STX
| IFC
| OVERFLOW
| TYPE_MISMATCH
| DIVISION_BY_ZERO.

(** Equality of error codes, for [math_error not in soft_types]. *)
Definition code_eqb (a b : code) : bool :=
  match a, b with
  | STX, STX | IFC, IFC | OVERFLOW, OVERFLOW
  | TYPE_MISMATCH, TYPE_MISMATCH | DIVISION_BY_ZERO, DIVISION_BY_ZERO => true
  | _, _ => false
  end.

(** Modelled from the spec: [RunError(code).message], the diagnostic text
    written to the display surface. *)
Definition message (c : code) : string :=
  match c with
  | STX => "Syntax error"
  | IFC => "Illegal function call"
  | OVERFLOW => "Overflow"
  | TYPE_MISMATCH => "Type mismatch"
  | DIVISION_BY_ZERO => "Division by zero"
  end.

End error.

(* ------------------------------------------------------------------ *)
(** * The working form of a float ([fp.Float]) *)

Module mbf.

Inductive fcls : Set := Single | Double.

(** Modelled from the spec: the [fp] module is not part of the sources.
    [Float] is the unpacked working form (sign, mantissa, biased exponent)
    of the legacy binary format.  [values.py] builds it as
    [cls(neg, man, exp)] and reads [.neg], [.man] and [.exp]; the mantissa
    carries one extra low byte (the carry byte: see [mantissa * 0x100] in
    [_float_from_exp10] and [man - 0x100] in [_just_under]), so that a
    float stands for [man * 2 ^ (exp - bias - 8)], negated when [neg];
    a zero exponent byte means zero. *)
Record Float : Set := mk { cls : fcls; neg : bool; man : Z; exp : Z }.

(** Modelled from the spec: [Float.byte_size], the storage size of the
    type ([TYPE_TO_SIZE] in [values.py]). *)
Definition byte_size (c : fcls) : Z :=
  match c with Single => 4 | Double => 8 end.

(** Modelled from the spec: [Float.mantissa_bits], all bytes but the
    exponent byte. *)
Definition mantissa_bits (c : fcls) : Z :=
  match c with Single => 24 | Double => 56 end.

(** Modelled from the spec: [Float.bias], the exponent of a mantissa read
    as a whole number (see [cls(neg, mantissa * 0x100, cls.bias)] in
    [_float_from_exp10]). *)
Definition bias (c : fcls) : Z := 128 + mantissa_bits c.

(** Modelled from the spec: [Float.digits], the decimal precision of the
    type. *)
Definition digits (c : fcls) : Z :=
  match c with Single => 7 | Double => 16 end.

(** Modelled from the spec: [Float.is_zero]; a zero exponent byte means
    zero. *)
Definition is_zero (f : Float) : bool := exp f =? 0.

(** Modelled from the spec: [Float.zero]. *)
Definition zero (c : fcls) : Float := mk c false 0 0.

(** Modelled from the spec: [Float.max], the per-type maximum magnitude:
    all mantissa bits set, exponent 255. *)
Definition max (c : fcls) : Float :=
  mk c false ((2 ^ mantissa_bits c - 1) * 0x100) 0xff.

(** Modelled from the spec: [Float.copy]; values are immutable here. *)
Definition copy (f : Float) : Float := f.

End mbf.

(* ------------------------------------------------------------------ *)
(** * Exceptions and results *)

(** The Python exceptions this module meets, and [OutOfFuel], which is not
    an exception of the program: it marks a bounded loop of the embedding
    that ran out of iterations. *)
Inductive exc : Set :=
| RunError (e : error.code)
| OverflowError (arg : option mbf.Float)
| ZeroDivisionError (arg : option mbf.Float)
| ValueError
| IndexError
| OutOfFuel.

Inductive result (A : Type) : Type :=
| Ok (a : A)
| Raise (e : exc).
Arguments Ok {A} a.
Arguments Raise {A} e.

Definition rbind {A B} (c : result A) (k : A -> result B) : result B :=
  match c with
  | Ok a => k a
  | Raise e => Raise e
  end.

Notation "'let*' x ':=' c 'in' k" := (rbind c (fun x => k))
  (at level 10, x pattern, c at level 100, k at level 200).

(** Python's [s[i]] on a sequence: an index out of range raises. *)
Definition getitem {A} (s : list A) (i : nat) : result A :=
  match nth_error s i with
  | Some a => Ok a
  | None => Raise IndexError
  end.

(* ------------------------------------------------------------------ *)
(** * Values *)

(** BASIC type sigils: [INT] is '%', [SNG] is '!', [DBL] is '#' and
    [STR] is '$'. *)
Inductive typechar : Set := INT | SNG | DBL | STR.

Definition typechar_eqb (a b : typechar) : bool :=
  match a, b with
  | INT, INT | SNG, SNG | DBL, DBL | STR, STR => true
  | _, _ => false
  end.

(** A value is the pair [(sigil, bytearray)]. *)
Definition value : Set := (typechar * list Z)%type.

Definition TYPE_TO_SIZE (t : typechar) : Z :=
  match t with STR => 3 | INT => 2 | SNG => 4 | DBL => 8 end.

Definition SIZE_TO_TYPE (n : nat) : option typechar :=
  match n with
  | 2%nat => Some INT
  | 3%nat => Some STR
  | 4%nat => Some SNG
  | 8%nat => Some DBL
  | _ => None
  end.

Definition is_byte (b : Z) : Prop := 0 <= b < 256.

(** The payload has the size of its tag and holds bytes. *)
Definition wf_value (v : value) : Prop :=
  Z.of_nat (List.length (snd v)) = TYPE_TO_SIZE (fst v) /\ Forall is_byte (snd v).

Definition null (sigil : typechar) : value :=
  (sigil, repeat 0 (Z.to_nat (TYPE_TO_SIZE sigil))).

Definition pass_string (inp : value) : result value :=
  match fst inp with
  | STR => Ok inp
  | _ => Raise (RunError error.TYPE_MISMATCH)
  end.

Definition pass_number (inp : value) : result value :=
  match fst inp with
  | STR => Raise (RunError error.TYPE_MISMATCH)
  | _ => Ok inp
  end.

(* ------------------------------------------------------------------ *)
(** * Conversion between BASIC Integer and Python int *)

Definition int_to_integer (n : Z) (unsigned : bool) : result value :=
  let maxint := if unsigned then 0xffff else 0x7fff in
  if (n >? maxint) || (n <? - 0x8000) then Raise (RunError error.OVERFLOW)
  else
    let n := if n <? 0 then 0x10000 + n else n in
    Ok (INT, [Z.land n 0xff; Z.shiftr n 8]).

Definition integer_to_int (in_integer : value) (unsigned : bool) : result Z :=
  let s := snd in_integer in
  let* s1 := getitem s 1 in
  let* s0 := getitem s 0 in
  if unsigned then Ok (0x100 * s1 + s0)
  else
    let value := 0x100 * Z.land s1 0x7f + s0 in
    if Z.land s1 0x80 =? 0x80 then Ok (- 0x8000 + value) else Ok value.

(* ------------------------------------------------------------------ *)
(** * The floating-point library ([fp] module) *)

Module fp.
Include mbf.

(** The [fp] module is not part of the sources.  The operations below
    follow the contract of section 6 of the specification on the working
    form above: every operation computes on the mantissa and exponent
    exactly and then brings the result back to normal form with
    [normalise], which rounds on the carry byte. *)

(** Modelled from the spec: [Float.apply_carry]; round on the carry byte,
    renormalise on mantissa overflow and clear the carry byte. *)
Definition apply_carry (f : Float) : Float :=
  let m1 := if 0x7f <? Z.land (man f) 0xff then man f + 0x100 else man f in
  let '(m2, e2) :=
    if 0x100 ^ byte_size (cls f) <=? m1
    then (Z.shiftr m1 1, exp f + 1) else (m1, exp f) in
  mk (cls f) (neg f) (Z.lxor m2 (Z.land m2 0xff)) e2.

(** Modelled from the spec: the saturated value of a fault, the maximum
    magnitude of the type with the sign of [f]. *)
Definition signed_max (f : Float) : Float :=
  mk (cls f) (neg f) (man (max (cls f))) (exp (max (cls f))).

(** Modelled from the spec: [Float.normalise]; bring a float to normal
    form, the leading mantissa bit at position [mantissa_bits + 7];
    underflow gives zero, overflow raises. *)
Definition normalise (f : Float) : result Float :=
  if (man f =? 0) || (exp f =? 0) then Ok (zero (cls f))
  else
    let top := mantissa_bits (cls f) + 7 in
    let l := Z.log2 (man f) in
    let f1 :=
      if l <=? top
      then mk (cls f) (neg f) (Z.shiftl (man f) (top - l)) (exp f - (top - l))
      else mk (cls f) (neg f) (Z.shiftr (man f) (l - top)) (exp f + (l - top)) in
    let f2 := apply_carry f1 in
    if exp f2 <=? 0 then Ok (zero (cls f))
    else if 0xff <? exp f2 then Raise (OverflowError (Some (signed_max f)))
    else Ok f2.

(** Modelled from the spec: [Float.from_int]; an integer promotes
    exactly when it fits the mantissa. *)
Definition from_int (c : fcls) (num : Z) : result Float :=
  normalise (mk c (num <? 0) (Z.abs num * 0x100) (bias c)).

(** Modelled from the spec: the little-endian bytes of a mantissa, for
    [to_bytes]. *)
Fixpoint le_bytes (n : nat) (m : Z) : list Z :=
  match n with
  | O => []
  | S n' => Z.land m 0xff :: le_bytes n' (Z.shiftr m 8)
  end.

(** Modelled from the spec: the value of little-endian bytes, for
    [from_bytes]. *)
Fixpoint le_int (s : list Z) : Z :=
  match s with
  | [] => 0
  | b :: s' => b + 0x100 * le_int s'
  end.

(** Modelled from the spec: [Float.to_bytes]; mantissa bytes, least
    significant first, the sign in the top bit of the last mantissa byte,
    then the exponent byte (the layout of [lim_top] and [lim_bot] in
    [values.py]). *)
Definition to_bytes (f : Float) : list Z :=
  let f := apply_carry f in
  let m := Z.shiftr (man f) 8 in
  let n := Z.to_nat (byte_size (cls f) - 2) in
  let top := Z.land (Z.shiftr m (8 * (byte_size (cls f) - 2))) 0x7f in
  le_bytes n m ++ [if neg f then Z.lor top 0x80 else top; exp f].

(** Modelled from the spec: [Float.from_bytes], the inverse of
    [to_bytes]; the leading mantissa bit is implied. *)
Definition from_bytes (c : fcls) (s : list Z) : Float :=
  let n := Z.to_nat (byte_size c - 2) in
  let top := nth n s 0 in
  let m := le_int (firstn n s) + Z.lor top 0x80 * 0x100 ^ (byte_size c - 2) in
  mk c (0x80 <=? top) (Z.shiftl m 8) (nth (S n) s 0).

(** [fp.Single.type_sign] and [fp.Double.type_sign], as [values.py] sets
    them. *)
Definition type_sign (c : fcls) : typechar :=
  match c with Single => SNG | Double => DBL end.

(** Modelled from the spec: [fp.pack]; the working form back to a tagged
    value. *)
Definition pack (f : Float) : value := (type_sign (cls f), to_bytes f).

(** Modelled from the spec: [fp.unpack]; the working form of a Single or
    Double value. *)
Definition unpack (v : value) : Float :=
  from_bytes (match fst v with DBL => Double | _ => Single end) (snd v).

(** Modelled from the spec: [Float.round_to_int]; round to the nearest
    Python integer, halves away from zero. *)
Definition round_to_int (f : Float) : Z :=
  let m :=
    if bias (cls f) <? exp f
    then Z.shiftl (man f) (exp f - bias (cls f))
    else Z.shiftr (man f) (bias (cls f) - exp f) in
  let m := if 0x7f <? Z.land m 0xff then m + 0x100 else m in
  if neg f then - Z.shiftr m 8 else Z.shiftr m 8.

(** Modelled from the spec: [Float.trunc_to_int]; truncate towards zero
    to a Python integer. *)
Definition trunc_to_int (f : Float) : Z :=
  let m := Z.shiftr (man f) 8 in
  let val :=
    if bias (cls f) <? exp f
    then Z.shiftl m (exp f - bias (cls f))
    else Z.shiftr m (bias (cls f) - exp f) in
  if neg f then - val else val.

(** Modelled from the spec: the signed mantissa of a float at exponent
    [e], [e <= exp f], on which sums and comparisons are computed. *)
Definition scaled (f : Float) (e : Z) : Z :=
  if is_zero f then 0
  else (if neg f then -1 else 1) * man f * 2 ^ (exp f - e).

(** Modelled from the spec: [Float.iadd]. *)
Definition iadd (a b : Float) : result Float :=
  if is_zero b then Ok a
  else if is_zero a then Ok (mk (cls a) (neg b) (man b) (exp b))
  else
    let e := Z.min (exp a) (exp b) in
    let s := scaled a e + scaled b e in
    normalise (mk (cls a) (s <? 0) (Z.abs s) e).

(** Modelled from the spec: [Float.imul10]. *)
Definition imul10 (f : Float) : result Float :=
  normalise (mk (cls f) (neg f) (man f * 10) (exp f)).

(** Modelled from the spec: [Float.idiv10]. *)
Definition idiv10 (f : Float) : result Float :=
  normalise (mk (cls f) (neg f) (man f * 0x100 / 10) (exp f - 8)).

(** Modelled from the spec: [fp.mul]. *)
Definition mul (a b : Float) : result Float :=
  if is_zero a then Ok a
  else if is_zero b then Ok (mk (cls a) (neg b) (man b) (exp b))
  else normalise (mk (cls a) (xorb (neg a) (neg b)) (man a * man b)
                     (exp a + exp b - bias (cls a) - 8)).

(** Modelled from the spec: [fp.div]; a zero divisor raises with the
    saturated value. *)
Definition div (a b : Float) : result Float :=
  if is_zero b then Raise (ZeroDivisionError (Some (signed_max a)))
  else if is_zero a then Ok a
  else
    let k := mantissa_bits (cls a) + 16 in
    normalise (mk (cls a) (xorb (neg a) (neg b))
                  (Z.shiftl (man a) k / man b)
                  (exp a - exp b + bias (cls a) + 8 - k)).

(** Modelled from the spec: [Float.one]. *)
Definition one (c : fcls) : Float := mk c false (2 ^ (mantissa_bits c + 7)) 129.

(** Modelled from the spec: [Float.ten]. *)
Definition ten (c : fcls) : Float :=
  mk c false (10 * 2 ^ (mantissa_bits c + 4)) 132.

(** Modelled from the spec: a power with a natural exponent, by repeated
    multiplication. *)
Fixpoint pow_nat (base : Float) (n : nat) : result Float :=
  match n with
  | O => Ok (one (cls base))
  | S n' => let* p := pow_nat base n' in mul p base
  end.

(** Modelled from the spec: [fp.pow_int]. *)
Definition pow_int (base : Float) (n : Z) : result Float :=
  if n <? 0
  then let* p := pow_nat base (Z.to_nat (- n)) in div (one (cls base)) p
  else pow_nat base (Z.to_nat n).

(** Modelled from the spec: [Float.round_to_single]; narrow a Double to
    Single, rounding on the carry byte. *)
Definition round_to_single (f : Float) : result Float :=
  normalise (mk Single (neg f) (Z.shiftr (man f) 32) (exp f)).

(** Modelled from the spec: [Float.iround]; round to a whole number, as a
    float. *)
Definition iround (f : Float) : result Float :=
  normalise (mk (cls f) (neg f) (Z.abs (round_to_int f) * 0x100) (bias (cls f))).

(** Modelled from the spec: [Float.gt]. *)
Definition gt (a b : Float) : bool :=
  let e := Z.min (exp a) (exp b) in scaled b e <? scaled a e.

(** Modelled from the spec: [Float.equals]. *)
Definition equals (a b : Float) : bool :=
  let e := Z.min (exp a) (exp b) in scaled a e =? scaled b e.

(** Modelled from the spec: [Float.abs_gt], the comparison of
    magnitudes. *)
Definition abs_gt (a b : Float) : bool :=
  let e := Z.min (exp a) (exp b) in Z.abs (scaled b e) <? Z.abs (scaled a e).

End fp.

(* ------------------------------------------------------------------ *)
(** * Math error handling *)

(** Modelled from the spec: the display surface is external; only
    [write_line(text)] is consumed, so a screen is the list of the lines
    written to it, oldest first. *)
Definition Screen : Set := list string.

(** Modelled from the spec: [screen.write_line(text)]. *)
Definition write_line (scr : Screen) (text : string) : Screen := scr ++ [text].

(** Modelled from the spec: the string space is external; only
    [copy(handle) -> bytes] is consumed by the operations embedded here. *)
Record StringSpace : Type := { copy : value -> list Z }.

Record MathErrorHandler : Set :=
  { _screen : option Screen; _do_raise : bool }.

(** Types of errors that do not always interrupt execution. *)
Definition soft_types : list error.code :=
  [error.OVERFLOW; error.DIVISION_BY_ZERO].

Definition pause_handling (h : MathErrorHandler) (do_raise : bool)
  : MathErrorHandler :=
  {| _screen := _screen h; _do_raise := do_raise |}.

(** [MathErrorHandler.handle]: the result and the handler afterwards. *)
Definition handle (h : MathErrorHandler) (e : exc)
  : result value * MathErrorHandler :=
  let classified :=
    match e with
    | ValueError => Some (error.IFC, None)
    | OverflowError a => Some (error.OVERFLOW, a)
    | ZeroDivisionError a => Some (error.DIVISION_BY_ZERO, a)
    | _ => None
    end in
  match classified with
  | None => (Raise e, h)
  | Some (math_error, arg) =>
      match _screen h with
      | None => (Raise (RunError math_error), h)
      | Some scr =>
          if _do_raise h || negb (existsb (error.code_eqb math_error) soft_types)
          then (Raise (RunError math_error), h)
          else
            let h' := {| _screen := Some (write_line scr (error.message math_error));
                         _do_raise := _do_raise h |} in
            match arg with
            | Some f => (Ok (fp.pack f), h')
            | None => (Ok (fp.pack (fp.copy (fp.max fp.Single))), h')
            end
      end
  end.

Record Values : Type :=
  { _math_error_handler : MathErrorHandler;
    _strings : StringSpace;
    _double_math : bool }.

Definition with_handler (self : Values) (h : MathErrorHandler) : Values :=
  {| _math_error_handler := h;
     _strings := _strings self;
     _double_math := _double_math self |}.

(** Methods that may reach the error handler return their result together
    with the object afterwards. *)
Definition M (A : Type) : Type := Values -> result A * Values.

Definition ret {A} (a : A) : M A := fun self => (Ok a, self).

Definition lift {A} (r : result A) : M A := fun self => (r, self).

Definition bind {A B} (c : M A) (k : A -> M B) : M B :=
  fun self =>
    match c self with
    | (Ok a, self') => k a self'
    | (Raise e, self') => (Raise e, self')
    end.

Notation "x <- c ;; k" := (bind c (fun x => k))
  (at level 61, c at next level, right associativity).

(** [ValueError] and the [ArithmeticError] subclasses. *)
Definition is_float_error (e : exc) : bool :=
  match e with
  | ValueError | OverflowError _ | ZeroDivisionError _ => true
  | _ => false
  end.

(** The [float_safe] decorator. *)
Definition float_safe (fn : M value) : M value :=
  fun self =>
    match fn self with
    | (Raise e, self') =>
        if is_float_error e
        then let (r, h) := handle (_math_error_handler self') e in
             (r, with_handler self' h)
        else (Raise e, self')
    | done => done
    end.

(* ------------------------------------------------------------------ *)
(** * Type conversions *)

Definition from_bytes (token_bytes : list Z) : result value :=
  match SIZE_TO_TYPE (List.length token_bytes) with
  | Some t => Ok (t, token_bytes)
  | None => Raise IndexError
  end.

Definition to_bytes (basic_val : value) : list Z := snd basic_val.

Definition from_bool (boo : bool) : value :=
  if boo then (INT, [0xff; 0xff]) else (INT, [0; 0]).

Definition to_integer (inp : value) (unsigned : bool) : result value :=
  let maxint := if unsigned then 0xffff else 0x7fff in
  match fst inp with
  | INT => Ok inp
  | SNG | DBL =>
      let val := fp.round_to_int (fp.unpack inp) in
      if (val >? maxint) || (val <? - 0x8000)
      then Raise (RunError error.OVERFLOW)
      else int_to_integer val true
  | STR => Raise (RunError error.TYPE_MISMATCH)
  end.

Definition to_int (inp : value) (unsigned : bool) : result Z :=
  let* i := to_integer inp unsigned in integer_to_int i false.

Definition to_single (num : value) : M value :=
  float_safe (lift
    match fst num with
    | SNG => Ok num
    | INT =>
        let* n := integer_to_int num false in
        let* f := fp.from_int fp.Single n in
        Ok (fp.pack f)
    | DBL =>
        let* f := fp.round_to_single (fp.unpack num) in
        Ok (fp.pack f)
    | STR => Raise (RunError error.TYPE_MISMATCH)
    end).

Definition to_double (num : value) : M value :=
  float_safe (lift
    match fst num with
    | DBL => Ok num
    | INT =>
        let* n := integer_to_int num false in
        let* f := fp.from_int fp.Double n in
        Ok (fp.pack f)
    | SNG => Ok (DBL, repeat 0 4 ++ snd num)
    | STR => Raise (RunError error.TYPE_MISMATCH)
    end).

Definition to_most_precise (left right : value) : M (value * value) :=
  let left_type := fst left in
  let right_type := fst right in
  if typechar_eqb left_type DBL || typechar_eqb right_type DBL then
    l <- to_double left ;; r <- to_double right ;; ret (l, r)
  else if typechar_eqb left_type SNG || typechar_eqb right_type SNG then
    l <- to_single left ;; r <- to_single right ;; ret (l, r)
  else if typechar_eqb left_type INT || typechar_eqb right_type INT then
    l <- lift (to_integer left false) ;;
    r <- lift (to_integer right false) ;; ret (l, r)
  else lift (Raise (RunError error.TYPE_MISMATCH)).

(* ------------------------------------------------------------------ *)
(** * Numeric operators *)

(** [out[1][-2] op= mask] on a private copy of the payload. *)
Definition update_sign_byte (op : Z -> Z) (s : list Z) : result (list Z) :=
  match rev s with
  | e :: b :: rest => Ok (rev (e :: op b :: rest))
  | _ => Raise IndexError
  end.

Definition negate (inp : value) : result value :=
  match fst inp with
  | INT =>
      let* i := integer_to_int inp false in
      let val := - i in
      if val =? 32768
      then let* f := fp.from_int fp.Single val in Ok (fp.pack f)
      else int_to_integer val false
  | SNG | DBL =>
      let* s := update_sign_byte (fun b => Z.lxor b 0x80) (snd inp) in
      Ok (fst inp, s)
  | STR => Ok inp
  end.

Definition add (left right : value) : M value :=
  float_safe (
    p <- to_most_precise left right ;;
    let '(l, r) := p in
    match fst l with
    | DBL | SNG =>
        lift (let* f := fp.iadd (fp.unpack l) (fp.unpack r) in
              Ok (fp.pack f))
    | _ =>
        (* return Single to avoid wrapping on integer overflow *)
        lift (let* a := integer_to_int l false in
              let* b := integer_to_int r false in
              let* f := fp.from_int fp.Single (a + b) in
              Ok (fp.pack f))
    end).

Definition subtract (left right : value) : M value :=
  float_safe (r <- lift (negate right) ;; add left r).

(** The single-precision maximum carrying the sign of the dividend. *)
Definition zero_division (dividend : Z) : exc :=
  ZeroDivisionError
    (Some (fp.mk fp.Single (dividend <? 0)
                 (fp.man (fp.max fp.Single)) (fp.exp (fp.max fp.Single)))).

Definition divide_int (left right : value) : M value :=
  float_safe (lift (
    let* dividend := to_int left false in
    let* divisor := to_int right false in
    if divisor =? 0 then Raise (zero_division dividend)
    else if Bool.eqb (0 <=? dividend) (0 <=? divisor)
    then int_to_integer (dividend / divisor) false
    else int_to_integer (- (Z.abs dividend / Z.abs divisor)) false)).

(** Python's [%] on integers takes the sign of the divisor, as [Z.modulo]
    does. *)
Definition mod_ (left right : value) : M value :=
  float_safe (lift (
    let* divisor := to_int right false in
    let* dividend := to_int left false in
    if divisor =? 0 then Raise (zero_division dividend)
    else
      let m := dividend mod divisor in
      let m := if (dividend <? 0) || (m <? 0) then m - divisor else m in
      int_to_integer m false)).

(* ------------------------------------------------------------------ *)
(** * String comparison *)

(** [for i in range(shortest)]: [n] counts the positions left, [i] is the
    index compared; both indexes are below the length of either string. *)
Fixpoint gt_scan (n i : nat) (left right : list Z) : option bool :=
  match n with
  | O => None
  | S n' =>
      let l := nth i left 0 in
      let r := nth i right 0 in
      if r <? l then Some true
      else if l <? r then Some false
      else gt_scan n' (S i) left right
  end.

(** The string branch of [bool_gt], on the bytes copied out of the string
    space. *)
Definition str_gt (left right : list Z) : bool :=
  let shortest := Nat.min (List.length left) (List.length right) in
  match gt_scan shortest 0 left right with
  | Some b => b
  | None =>
      (* the same so far: the shorter string is said to be less *)
      (List.length right <? List.length left)%nat
  end.

(** Python's [==] on two byte strings. *)
Fixpoint str_eq (left right : list Z) : bool :=
  match left, right with
  | [], [] => true
  | l :: left', r :: right' => (l =? r) && str_eq left' right'
  | _, _ => false
  end.

Definition _bool_eq (left right : value) : M bool :=
  fun self =>
    match fst left with
    | STR =>
        lift (let* l := pass_string left in
              let* r := pass_string right in
              Ok (str_eq (copy (_strings self) l) (copy (_strings self) r))) self
    | _ =>
        (p <- to_most_precise left right ;;
         let '(l, r) := p in
         match fst l with
         | DBL | SNG => ret (fp.equals (fp.unpack l) (fp.unpack r))
         | _ => lift (let* a := integer_to_int l false in
                      let* b := integer_to_int r false in
                      Ok (a =? b))
         end) self
    end.

Definition bool_gt (left right : value) : M bool :=
  fun self =>
    match fst left with
    | STR =>
        lift (let* l := pass_string left in
              let* r := pass_string right in
              Ok (str_gt (copy (_strings self) l) (copy (_strings self) r))) self
    | _ =>
        (p <- to_most_precise left right ;;
         let '(l, r) := p in
         match fst l with
         | DBL | SNG => ret (fp.gt (fp.unpack l) (fp.unpack r))
         | _ => lift (let* a := integer_to_int l false in
                      let* b := integer_to_int r false in
                      Ok (b <? a))
         end) self
    end.

Definition equals (left right : value) : M value :=
  b <- _bool_eq left right ;; ret (from_bool b).

Definition not_equals (left right : value) : M value :=
  b <- _bool_eq left right ;; ret (from_bool (negb b)).

Definition gt (left right : value) : M value :=
  b <- bool_gt left right ;; ret (from_bool b).

Definition gte (left right : value) : M value :=
  b <- bool_gt right left ;; ret (from_bool (negb b)).

Definition lte (left right : value) : M value :=
  b <- bool_gt left right ;; ret (from_bool (negb b)).

Definition lt (left right : value) : M value :=
  b <- bool_gt right left ;; ret (from_bool b).

(* ------------------------------------------------------------------ *)
(** * Characters and Python strings *)

(** A Python [str] is a list of characters. *)
Definition str (s : string) : list ascii := list_ascii_of_string s.

Definition ord (c : ascii) : Z := Z.of_N (N_of_ascii c).

(** [chr(n)]: raises [ValueError] outside [range(256)]. *)
Definition chr (n : Z) : result ascii :=
  if (0 <=? n) && (n <? 256) then Ok (ascii_of_N (Z.to_N n))
  else Raise ValueError.

(** [c in s], for a single character [c]. *)
Definition char_in (c : ascii) (s : list ascii) : bool :=
  existsb (Ascii.eqb c) s.

(** [c in string.digits], also [c >= '0' and c <= '9']. *)
Definition is_digit (c : ascii) : bool := (48 <=? ord c) && (ord c <=? 57).

Definition upper (c : ascii) : ascii :=
  if (97 <=? ord c) && (ord c <=? 122)
  then ascii_of_N (Z.to_N (ord c - 32)) else c.

(** For numbers, tab and LF are whitespace. *)
Definition number_whitespace : list ascii := [" "; "009"; "010"]%char.

(** [s[:n]] and [s[n:]], with Python's reading of a negative bound. *)
Definition slice_to (s : list ascii) (n : Z) : list ascii :=
  if n <? 0 then firstn (Z.to_nat (Z.of_nat (List.length s) + n)) s
  else firstn (Z.to_nat n) s.

Definition slice_from (s : list ascii) (n : Z) : list ascii :=
  if n <? 0 then skipn (Z.to_nat (Z.of_nat (List.length s) + n)) s
  else skipn (Z.to_nat n) s.

(** [c * n]: empty when [n] is not positive. *)
Definition times (c : ascii) (n : Z) : list ascii := repeat c (Z.to_nat n).

Definition len {A} (s : list A) : Z := Z.of_nat (List.length s).

(* ------------------------------------------------------------------ *)
(** * Number tokens ([basictoken] module) *)

Module tk.

(** Modelled from the spec: the [basictoken] module is not part of the
    sources; these are the lead bytes of the literal tokens of section 3
    of the specification (octal, hex, one-byte, two-byte integer, single,
    double) and the range of the compact constants, whose first byte
    [0x11] appears in [_tokenise_dec] and [token_to_value].  This one is
    the lead byte of an octal constant. *)
Definition T_OCT : Z := 0x0b.

(** Modelled from the spec: the lead byte of a hex constant. *)
Definition T_HEX : Z := 0x0c.

(** Modelled from the spec: the lead byte of a one-byte constant. *)
Definition T_BYTE : Z := 0x0f.

(** Modelled from the spec: the compact tokens of the constants 0 to 10. *)
Definition C_0 : Z := 0x11.

(** Modelled from the spec: the compact token of the constant 10. *)
Definition C_10 : Z := 0x1b.

(** Modelled from the spec: the lead byte of a two-byte integer. *)
Definition T_INT : Z := 0x1c.

(** Modelled from the spec: the lead byte of a Single constant. *)
Definition T_SINGLE : Z := 0x1d.

(** Modelled from the spec: the lead byte of a Double constant. *)
Definition T_DOUBLE : Z := 0x1f.

End tk.

(* ------------------------------------------------------------------ *)
(** * Text streams *)

(** A [StringIO]: its contents and the position of the cursor. *)
Record StringIO : Set := { buf : list ascii; pos : nat }.

(** [ins.seek(-1, 1)]. *)
Definition seek_back (ins : StringIO) : StringIO :=
  {| buf := buf ins; pos := pos ins - 1 |}.

(** [util.peek(ins)]; [None] is the empty string at the end of input. *)
Definition peek (ins : StringIO) : option ascii := nth_error (buf ins) (pos ins).

(* ------------------------------------------------------------------ *)
(** * String representation of numbers: the tokeniser *)

(** The value of a digit string, most significant digit first. *)
Definition digits_value (ds : list ascii) : Z :=
  fold_left (fun acc c => acc * 10 + (ord c - 48)) ds 0.

(** Python's [int(s)] on text without surrounding whitespace: an optional
    sign and at least one digit; anything else is a [ValueError]. *)
Definition py_int (s : list ascii) : result Z :=
  let body sign ds :=
    match ds with
    | [] => Raise ValueError
    | _ => if forallb is_digit ds then Ok (sign * digits_value ds)
           else Raise ValueError
    end in
  match s with
  | c :: ds =>
      if Ascii.eqb c "-" then body (- 1) ds
      else if Ascii.eqb c "+" then body 1 ds
      else body 1 s
  | [] => Raise ValueError
  end.

(** Return Python int value for Python str, zero if malformed. *)
Definition str_to_int (s : list ascii) : Z :=
  match py_int s with
  | Ok n => n
  | Raise _ => 0
  end.

(** The local variables of the loop of [_str_to_float]. *)
Record parse_state : Set :=
  { found_sign : bool; found_point : bool; found_exp : bool;
    found_exp_sign : bool; exp_neg : bool; neg : bool;
    exp10 : Z; exponent : Z; mantissa : Z; digits : Z; zeros : Z;
    is_double : bool; is_single : bool }.

Definition parse_init : parse_state :=
  {| found_sign := false; found_point := false; found_exp := false;
     found_exp_sign := false; exp_neg := false; neg := false;
     exp10 := 0; exponent := 0; mantissa := 0; digits := 0; zeros := 0;
     is_double := false; is_single := false |}.

(** One turn of the loop of [_str_to_float] on the character [c]: the new
    state, and whether the loop goes on ([true]) or breaks ([false]). *)
Definition parse_char (c : ascii) (st : parse_state) : parse_state * bool :=
  (* ignore whitespace throughout *)
  if char_in c number_whitespace then (st, true)
  else
    (* determine sign *)
    let sign_here := negb (found_sign st) && char_in c (str "+-") in
    let st :=
      {| found_sign := true; found_point := found_point st;
         found_exp := found_exp st; found_exp_sign := found_exp_sign st;
         exp_neg := exp_neg st;
         neg := if sign_here then Ascii.eqb c "-" else neg st;
         exp10 := exp10 st; exponent := exponent st; mantissa := mantissa st;
         digits := digits st; zeros := zeros st;
         is_double := is_double st; is_single := is_single st |} in
    if sign_here then (st, true)
    else if negb (found_exp st) then
      (* parse numbers and decimal points, until 'E' or 'D' is found *)
      if is_digit c then
        let mantissa' := mantissa st * 10 + (ord c - 48) in
        let exp10' := if found_point st then exp10 st - 1 else exp10 st in
        (* keep track of precision digits *)
        let digits' := if mantissa' =? 0 then digits st else digits st + 1 in
        let zeros' :=
          if mantissa' =? 0 then zeros st
          else if found_point st && Ascii.eqb c "0" then zeros st + 1 else 0 in
        ({| found_sign := true; found_point := found_point st;
            found_exp := found_exp st; found_exp_sign := found_exp_sign st;
            exp_neg := exp_neg st; neg := neg st;
            exp10 := exp10'; exponent := exponent st; mantissa := mantissa';
            digits := digits'; zeros := zeros';
            is_double := is_double st; is_single := is_single st |}, true)
      else if Ascii.eqb c "." then
        ({| found_sign := true; found_point := true;
            found_exp := found_exp st; found_exp_sign := found_exp_sign st;
            exp_neg := exp_neg st; neg := neg st;
            exp10 := exp10 st; exponent := exponent st; mantissa := mantissa st;
            digits := digits st; zeros := zeros st;
            is_double := is_double st; is_single := is_single st |}, true)
      else if char_in (upper c) (str "DE") then
        ({| found_sign := true; found_point := found_point st;
            found_exp := true; found_exp_sign := found_exp_sign st;
            exp_neg := exp_neg st; neg := neg st;
            exp10 := exp10 st; exponent := exponent st; mantissa := mantissa st;
            digits := digits st; zeros := zeros st;
            is_double := Ascii.eqb (upper c) "D"; is_single := is_single st |},
         true)
      else if Ascii.eqb c "!" then
        (* makes it a single, even if more than eight digits specified *)
        ({| found_sign := true; found_point := found_point st;
            found_exp := found_exp st; found_exp_sign := found_exp_sign st;
            exp_neg := exp_neg st; neg := neg st;
            exp10 := exp10 st; exponent := exponent st; mantissa := mantissa st;
            digits := digits st; zeros := zeros st;
            is_double := is_double st; is_single := true |}, false)
      else if Ascii.eqb c "#" then
        ({| found_sign := true; found_point := found_point st;
            found_exp := found_exp st; found_exp_sign := found_exp_sign st;
            exp_neg := exp_neg st; neg := neg st;
            exp10 := exp10 st; exponent := exponent st; mantissa := mantissa st;
            digits := digits st; zeros := zeros st;
            is_double := true; is_single := is_single st |}, false)
      else (st, false)
    else
      (* parse exponent *)
      let exp_sign_here := negb (found_exp_sign st) && char_in c (str "+-") in
      let st :=
        {| found_sign := true; found_point := found_point st;
           found_exp := found_exp st; found_exp_sign := true;
           exp_neg := if exp_sign_here then Ascii.eqb c "-" else exp_neg st;
           neg := neg st;
           exp10 := exp10 st; exponent := exponent st; mantissa := mantissa st;
           digits := digits st; zeros := zeros st;
           is_double := is_double st; is_single := is_single st |} in
      if exp_sign_here then (st, true)
      else if is_digit c then
        ({| found_sign := true; found_point := found_point st;
            found_exp := found_exp st; found_exp_sign := true;
            exp_neg := exp_neg st; neg := neg st;
            exp10 := exp10 st; exponent := exponent st * 10 + (ord c - 48);
            mantissa := mantissa st;
            digits := digits st; zeros := zeros st;
            is_double := is_double st; is_single := is_single st |}, true)
      else (st, false).

(** [for c in s], up to the first [break]. *)
Fixpoint parse_loop (s : list ascii) (st : parse_state) : parse_state :=
  match s with
  | [] => st
  | c :: s' =>
      let (st', go_on) := parse_char c st in
      if go_on then parse_loop s' st' else st'
  end.

Fixpoint repeat_op (op : fp.Float -> result fp.Float) (n : nat) (f : fp.Float)
  : result fp.Float :=
  match n with
  | O => Ok f
  | S n' => let* f' := op f in repeat_op op n' f'
  end.

(** Create floating-point value from mantissa and decimal exponent. *)
Definition _float_from_exp10 (neg : bool) (mantissa exp10 : Z) (is_double : bool)
  : M value :=
  float_safe (lift (
    let cls := if is_double then fp.Double else fp.Single in
    let* mbf := fp.normalise (fp.mk cls neg (mantissa * 0x100) (fp.bias cls)) in
    (* apply decimal exponent *)
    let* mbf := repeat_op fp.idiv10 (Z.to_nat (- exp10)) mbf in
    let* mbf := repeat_op fp.imul10 (Z.to_nat exp10) mbf in
    let* mbf := fp.normalise mbf in
    Ok (fp.pack mbf))).

(** The classification at the end of [_str_to_float]: eight or more digits
    means double, unless single override. *)
Definition parse_is_double (st : parse_state) : bool :=
  if (7 <? digits st - zeros st) && negb (is_single st) then true
  else is_double st.

Definition parse_exp10 (st : parse_state) : Z :=
  if exp_neg st then exp10 st - exponent st else exp10 st + exponent st.

(** Return Float value for Python string. *)
Definition _str_to_float (s : list ascii) : M value :=
  let st := parse_loop s parse_init in
  _float_from_exp10 (neg st) (mantissa st) (parse_exp10 st) (parse_is_double st).

(** The local variables of the loop of [_tokenise_dec]. *)
Record scan_state : Set :=
  { have_exp : bool; have_point : bool; word : list ascii; kill : bool }.

Definition scan_init : scan_state :=
  {| have_exp := false; have_point := false; word := []; kill := false |}.

Definition push (c : ascii) (st : scan_state) : scan_state :=
  {| have_exp := have_exp st; have_point := have_point st;
     word := word st ++ [c]; kill := kill st |}.

(** [word[-1] in 'ED'], guarded by [not word]. *)
Definition first_or_after_exp (w : list ascii) : bool :=
  match w with
  | [] => true
  | _ => char_in (last w "000"%char) (str "ED")
  end.

(** The loop of [_tokenise_dec] over the unread input [rest], the cursor
    being at [p]: the state at the [break] and the cursor there. *)
Fixpoint scan (rest : list ascii) (p : nat) (st : scan_state)
  : scan_state * nat :=
  match rest with
  | [] => (st, p)
  | c0 :: rest' =>
      let c := upper c0 in
      let p' := S p in
      if char_in c ["028"; "029"; "031"]%char then
        (* ASCII separator chars invariably lead to zero result *)
        scan rest' p'
             {| have_exp := have_exp st; have_point := have_point st;
                word := word st; kill := true |}
      else if Ascii.eqb c "." && negb (have_point st) && negb (have_exp st) then
        scan rest' p'
             {| have_exp := have_exp st; have_point := true;
                word := word st ++ [c]; kill := kill st |}
      else if char_in c (str "ED") && negb (have_exp st) then
        (* there's a special exception for number followed by EL or EQ *)
        if Ascii.eqb c "E" &&
           match rest' with
           | n :: _ => char_in (upper n) (str "LQ")
           | [] => false
           end
        then (st, p' - 1)%nat
        else
          scan rest' p'
               {| have_exp := true; have_point := have_point st;
                  word := word st ++ [c]; kill := kill st |}
      else if char_in c (str "-+") && first_or_after_exp (word st) then
        (* must be first token or in exponent *)
        scan rest' p' (push c st)
      else if is_digit c then scan rest' p' (push c st)
      else if char_in c number_whitespace then
        (* we'll remove this later but need to keep it for now *)
        scan rest' p' (push c st)
      else if char_in c (str "!#") && negb (have_exp st) then (push c st, p')
      else if Ascii.eqb c "%" then
        (* swallow a %, but break parsing *)
        (st, p')
      else (st, p' - 1)%nat
  end.

(** Don't claim trailing whitespace: the word and the cursor afterwards.
    The word is given reversed. *)
Fixpoint unclaim (rword : list ascii) (p : nat) : list ascii * nat :=
  match rword with
  | c :: rword' =>
      if char_in c number_whitespace then unclaim rword' (p - 1)
      else (rev rword, p)
  | [] => ([], p)
  end.

(** Remove all internal whitespace. *)
Definition trim (w : list ascii) : list ascii :=
  filter (fun c => negb (char_in c number_whitespace)) w.

(** [len(word) == 1 and word in string.digits]. *)
Definition is_one_digit (w : list ascii) : bool :=
  match w with
  | [d] => is_digit d
  | _ => false
  end.

(** [not (have_exp or have_point or word[-1] in '!#')]; the last character
    is looked at only when both flags are unset. *)
Definition no_float_mark (have_exp have_point : bool) (w : list ascii)
  : result bool :=
  if have_exp || have_point then Ok false
  else
    match w with
    | [] => Raise IndexError
    | _ => Ok (negb (char_in (last w "000"%char) (str "!#")))
    end.

(** Write out the number: the bytes written to [outs]. *)
Definition write_number (have_exp have_point : bool) (w : list ascii)
  : M (list Z) :=
  if is_one_digit w then
    (* digit *)
    lift (let* c := chr (0x11 + str_to_int w) in Ok [ord c])
  else
    m <- lift (no_float_mark have_exp have_point w) ;;
    if m && (str_to_int w <=? 0x7fff) && (- 0x8000 <=? str_to_int w) then
      if (str_to_int w <=? 0xff) && (0 <=? str_to_int w) then
        (* one-byte constant *)
        lift (let* c := chr (str_to_int w) in Ok [tk.T_BYTE; ord c])
      else
        (* two-byte constant *)
        lift (let* i := int_to_integer (str_to_int w) false in
              Ok (tk.T_INT :: to_bytes i))
    else
      v <- _str_to_float w ;;
      let mbf := snd v in
      ret (if len mbf =? 4 then tk.T_SINGLE :: mbf else tk.T_DOUBLE :: mbf).

(** Convert decimal expression in Python string to number token: the
    input stream and the output stream afterwards. *)
Definition _tokenise_dec (ins : StringIO) (outs : list Z)
  : M (StringIO * list Z) :=
  let '(st, p) := scan (skipn (pos ins) (buf ins)) (pos ins) scan_init in
  (* ascii separators encountered: zero output *)
  let w := if kill st then str "0" else word st in
  let '(w, p) := unclaim (rev w) p in
  let w := trim w in
  tok <- write_number (have_exp st) (have_point st) w ;;
  ret ({| buf := buf ins; pos := p |}, outs ++ tok).

(* ------------------------------------------------------------------ *)
(** * String representation of numbers: the formatter *)

(** Return the largest floating-point number less than the given value. *)
Definition _just_under (n_in : fp.Float) : fp.Float :=
  (* decrease mantissa by one *)
  fp.mk (fp.cls n_in) (fp.neg n_in) (fp.man n_in - 0x100) (fp.exp n_in).

(** The inner loop of [_get_digits]: subtract [pow10] while [num >= pow10],
    counting in [digit].  The character code starts at 48, so [chr] fails
    once the loop has run 208 times; [fuel] stops there. *)
Fixpoint count_digit (fuel : nat) (num pow10 digit : Z) : result (Z * Z) :=
  if pow10 <=? num then
    match fuel with
    | O => Raise ValueError
    | S fuel' => count_digit fuel' (num - pow10) pow10 (digit + 1)
    end
  else Ok (digit, num).

(** The outer loop of [_get_digits]: [while pow10 >= 1], once per digit. *)
Fixpoint digits_loop (n : nat) (num pow10 : Z) : result (list ascii) :=
  match n with
  | O => Ok []
  | S n' =>
      if 1 <=? pow10 then
        let* dn := count_digit 208 num pow10 (ord "0") in
        let* c := chr (fst dn) in
        let* rest := digits_loop n' (snd dn) (pow10 / 10) in
        Ok (c :: rest)
      else Ok []
  end.

(** Remove trailing zeros, keeping one character; the string is given
    reversed. *)
Fixpoint remove_trailing_zeros (rdigits : list ascii) : list ascii :=
  match rdigits with
  | c :: (_ :: _) as rest =>
      if Ascii.eqb c "0" then remove_trailing_zeros rest else rdigits
  | _ => rdigits
  end.

(** Get the digits for an int.  [10L**(digits-1)] is below one when
    [digits] is not positive, and the loop does not run. *)
Definition _get_digits (num digits : Z) (remove_trailing : bool)
  : result (list ascii) :=
  let* digitstr :=
    if digits <=? 0 then Ok []
    else digits_loop (Z.to_nat digits) num (10 ^ (digits - 1)) in
  if remove_trailing then Ok (rev (remove_trailing_zeros (rev digitstr)))
  else Ok digitstr.

(** Put digits in scientific E-notation. *)
Definition _scientific_notation (digitstr : list ascii) (exp10 : Z)
  (exp_sign : ascii) (digits_to_dot : Z) (force_dot : bool)
  : result (list ascii) :=
  let valstr := slice_to digitstr digits_to_dot in
  let valstr :=
    if digits_to_dot <? len digitstr
    then valstr ++ str "." ++ slice_from digitstr digits_to_dot
    else if (len digitstr =? digits_to_dot) && force_dot
    then valstr ++ str "."
    else valstr in
  let exponent := exp10 - digits_to_dot + 1 in
  let valstr := valstr ++ [exp_sign] in
  let valstr := if exponent <? 0 then valstr ++ str "-" else valstr ++ str "+" in
  let* ds := _get_digits (Z.abs exponent) 2 false in
  Ok (valstr ++ ds).

(** Put digits in decimal notation. *)
Definition _decimal_notation (digitstr : list ascii) (exp10 : Z)
  (type_sign : list ascii) (force_dot : bool) : list ascii :=
  let is_hash := match type_sign with ["#"%char] => true | _ => false end in
  (* digits to decimal point *)
  let exp10 := exp10 + 1 in
  if len digitstr <=? exp10 then
    let valstr := digitstr ++ times "0" (exp10 - len digitstr) in
    let valstr := if force_dot then valstr ++ str "." else valstr in
    if negb force_dot || is_hash then valstr ++ type_sign else valstr
  else if 0 <? exp10 then
    let valstr := slice_to digitstr exp10 ++ str "." ++ slice_from digitstr exp10 in
    if is_hash then valstr ++ type_sign else valstr
  else
    let valstr := if force_dot then str "0" else [] in
    let valstr := valstr ++ str "." ++ times "0" (- exp10) ++ digitstr in
    if is_hash then valstr ++ type_sign else valstr.

Definition exp_sign (c : fp.fcls) : ascii :=
  match c with fp.Single => "E" | fp.Double => "D" end%char.

Module fpr.

(** Modelled from the spec: [Float.bring_to_range] of the [fp] module is
    not part of the sources.  It scales the float by powers of ten until
    its magnitude lies between the two bounds and returns the mantissa
    rounded to a whole number, with the decimal exponent applied.  This
    is its first loop, which divides by ten while the magnitude is above
    the upper bound. *)
Fixpoint div_to_top (fuel : nat) (f lim_top : fp.Float) (exp10 : Z)
  : result (fp.Float * Z) :=
  if fp.abs_gt f lim_top then
    match fuel with
    | O => Raise OutOfFuel
    | S fuel' => let* f' := fp.idiv10 f in div_to_top fuel' f' lim_top (exp10 + 1)
    end
  else Ok (f, exp10).

(** Modelled from the spec: the second loop of [bring_to_range], which
    multiplies by ten while the magnitude is below the lower bound. *)
Fixpoint mul_to_bot (fuel : nat) (f lim_bot : fp.Float) (exp10 : Z)
  : result (fp.Float * Z) :=
  if fp.abs_gt lim_bot f then
    match fuel with
    | O => Raise OutOfFuel
    | S fuel' => let* f' := fp.imul10 f in mul_to_bot fuel' f' lim_bot (exp10 - 1)
    end
  else Ok (f, exp10).

(** Modelled from the spec: [Float.bring_to_range]; the rounded mantissa
    and the decimal exponent. *)
Definition bring_to_range (f lim_bot lim_top : fp.Float) : result (Z * Z) :=
  let* fe := div_to_top 256 f lim_top 0 in
  let* fe := mul_to_bot 256 (fst fe) lim_bot (snd fe) in
  Ok (Z.abs (fp.round_to_int (fst fe)), snd fe).

End fpr.

(** Put a float in scientific format. *)
Definition _format_float_scientific (expr : fp.Float)
  (digits_before decimals : Z) (force_dot : bool) : result (list ascii) :=
  let c := fp.cls expr in
  let work_digits := digits_before + decimals in
  let work_digits :=
    (* decimal precision of the type *)
    if fp.digits c <? work_digits then fp.digits c else work_digits in
  let finish digitstr exp10 :=
    (* this is just to reproduce GW results for no digits *)
    let exp10 := if work_digits =? 0 then exp10 + 1 else exp10 in
    let exp10 := exp10 + (digits_before + decimals - 1) in
    _scientific_notation digitstr exp10 (exp_sign c) digits_before force_dot in
  if fp.is_zero expr then
    if negb force_dot then
      if Ascii.eqb (exp_sign c) "E" then Ok (str "E+00")
      else Ok (str "0D+00")
    else finish (times "0" (digits_before + decimals)) 0
  else
    let* lim_bot :=
      if 0 <? work_digits then
        (* scientific representation *)
        let* p := fp.pow_int (fp.ten c) (work_digits - 1) in
        Ok (_just_under p)
      else
        (* special case when work_digits == 0 *)
        Ok (fp.copy (fp.one c)) in
    let* lim_top := fp.imul10 (fp.copy lim_bot) in
    let* ne := fpr.bring_to_range expr lim_bot lim_top in
    let* digitstr := _get_digits (fst ne) work_digits true in
    let digitstr :=
      if len digitstr <? digits_before + decimals
      then digitstr ++ times "0" (digits_before + decimals - len digitstr)
      else digitstr in
    finish digitstr (snd ne).

(** [while num.gt(pow10) or num.equals(pow10)]: the power of ten and the
    exponent at the exit. *)
Fixpoint find_exponent (fuel : nat) (num pow10 : fp.Float) (exp10 : Z)
  : result (fp.Float * Z) :=
  if fp.gt num pow10 || fp.equals num pow10 then
    match fuel with
    | O => Raise OutOfFuel
    | S fuel' =>
        let* pow10' := fp.imul10 pow10 in
        find_exponent fuel' num pow10' (exp10 + 1)
    end
  else Ok (pow10, exp10).

(** Put a float in fixed-point representation. *)
Definition _format_float_fixed (expr : fp.Float) (decimals : Z)
  (force_dot : bool) : result (list ascii) :=
  let c := fp.cls expr in
  (* expr * 10**decimals *)
  let* p := fp.pow_int (fp.ten c) decimals in
  let* unrounded := fp.mul expr p in
  let* num := fp.iround (fp.copy unrounded) in
  (* find exponent *)
  let exp10 := 1 in
  let* pow10 := fp.pow_int (fp.ten c) exp10 in
  let* pe := find_exponent 256 num pow10 exp10 in
  let exp10 := snd pe in
  let work_digits := exp10 + 1 in
  let* nd :=
    if fp.digits c <? exp10 then
      let diff := exp10 - fp.digits c in
      (* unrounded / 10**diff *)
      let* q := fp.pow_int (fp.ten c) diff in
      let* d := fp.div unrounded q in
      let* num := fp.iround d in
      Ok (num, diff, work_digits - diff)
    else Ok (num, 0, work_digits) in
  let '(num, diff, work_digits) := nd in
  let num := fp.trunc_to_int num in
  (* argument work_digits-1 means we're getting work_digits==exp10+1-diff digits *)
  let* ds := _get_digits num (work_digits - 1) false in
  (* fill up with zeros *)
  let digitstr := ds ++ times "0" diff in
  Ok (_decimal_notation digitstr (work_digits - 1 - 1 - decimals + diff) []
                        force_dot).

(** The text [format_number] has built when it reaches the comparison with
    the width of the template: signs, currency sign and digits. *)
Definition format_number_valstr (value : value) (tokens : list ascii)
  (digits_before decimals : Z) : result (list ascii) :=
  (* extract sign, mantissa, exponent *)
  let value := fp.unpack value in
  (* dollar sign, decimal point *)
  let has_dollar := char_in "$" tokens in
  let force_dot := char_in "." tokens in
  let minus_or (s : list ascii) := if fp.neg value then str "-" else s in
  let* first := getitem tokens 0 in
  let* last := getitem tokens (List.length tokens - 1) in
  (* leading sign, if any *)
  let '(valstr, post_sign, digits_before) :=
    if Ascii.eqb first "+" then (minus_or (str "+"), [], digits_before)
    else if Ascii.eqb last "+" then ([], minus_or (str "+"), digits_before)
    else if Ascii.eqb last "-" then ([], minus_or (str " "), digits_before)
    else
      (* reserve space for sign in scientific notation by taking away a
         digit position *)
      (minus_or [], [],
       if has_dollar then digits_before
       else if digits_before - 1 <? 0 then 0 else digits_before - 1) in
  (* take absolute value *)
  let value := fp.mk (fp.cls value) false (fp.man value) (fp.exp value) in
  (* currency sign, if any *)
  let valstr := if has_dollar then valstr ++ str "$" else valstr in
  (* format to string *)
  let* body :=
    if char_in "^" tokens
    then _format_float_scientific value digits_before decimals force_dot
    else _format_float_fixed value decimals force_dot in
  (* trailing signs, if any *)
  Ok (valstr ++ body ++ post_sign).

(** Format a number to a format string. For PRINT USING. *)
Definition format_number (value : value) (tokens : list ascii)
  (digits_before decimals : Z) : result (list ascii) :=
  (* illegal function call if too many digits *)
  if 24 <? digits_before + decimals then Raise (RunError error.IFC)
  else
    let* valstr := format_number_valstr value tokens digits_before decimals in
    if len tokens <? len valstr then Ok (str "%" ++ valstr)
    else
      (* filler *)
      Ok (times (if char_in "*" tokens then "*" else " ")%char
                (len tokens - len valstr) ++ valstr).

(* ------------------------------------------------------------------ *)
(** * Truth values *)

Definition is_zero (x : value) : result bool :=
  let* x := pass_number x in
  match fst x with
  | INT => let* n := integer_to_int x false in Ok (n =? 0)
  | _ => Ok (fp.is_zero (fp.unpack x))
  end.

Definition to_bool (basic_value : value) : result bool :=
  let* z := is_zero basic_value in Ok (negb z).

(* ------------------------------------------------------------------ *)
(** * Conversion to a requested type *)

Definition to_type (t : typechar) (val : value) : M value :=
  match t with
  | STR => lift (pass_string val)
  | INT => lift (to_integer val false)
  | SNG => to_single val
  | DBL => to_double val
  end.

(* ------------------------------------------------------------------ *)
(** * More numeric operators *)

Definition abs (inp : value) : result value :=
  match fst inp with
  | INT =>
      let* i := integer_to_int inp false in
      let val := Z.abs i in
      if val =? 32768
      then let* f := fp.from_int fp.Single val in Ok (fp.pack f)
      else int_to_integer val false
  | SNG | DBL =>
      let* s := update_sign_byte (fun b => Z.land b 0x7F) (snd inp) in
      Ok (fst inp, s)
  | STR => Ok inp
  end.

Definition bitwise_not (right : value) : result value :=
  let* n := to_int right false in
  int_to_integer (- n - 1) false.

(** The operand of a bitwise operator, read as an unsigned number:
    [integer_to_int(self.to_integer(x), unsigned=True)]. *)
Definition to_unsigned (x : value) : result Z :=
  let* i := to_integer x false in integer_to_int i true.

Definition bitwise_and (left right : value) : result value :=
  let* l := to_unsigned left in
  let* r := to_unsigned right in
  int_to_integer (Z.land l r) true.

Definition bitwise_or (left right : value) : result value :=
  let* l := to_unsigned left in
  let* r := to_unsigned right in
  int_to_integer (Z.lor l r) true.

Definition bitwise_xor (left right : value) : result value :=
  let* l := to_unsigned left in
  let* r := to_unsigned right in
  int_to_integer (Z.lxor l r) true.

Definition bitwise_eqv (left right : value) : result value :=
  let* l := to_unsigned left in
  let* r := to_unsigned right in
  int_to_integer (0xffff - Z.lxor l r) true.

Definition bitwise_imp (left right : value) : result value :=
  let* l := to_unsigned left in
  let* r := to_unsigned right in
  int_to_integer (Z.lor (0xffff - l) r) true.

(* ------------------------------------------------------------------ *)
(** * Python sequences and numerals *)

(** The index [n] of a slice of a sequence of length [l]: counted from the
    end when negative, and clipped to the sequence. *)
Definition slice_index (n l : Z) : Z :=
  Z.max 0 (Z.min (if n <? 0 then n + l else n) l).

(** [s[start:stop]]. *)
Definition slice {A} (s : list A) (start stop : Z) : list A :=
  let a := slice_index start (len s) in
  let b := slice_index stop (len s) in
  firstn (Z.to_nat (b - a)) (skipn (Z.to_nat a) s).

(** [big.startswith(small)]. *)
Fixpoint startswith (big small : list Z) : bool :=
  match small, big with
  | [], _ => true
  | c :: small', b :: big' => (b =? c) && startswith big' small'
  | _ :: _, [] => false
  end.

(** [big.find(small)]: the lowest index at which [small] occurs in [big],
    or -1. *)
Fixpoint find (big small : list Z) {struct big} : Z :=
  if startswith big small then 0
  else
    match big with
    | [] => - 1
    | _ :: big' =>
        let r := find big' small in
        if r =? - 1 then - 1 else r + 1
    end.

(** The value of a character as a digit: 0 to 9, then the letters in
    either case. *)
Definition digit_of (c : ascii) : option Z :=
  if is_digit c then Some (ord c - 48)
  else if (97 <=? ord c) && (ord c <=? 122) then Some (ord c - 87)
  else if (65 <=? ord c) && (ord c <=? 90) then Some (ord c - 55)
  else None.

Fixpoint base_value (base : Z) (s : list ascii) (acc : Z) : result Z :=
  match s with
  | [] => Ok acc
  | c :: s' =>
      match digit_of c with
      | Some d =>
          if d <? base then base_value base s' (acc * base + d)
          else Raise ValueError
      | None => Raise ValueError
      end
  end.

(** Python's [int(s, base)] on text made of digits only, without sign,
    prefix or whitespace; an empty text or a character that is not a digit
    of the base is a [ValueError]. *)
Definition int_base (s : list ascii) (base : Z) : result Z :=
  match s with
  | [] => Raise ValueError
  | _ => base_value base s 0
  end.

(** The character of a digit below 36, lower case. *)
Definition digit_char (d : Z) : ascii :=
  ascii_of_N (Z.to_N (if d <? 10 then 48 + d else 87 + d)).

(** The digits of [n] in the base, most significant first, in front of
    [acc]; [fuel] bounds the number of digits. *)
Fixpoint digits_base (fuel : nat) (base n : Z) (acc : list ascii)
  : list ascii :=
  match fuel with
  | O => acc
  | S fuel' =>
      let acc' := digit_char (n mod base) :: acc in
      if n <? base then acc' else digits_base fuel' base (n / base) acc'
  end.

(** The numeral of a natural number in a base from 2 on: a number below
    [2 ^ k] has at most [k] digits. *)
Definition numeral (base n : Z) : list ascii :=
  digits_base (S (Z.to_nat (Z.log2 n))) base n [].

(** The numeral of an integer behind a prefix, with the sign first. *)
Definition signed_numeral (prefix : list ascii) (base n : Z) : list ascii :=
  if n <? 0 then "-"%char :: prefix ++ numeral base (- n)
  else prefix ++ numeral base n.

(** Python's [str(n)] on an integer. *)
Definition py_str (n : Z) : list ascii := signed_numeral [] 10 n.

(** Python's [hex(n)] on a plain integer. *)
Definition py_hex (n : Z) : list ascii := signed_numeral (str "0x") 16 n.

(** Python's [oct(n)] on a plain integer: a leading zero, and zero itself
    is "0". *)
Definition py_oct (n : Z) : list ascii :=
  if n =? 0 then str "0" else signed_numeral (str "0") 8 n.

(** The bytes of a Python [str]. *)
Definition bytes_of (s : list ascii) : list Z := map ord s.

(* ------------------------------------------------------------------ *)
(** * Argument checks *)

(** Modelled from the spec: [error.throw_if] of the [error] module is not
    part of the sources; an argument that cannot be used is the fault
    Illegal Function Call of section 7 of the specification. *)
Definition throw_if (b : bool) : result unit :=
  if b then Raise (RunError error.IFC) else Ok tt.

(** Modelled from the spec: [error.range_check] of the [error] module is
    not part of the sources; a value outside [lower, upper] is the fault
    Illegal Function Call of section 7 of the specification. *)
Definition range_check (lower upper val : Z) : result unit :=
  throw_if ((val <? lower) || (upper <? val)).

(* ------------------------------------------------------------------ *)
(** * String operations *)

Section StringMethods.

(** Modelled from the spec: the string space is external; [store(bytes)]
    allocates the bytes and returns their handle (section 6 of the
    specification).  The methods that store take it as a parameter: it
    returns the handle together with the object whose string space holds
    the bytes. *)
Variable store : list Z -> M value.

Definition concat (left right : value) : M value :=
  fun self =>
    (l <- lift (pass_string left) ;;
     r <- lift (pass_string right) ;;
     store (copy (_strings self) l ++ copy (_strings self) r)) self.

(** Binary + operator: add or concatenate. *)
Definition plus (left right : value) : M value :=
  match fst left with
  | STR => concat left right
  | _ => add left right
  end.

(** [cvi], [cvs] and [cvd]: the first [n] bytes of a string as a value. *)
Definition cv (n : nat) (x : value) (self : Values) : result value :=
  let* x := pass_string x in
  let cstr := copy (_strings self) x in
  let* _ := throw_if (len cstr <? Z.of_nat n) in
  from_bytes (firstn n cstr).

Definition cvi (x : value) (self : Values) : result value := cv 2 x self.

Definition cvs (x : value) (self : Values) : result value := cv 4 x self.

Definition cvd (x : value) (self : Values) : result value := cv 8 x self.

Definition mki (x : value) : M value :=
  i <- lift (to_integer x false) ;; store (to_bytes i).

Definition mks (x : value) : M value :=
  s <- to_single x ;; store (to_bytes s).

Definition mkd (x : value) : M value :=
  d <- to_double x ;; store (to_bytes d).

Definition character (x : value) : M value :=
  val <- lift (to_int x false) ;;
  _ <- lift (range_check 0 255 val) ;;
  c <- lift (chr val) ;;
  store [ord c].

Definition asc (x : value) (self : Values) : result value :=
  let* x := pass_string x in
  let s := copy (_strings self) x in
  let* _ := throw_if (match s with [] => true | _ => false end) in
  let* c := getitem s 0 in
  int_to_integer c false.

(** [start] is still a Python int. *)
Definition instr (big small : value) (start : Z) (self : Values)
  : result value :=
  let* big := pass_string big in
  let big := copy (_strings self) big in
  let* small := pass_string small in
  let small := copy (_strings self) small in
  if match big with [] => true | _ => false end || (len big <? start)
  then Ok (null INT)
  else
    (* BASIC counts string positions from 1 *)
    let find := find (slice big (start - 1) (len big)) small in
    if find =? - 1 then Ok (null INT)
    else int_to_integer (start + find) false.

Definition mid (s start num : value) : M value :=
  fun self =>
    (start <- lift (to_int start false) ;;
     num <- lift (to_int num false) ;;
     _ <- lift (range_check 1 255 start) ;;
     _ <- lift (range_check 0 255 num) ;;
     let s := copy (_strings self) s in
     if (num =? 0) || (len s <? start) then ret (null STR)
     else
       let start := start - 1 in
       let stop := start + num in
       let stop := Z.min stop (len s) in
       store (slice s start stop)) self.

Definition left (s stop : value) : M value :=
  fun self =>
    (let s := copy (_strings self) s in
     stop <- lift (to_int stop false) ;;
     _ <- lift (range_check 0 255 stop) ;;
     if stop =? 0 then ret (null STR)
     else
       let stop := Z.min stop (len s) in
       store (slice s 0 stop)) self.

Definition right (s stop : value) : M value :=
  fun self =>
    (let s := copy (_strings self) s in
     stop <- lift (to_int stop false) ;;
     _ <- lift (range_check 0 255 stop) ;;
     if stop =? 0 then ret (null STR)
     else
       let stop := Z.min stop (len s) in
       store (slice s (- stop) (len s))) self.

End StringMethods.

(* ------------------------------------------------------------------ *)
(** * Hexadecimal and octal constants *)

(** [ins.read(1)], the character dropped: the cursor stays at the end of
    the text. *)
Definition read (ins : StringIO) : StringIO :=
  if (pos ins <? List.length (buf ins))%nat
  then {| buf := buf ins; pos := S (pos ins) |}
  else ins.

(** [string.hexdigits]. *)
Definition hexdigits : list ascii := str "0123456789abcdefABCDEF".

(** [string.octdigits]. *)
Definition octdigits : list ascii := str "01234567".

(** The loop of [_tokenise_hex] over the unread input [rest], the cursor
    being at [p]: hex literals must not be interrupted by whitespace. *)
Fixpoint hex_word (rest : list ascii) (p : nat) (word : list ascii)
  : list ascii * nat :=
  match rest with
  | c :: rest' =>
      if char_in c hexdigits then hex_word rest' (S p) (word ++ [c])
      else (word, p)
  | [] => (word, p)
  end.

(** [int(word, base) if word else 0]. *)
Definition word_value (word : list ascii) (base : Z) : result Z :=
  match word with
  | [] => Ok 0
  | _ => int_base word base
  end.

(** Convert hex expression in Python string to number token. *)
Definition _tokenise_hex (ins : StringIO) (outs : list Z)
  : result (StringIO * list Z) :=
  (* pass the H in &H *)
  let ins := read ins in
  let '(word, p) := hex_word (skipn (pos ins) (buf ins)) (pos ins) [] in
  let* val := word_value word 16 in
  let* i := int_to_integer val true in
  Ok ({| buf := buf ins; pos := p |}, outs ++ tk.T_HEX :: to_bytes i).

(** The loop of [_tokenise_oct]: oct literals may be interrupted by
    whitespace. *)
Fixpoint oct_word (rest : list ascii) (p : nat) (word : list ascii)
  : list ascii * nat :=
  match rest with
  | c :: rest' =>
      if char_in c number_whitespace then oct_word rest' (S p) word
      else if char_in c octdigits then oct_word rest' (S p) (word ++ [c])
      else (word, p)
  | [] => (word, p)
  end.

(** [util.peek(ins).upper() == c]. *)
Definition peek_upper_is (ins : StringIO) (c : ascii) : bool :=
  match peek ins with
  | Some h => Ascii.eqb (upper h) c
  | None => false
  end.

(** Convert octal expression in Python string to number token. *)
Definition _tokenise_oct (ins : StringIO) (outs : list Z)
  : result (StringIO * list Z) :=
  (* O is optional, could also be &777 instead of &O777 *)
  let ins := if peek_upper_is ins "O" then read ins else ins in
  let '(word, p) := oct_word (skipn (pos ins) (buf ins)) (pos ins) [] in
  let* val := word_value word 8 in
  let* i := int_to_integer val true in
  Ok ({| buf := buf ins; pos := p |}, outs ++ tk.T_OCT :: to_bytes i).

(** Convert Python-string number representation to number token. *)
Definition tokenise_number (ins : StringIO) (outs : list Z)
  : M (StringIO * list Z) :=
  match peek ins with
  | None => ret (ins, outs)
  | Some c =>
      if Ascii.eqb c "&" then
        (* handle hex or oct constants *)
        let ins := read ins in
        if peek_upper_is ins "H" then lift (_tokenise_hex ins outs)
        else lift (_tokenise_oct ins outs)
      else if char_in c (str "0123456789.+-") then
        (* handle other numbers *)
        _tokenise_dec ins outs
      else ret (ins, outs)
  end.

(** Token to value; [None] when the token is empty or is not a number. *)
Definition token_to_value (full_token : list Z) : result (option value) :=
  match full_token with
  | [] => Ok None
  | lead :: rest =>
      if existsb (Z.eqb lead)
                 [tk.T_OCT; tk.T_HEX; tk.T_INT; tk.T_SINGLE; tk.T_DOUBLE]
      then let* v := from_bytes rest in Ok (Some v)
      else if lead =? tk.T_BYTE
      then let* v := from_bytes (rest ++ [0]) in Ok (Some v)
      else if (tk.C_0 <=? lead) && (lead <=? tk.C_10)
      then let* c := chr (lead - 0x11) in
           let* v := from_bytes [ord c; 0] in Ok (Some v)
      else Ok None
  end.

(* ------------------------------------------------------------------ *)
(** * String representation of numbers: free form *)

(** Convert integer to str in octal representation. *)
Definition integer_to_str_oct (inp : value) : result (list ascii) :=
  let* n := integer_to_int inp true in
  if n =? 0 then Ok (str "0")
  else
    let* n := integer_to_int inp true in
    Ok (slice (py_oct n) 1 (len (py_oct n))).

(** Convert integer to str in hex representation. *)
Definition integer_to_str_hex (inp : value) : result (list ascii) :=
  let* n := integer_to_int inp true in
  Ok (map upper (slice (py_hex n) 2 (len (py_hex n)))).

(** The character of a sigil. *)
Definition sigil_char (t : typechar) : ascii :=
  match t with INT => "%" | SNG => "!" | DBL => "#" | STR => "$" end%char.

(** [fp.Single.lim_top] and [fp.Double.lim_top]: 9999999, the highest
    float less than 10e+7, and the highest float less than 10e+16. *)
Definition lim_top (c : fp.fcls) : fp.Float :=
  match c with
  | fp.Single => fp.from_bytes fp.Single [0x7f; 0x96; 0x18; 0x98]
  | fp.Double =>
      fp.from_bytes fp.Double [0xff; 0xff; 0x03; 0xbf; 0xc9; 0x1b; 0x0e; 0xb6]
  end.

(** [fp.Single.lim_bot] and [fp.Double.lim_bot]: 999999.9, the highest
    float less than 10e+6, and the highest float less than 10e+15. *)
Definition lim_bot (c : fp.fcls) : fp.Float :=
  match c with
  | fp.Single => fp.from_bytes fp.Single [0xff; 0x23; 0x74; 0x94]
  | fp.Double =>
      fp.from_bytes fp.Double [0xff; 0xff; 0x9f; 0x31; 0xa9; 0x5f; 0x63; 0xb2]
  end.

(** Convert BASIC float to Python string. *)
Definition float_to_str (n_in : value) (screen write : bool)
  : result (list ascii) :=
  let n_in := fp.unpack n_in in
  let c := fp.cls n_in in
  (* zero exponent byte means zero *)
  if fp.is_zero n_in then
    if screen && negb write then Ok (str " 0")
    else if write then Ok (str "0")
    else Ok (str "0" ++ [sigil_char (fp.type_sign c)])
  else
    (* print sign *)
    let valstr :=
      if fp.neg n_in then str "-"
      else if screen && negb write then str " " else [] in
    let mbf := fp.copy n_in in
    let* ne := fpr.bring_to_range mbf (lim_bot c) (lim_top c) in
    let '(num, exp10) := ne in
    let* digitstr := _get_digits num (fp.digits c) true in
    (* exponent for scientific notation *)
    let exp10 := exp10 + (fp.digits c - 1) in
    if (fp.digits c - 1 <? exp10) || (fp.digits c + 1 <? len digitstr - exp10)
    then
      (* use scientific notation *)
      let* s := _scientific_notation digitstr exp10 (exp_sign c) 1 false in
      Ok (valstr ++ s)
    else
      (* use decimal notation *)
      let type_sign :=
        if screen || write then [] else [sigil_char (fp.type_sign c)] in
      Ok (valstr ++ _decimal_notation digitstr exp10 type_sign false).

(** Convert BASIC number to Python str.  A value is a pair and never
    empty, so the check [if not inp] does not fire. *)
Definition number_to_str (inp : value) (screen write : bool)
  : result (list ascii) :=
  match fst inp with
  | INT =>
      let* n := integer_to_int inp false in
      if screen && negb write && (0 <=? n) then Ok (" "%char :: py_str n)
      else
        let* n := integer_to_int inp false in
        Ok (py_str n)
  | SNG | DBL => float_to_str inp screen write
  | STR => Raise (RunError error.TYPE_MISMATCH)
  end.

Section StringOfNumber.

Variable store : list Z -> M value.

(** STR$: string representation of a number. *)
Definition representation (x : value) : M value :=
  x <- lift (pass_number x) ;;
  s <- lift (number_to_str x true false) ;;
  store (bytes_of s).

(** OCT$: octal representation of int. *)
Definition octal (x : value) : M value :=
  (* allow range -32768 to 65535 *)
  val <- lift (to_integer x true) ;;
  s <- lift (integer_to_str_oct val) ;;
  store (bytes_of s).

(** HEX$: hexadecimal representation of int. *)
Definition hexadecimal (x : value) : M value :=
  (* allow range -32768 to 65535 *)
  val <- lift (to_integer x true) ;;
  s <- lift (integer_to_str_hex val) ;;
  store (bytes_of s).

End StringOfNumber.

(* ------------------------------------------------------------------ *)
(** * Test diagnostics ([test/show.py]) *)

(** [for one, two in zip(lines1, lines2)]: the pairs that differ. *)
Fixpoint count_pairs (lines1 lines2 : list string) (count : Z) : Z :=
  match lines1, lines2 with
  | one :: lines1', two :: lines2' =>
      count_pairs lines1' lines2'
                  (if String.eqb one two then count else count + 1)
  | _, _ => count
  end.

(** [count_diff], on the lines read from the two files. *)
Definition count_diff (lines1 lines2 : list string) : Z * Z :=
  let n := len lines1 in
  let count := count_pairs lines1 lines2 0 in
  (n, count).

(* ------------------------------------------------------------------ *)
(** * Specification: predicates and reference definitions *)

(** ** Values of floats *)

(** The float [f] stands for the whole number [n], exactly. *)
Definition represents (f : fp.Float) (n : Z) : Prop :=
  fp.scaled f 0 = n * 2 ^ (fp.bias (fp.cls f) + 8).

(** [n] is a whole number nearest to the value of [f]. *)
Definition nearest_int (f : fp.Float) (n : Z) : Prop :=
  2 * Z.abs (n * 2 ^ (fp.bias (fp.cls f) + 8) - fp.scaled f 0)
    <= 2 ^ (fp.bias (fp.cls f) + 8).

(** A float in normal form, not zero: the leading mantissa bit set, a clear
    carry byte and an exponent that fits its byte. *)
Definition normalised (f : fp.Float) : Prop :=
  2 ^ (fp.mantissa_bits (fp.cls f) + 7) <= fp.man f
    < 2 ^ (fp.mantissa_bits (fp.cls f) + 8) /\
  fp.man f mod 256 = 0 /\ 0 < fp.exp f <= 255.

(** Rounding on the carry byte. *)
Definition round_carry (m : Z) : Z :=
  Z.shiftr (if 0x7f <? Z.land m 0xff then m + 0x100 else m) 8.

(** A float operation either returns a float of the class [c] or raises an
    overflow carrying a float of that class. *)
Definition class_outcome (c : fp.fcls) (r : result fp.Float) : Prop :=
  match r with
  | Ok f => fp.cls f = c
  | Raise e => exists g, e = OverflowError (Some g) /\ fp.cls g = c
  end.

(** ** Checks over a finite range *)

(** [P] holds on the [n] integers from [lo] on. *)
Fixpoint forall_from (P : Z -> bool) (lo : Z) (n : nat) : bool :=
  match n with
  | O => true
  | S n' => P lo && forall_from P (lo + 1) n'
  end.

(** The last mantissa byte of [to_bytes], from the top byte [t] of the
    mantissa and the sign. *)
Definition sign_byte (s : bool) (t : Z) : Z :=
  let top := Z.land t 0x7f in if s then Z.lor top 0x80 else top.

(** [from_bytes] reads the top byte and the sign back from [sign_byte]. *)
Definition sign_byte_ok (s : bool) (t : Z) : bool :=
  (Z.lor (sign_byte s t) 0x80 =? t) && Bool.eqb (0x80 <=? sign_byte s t) s
  && (0 <=? sign_byte s t) && (sign_byte s t <? 256).

(** Setting the implied bit of a byte gives a byte with its top bit set. *)
Definition lor_80_ok (b : Z) : bool :=
  (128 <=? Z.lor b 0x80) && (Z.lor b 0x80 <? 256).

(** Single 32768, the negation of Integer -32768. *)
Definition single_32768 : value := (SNG, [0; 0; 0; 144]).

(** Adding Single 32768 to the Single of the integer [a] returns a
    Single. *)
Definition add_32768_check (a : Z) : bool :=
  match fp.from_int fp.Single a with
  | Ok fa =>
      match fp.iadd (fp.unpack (fp.pack fa)) (fp.unpack single_32768) with
      | Ok f => match fp.cls f with fp.Single => true | fp.Double => false end
      | Raise _ => false
      end
  | Raise _ => false
  end.

(** ** Faults *)

(** The byte form of the single-precision maximum with the sign of the
    dividend. *)
Definition saturated (dividend : Z) : value :=
  (SNG, [0xff; 0xff; if dividend <? 0 then 0xff else 0x7f; 0xff]).

(** The object after the diagnostic of [c] has been written below the
    lines [scr] of its screen. *)
Definition diagnosed (self : Values) (scr : Screen) (c : error.code) : Values :=
  with_handler self
    {| _screen := Some (write_line scr (error.message c));
       _do_raise := _do_raise (_math_error_handler self) |}.

(** No [RunError] comes out of a computation. *)
Definition no_run_error {A} (r : result A) : Prop :=
  forall c, r <> Raise (RunError c).

(** ** Strings *)

(** Lexicographic order on byte strings: [l] is a proper prefix of [r], or
    the two differ first at a position where [l] has the smaller byte. *)
Inductive lex_lt : list Z -> list Z -> Prop :=
| lex_lt_prefix (l : list Z) (x : Z) (r : list Z) : lex_lt l (l ++ x :: r)
| lex_lt_differ (p : list Z) (a b : Z) (l r : list Z) :
    a < b -> lex_lt (p ++ a :: l) (p ++ b :: r).

(** ** Templates *)

(** [('*' if '*' in tokens else ' ')]. *)
Definition filler (tokens : list ascii) : ascii :=
  if char_in "*" tokens then "*"%char else " "%char.

(** ** Decimal literals *)

(** What may follow the mantissa of a decimal literal. *)
Inductive literal_tail : Set :=
| NoTail
| Exponent (marker : ascii) (sign : option ascii) (edigits : list ascii)
| Suffix (c : ascii).

(** A decimal literal, by its parts: an optional sign, the digits before
    the point, whether there is a point, the digits after it, an exponent
    or a type suffix, and whether a % closes it. *)
Record literal : Set :=
  { l_sign : option ascii; l_int : list ascii; l_point : bool;
    l_frac : list ascii; l_tail : literal_tail; l_percent : bool }.

(** The text of an optional character. *)
Definition opt_char (o : option ascii) : list ascii :=
  match o with Some c => [c] | None => [] end.

(** The text of the tail of a literal. *)
Definition render_tail (t : literal_tail) : list ascii :=
  match t with
  | NoTail => []
  | Exponent m s ds => m :: opt_char s ++ ds
  | Suffix c => [c]
  end.

(** The exponent marker in upper case, as the tokeniser keeps it. *)
Definition upper_tail (t : literal_tail) : literal_tail :=
  match t with
  | Exponent m s ds => Exponent (upper m) s ds
  | _ => t
  end.

(** The text of the sign and the mantissa of a literal. *)
Definition render_mantissa (L : literal) : list ascii :=
  opt_char (l_sign L) ++ l_int L ++
  (if l_point L then "."%char :: l_frac L else []).

(** The text of the closing %. *)
Definition percent_text (pc : bool) : list ascii :=
  if pc then ["%"%char] else [].

(** The text of a literal. *)
Definition render (L : literal) : list ascii :=
  render_mantissa L ++ render_tail (l_tail L) ++ percent_text (l_percent L).

(** The word the tokeniser accumulates from the text of a literal. *)
Definition accumulated (L : literal) : list ascii :=
  render_mantissa L ++ render_tail (upper_tail (l_tail L)).

(** A sign character. *)
Definition is_sign (c : ascii) : bool := char_in c (str "+-").

(** An optional sign. *)
Definition sign_ok (o : option ascii) : bool :=
  match o with Some c => is_sign c | None => true end.

(** A tail is an exponent marker in either case with an optional sign and
    digits, or one of the suffixes ! and #. *)
Definition tail_ok (t : literal_tail) : bool :=
  match t with
  | NoTail => true
  | Exponent m s ds =>
      char_in m (str "EDed") && sign_ok s && forallb is_digit ds
  | Suffix c => char_in c (str "!#")
  end.

(** A literal is made of digits around at most one point, is not empty,
    and is closed by a % only when it has no type suffix. *)
Definition wf_literal (L : literal) : bool :=
  sign_ok (l_sign L) && forallb is_digit (l_int L) &&
  forallb is_digit (l_frac L) &&
  (l_point L || match l_frac L with [] => true | _ => false end) &&
  tail_ok (l_tail L) &&
  match accumulated L with [] => false | _ => true end &&
  (negb (l_percent L) || match l_tail L with Suffix _ => false | _ => true end).

(** The literal has an exponent. *)
Definition has_exponent (L : literal) : bool :=
  match l_tail L with Exponent _ _ _ => true | _ => false end.

(** The kinds of token a decimal literal is written as. *)
Inductive token_kind : Set := KDigit | KByte | KInt | KSingle | KDouble.

(** The kind of a token, by its lead byte and its length. *)
Definition kind_of_token (tok : list Z) : option token_kind :=
  match tok with
  | [c] => if (tk.C_0 <=? c) && (c <=? tk.C_0 + 9) then Some KDigit else None
  | [t; _] => if t =? tk.T_BYTE then Some KByte else None
  | [t; _; _] => if t =? tk.T_INT then Some KInt else None
  | [t; _; _; _; _] => if t =? tk.T_SINGLE then Some KSingle else None
  | [t; _; _; _; _; _; _; _; _] => if t =? tk.T_DOUBLE then Some KDouble else None
  | _ => None
  end.

(** A Single or a Double token. *)
Definition is_float_kind (k : token_kind) : Prop := k = KSingle \/ k = KDouble.

(** The digit zero. *)
Definition is_zero_digit (c : ascii) : bool := Ascii.eqb c "0".

(** Leading zeros are not significant. *)
Fixpoint drop_zeros (ds : list ascii) : list ascii :=
  match ds with
  | c :: ds' => if is_zero_digit c then drop_zeros ds' else ds
  | [] => []
  end.

(** Trailing zeros after the decimal point do not count. *)
Definition strip_trailing_zeros (ds : list ascii) : list ascii :=
  rev (drop_zeros (rev ds)).

(** The significant digits supplied by a literal. *)
Definition significant_digits (L : literal) : Z :=
  len (drop_zeros (l_int L ++ strip_trailing_zeros (l_frac L))).

(** An explicit double marker: a D exponent or a # suffix. *)
Definition double_marker (L : literal) : bool :=
  match l_tail L with
  | Exponent m _ _ => Ascii.eqb (upper m) "D"
  | Suffix c => Ascii.eqb c "#"
  | NoTail => false
  end.

(** The ! suffix. *)
Definition single_override (L : literal) : bool :=
  match l_tail L with
  | Suffix c => Ascii.eqb c "!"
  | _ => false
  end.

(** A bare single digit. *)
Definition bare_digit (L : literal) : bool :=
  match l_sign L, l_int L, l_point L, l_tail L with
  | None, [_], false, NoTail => true
  | _, _, _, _ => false
  end.

(** No point, no exponent and no type suffix. *)
Definition integral (L : literal) : bool :=
  negb (l_point L) && match l_tail L with NoTail => true | _ => false end.

(** The value of an integral literal; a sign with no digit counts as zero. *)
Definition int_value (L : literal) : Z :=
  match l_sign L with
  | Some c => if Ascii.eqb c "-" then - digits_value (l_int L)
              else digits_value (l_int L)
  | None => digits_value (l_int L)
  end.

(** The kind of token of a literal, in the words of the specification,
    with the ! suffix overriding the count of digits. *)
Definition spec_kind (L : literal) : token_kind :=
  if bare_digit L then KDigit
  else if integral L && (- 32768 <=? int_value L) && (int_value L <=? 32767) then
    if (0 <=? int_value L) && (int_value L <=? 255) then KByte else KInt
  else if double_marker L ||
          ((8 <=? significant_digits L) && negb (single_override L))
  then KDouble else KSingle.

(** ** The loops of the tokeniser *)

(** The state of the scan after the characters [ds] have been kept. *)
Definition pushes (ds : list ascii) (st : scan_state) : scan_state :=
  {| have_exp := have_exp st; have_point := have_point st;
     word := word st ++ ds; kill := kill st |}.

(** Some digit is not zero. *)
Definition nonzero (ds : list ascii) : bool := negb (forallb is_zero_digit ds).

(** The number of zeros at the end. *)
Definition trailing_zeros (ds : list ascii) : Z :=
  len ds - len (strip_trailing_zeros ds).

(** The state of the parser after a digit of the mantissa. *)
Definition digit_update (c : ascii) (st : parse_state) : parse_state :=
  let mantissa' := mantissa st * 10 + (ord c - 48) in
  {| found_sign := true; found_point := found_point st;
     found_exp := found_exp st; found_exp_sign := found_exp_sign st;
     exp_neg := exp_neg st; neg := neg st;
     exp10 := if found_point st then exp10 st - 1 else exp10 st;
     exponent := exponent st; mantissa := mantissa';
     digits := if mantissa' =? 0 then digits st else digits st + 1;
     zeros := if mantissa' =? 0 then zeros st
              else if found_point st && Ascii.eqb c "0" then zeros st + 1 else 0;
     is_double := is_double st; is_single := is_single st |}.

(** What the counters of the parser hold after the digits [int] before the
    point and [frac] after it. *)
Record counters_ok (int frac : list ascii) (st : parse_state) : Prop :=
  { co_mantissa : mantissa st = digits_value (int ++ frac);
    co_digits : digits st = len (drop_zeros (int ++ frac));
    co_zeros : zeros st = if nonzero (int ++ frac) then trailing_zeros frac else 0;
    co_exp : found_exp st = false;
    co_double : is_double st = false;
    co_single : is_single st = false }.

(** Not one of the characters of [number_whitespace]. *)
Definition not_whitespace (c : ascii) : bool := negb (char_in c number_whitespace).

(** Not one of the suffixes ! and #. *)
Definition not_suffix (c : ascii) : bool := negb (char_in c (str "!#")).

(** ** Instances *)

(** A session with an empty screen and soft handling of faults. *)
Definition soft_values : Values :=
  {| _math_error_handler := {| _screen := Some []; _do_raise := false |};
     _strings := {| copy := fun v => snd v |};
     _double_math := false |}.

(** A session whose string space holds "AB" behind the handles of length
    two and "ABC" behind the others. *)
Definition string_space_AB : Values :=
  {| _math_error_handler := {| _screen := None; _do_raise := false |};
     _strings := {| copy := fun v => match snd v with
                                      | [2; _; _] => [65; 66]
                                      | _ => [65; 66; 67]
                                      end |};
     _double_math := false |}.

(** Single 7. *)
Definition single_7 : value := (SNG, [0; 0; 0x60; 0x83]).

(** Single 123. *)
Definition single_123 : value := (SNG, [0; 0; 0x76; 0x87]).

(** Double 7. *)
Definition double_7 : value := (DBL, [0; 0; 0; 0; 0; 0; 0x60; 0x83]).

(** Double 123. *)
Definition double_123 : value := (DBL, [0; 0; 0; 0; 0; 0; 0x76; 0x87]).

(** The token of Single 100000. *)
Definition token_1E5 : list Z := [tk.T_SINGLE; 0x00; 0x50; 0x43; 0x91].

(** The token of Double 100000. *)
Definition token_1D5 : list Z :=
  [tk.T_DOUBLE; 0x00; 0x00; 0x00; 0x00; 0x00; 0x50; 0x43; 0x91].

(** The literal "12345678!": eight significant digits and a ! suffix. *)
Definition literal_12345678_single : literal :=
  {| l_sign := None; l_int := str "12345678"; l_point := false;
     l_frac := []; l_tail := Suffix "!"; l_percent := false |}.

(** The literal "1.50000000": nine digits, of which the last seven are
    zeros behind the 5. *)
Definition literal_1_50000000 : literal :=
  {| l_sign := None; l_int := str "1"; l_point := true;
     l_frac := str "50000000"; l_tail := NoTail; l_percent := false |}.

(** ** A string space for instances *)

(** A string space that keeps the bytes in the handle itself, to go with
    the [copy] of [soft_values]. *)
Definition store_in_handle (bs : list Z) : M value :=
  fun self => (Ok (STR, bs), self).

(** ** Comparison results *)

(** The outcomes of an operator and of its opposite: both fail alike, or
    both return a truth value, one the bitwise NOT of the other, and leave
    the same object behind. *)
Definition opposite (p q : result value * Values) : Prop :=
  match p, q with
  | (Ok v, s1), (Ok w, s2) =>
      s1 = s2 /\ bitwise_not v = Ok w /\ bitwise_not w = Ok v /\
      ((v = (INT, [0xff; 0xff]) /\ to_bool v = Ok true) \/
       (v = (INT, [0x00; 0x00]) /\ to_bool v = Ok false))
  | (Raise e1, s1), (Raise e2, s2) => e1 = e2 /\ s1 = s2
  | _, _ => False
  end.

(** ** Constants in a base *)

(** One more digit [c] behind the value [acc] read so far; a character
    that is no digit counts as zero. *)
Definition radix_step (base : Z) (acc : Z) (c : ascii) : Z :=
  acc * base + match digit_of c with Some d => d | None => 0 end.

(** The value of text read in a base, most significant digit first. *)
Definition radix_value (base : Z) (ds : list ascii) : Z :=
  fold_left (radix_step base) ds 0.

(** One of [string.hexdigits]. *)
Definition is_hexdigit (c : ascii) : bool := char_in c hexdigits.

(** One of [string.octdigits]. *)
Definition is_octdigit (c : ascii) : bool := char_in c octdigits.

(** An octal digit or one of [number_whitespace]. *)
Definition is_oct_body (c : ascii) : bool :=
  is_octdigit c || char_in c number_whitespace.

(** The letter that selects the base, in either case. *)
Definition is_base_letter (c : ascii) : bool := char_in (upper c) (str "HO").

(** The text [rest] is empty or starts with a character outside the
    class [P]. *)
Definition stops_at (P : ascii -> bool) (rest : list ascii) : bool :=
  match rest with
  | c :: _ => negb (P c)
  | [] => true
  end.

(** The outcome of writing the unsigned constant [n] behind the lead byte
    [lead], with the cursor left at [p]. *)
Definition constant_written (text : list ascii) (p : nat) (outs : list Z)
  (lead n : Z) : result (StringIO * list Z) :=
  if n <=? 65535
  then Ok ({| buf := text; pos := p |}, outs ++ [lead; n mod 256; n / 256])
  else Raise (RunError error.OVERFLOW).

(** ** The text of integers *)

(** The Integer whose unsigned reading is [n]. *)
Definition integer_of_word (n : Z) : value := (INT, [n mod 256; n / 256]).

(** A text of digits of the class [P], not empty, whose value in the base
    is [n]. *)
Definition numeral_of (P : ascii -> bool) (base n : Z) (text : list ascii)
  : bool :=
  forallb P text && (radix_value base text =? n) &&
  match text with [] => false | _ => true end.

(** The text of HEX$ for the unsigned number [n] is its hexadecimal
    numeral. *)
Definition hex_text_check (n : Z) : bool :=
  match integer_to_str_hex (integer_of_word n) with
  | Ok text => numeral_of is_hexdigit 16 n text
  | Raise _ => false
  end.

(** The text of OCT$ for the unsigned number [n] is its octal numeral. *)
Definition oct_text_check (n : Z) : bool :=
  match integer_to_str_oct (integer_of_word n) with
  | Ok text => numeral_of is_octdigit 8 n text
  | Raise _ => false
  end.

(** The decimal literal that [str(n)] writes: a minus sign for a negative
    number, then the digits. *)
Definition integer_literal (n : Z) : literal :=
  {| l_sign := if n <? 0 then Some "-"%char else None;
     l_int := numeral 10 (Z.abs n); l_point := false; l_frac := [];
     l_tail := NoTail; l_percent := false |}.

(** The literal of [n] is well formed and has the value [n]. *)
Definition integer_literal_check (n : Z) : bool :=
  wf_literal (integer_literal n) && (int_value (integer_literal n) =? n).

(** ** The string space *)

(** The call [store(bs)] on the object [self] returns the string handle
    [h] and leaves the object [self'], in which [copy(h)] gives the bytes
    back: the contract of the string space in section 6 of the
    specification, for one call. *)
Definition stored (store : list Z -> M value) (bs : list Z) (self : Values)
  (h : value) (self' : Values) : Prop :=
  store bs self = (Ok h, self') /\ fst h = STR /\ copy (_strings self') h = bs.

(** [small] is found in [big] at the offset [i], counted from zero. *)
Definition occurs_at (big small : list Z) (i : Z) : Prop :=
  0 <= i /\ firstn (List.length small) (skipn (Z.to_nat i) big) = small.

(** ** Lines of text *)

(** The two lines differ. *)
Definition differ (p : string * string) : bool := negb (String.eqb (fst p) (snd p)).

(* ------------------------------------------------------------------ *)
(** * Proofs *)

(** ** Checking a decidable property on a finite range *)

Lemma forall_from_spec (P : Z -> bool) (n : nat) :
  forall lo, forall_from P lo n = true ->
  forall x, lo <= x < lo + Z.of_nat n -> P x = true.
Proof.
  induction n as [|n IH]; intros lo H x Hx; [lia|].
  cbn [forall_from] in H. apply andb_prop in H as [H0 H1].
  destruct (Z.eq_dec x lo) as [->|Hne]; [assumption|].
  apply (IH (lo + 1)); [assumption|lia].
Qed.

Lemma zrange_forallb (P : Z -> bool) (lo n : Z) :
  forall_from P lo (Z.to_nat n) = true ->
  forall x, lo <= x < lo + n -> P x = true.
Proof.
  intros H x Hx. apply (forall_from_spec P (Z.to_nat n) lo H). lia.
Qed.

Ltac by_bytes b Hb :=
  revert b Hb;
  match goal with
  | |- forall b, is_byte b -> @eq Z (@?l b) (@?r b) =>
      intros b Hb;
      apply Z.eqb_eq;
      apply (zrange_forallb (fun b => l b =? r b) 0 256);
      [vm_compute; reflexivity | exact Hb]
  end.

(** ** Integers and their bytes *)

Lemma wf_integer_bytes (v : value) :
  wf_value v -> fst v = INT ->
  exists b0 b1, v = (INT, [b0; b1]) /\ is_byte b0 /\ is_byte b1.
Proof.
  destruct v as [t s]; unfold wf_value; simpl.
  intros [Hlen Hall] ->. simpl in Hlen.
  destruct s as [|b0 [|b1 [|b2 s]]]; simpl in Hlen; try lia.
  exists b0, b1. inversion Hall as [|? ? H0 H1]; subst.
  inversion H1; subst. auto.
Qed.

Lemma land_byte_7f (b : Z) :
  is_byte b -> Z.land b 0x7f = if 128 <=? b then b - 128 else b.
Proof. intros Hb. by_bytes b Hb. Qed.

Lemma land_byte_80 (b : Z) :
  is_byte b -> Z.land b 0x80 = if 128 <=? b then 128 else 0.
Proof. intros Hb. by_bytes b Hb. Qed.

Lemma integer_to_int_signed (b0 b1 : Z) :
  is_byte b0 -> is_byte b1 ->
  integer_to_int (INT, [b0; b1]) false =
    Ok (if 128 <=? b1 then 256 * b1 + b0 - 65536 else 256 * b1 + b0).
Proof.
  intros H0 H1. unfold integer_to_int, getitem, rbind.
  cbn [snd nth_error].
  rewrite land_byte_80, land_byte_7f by assumption.
  destruct (Z.leb_spec 128 b1); cbn [Z.eqb Pos.eqb]; f_equal; lia.
Qed.

Lemma integer_to_int_range (v : value) :
  wf_value v -> fst v = INT ->
  exists n, integer_to_int v false = Ok n /\ - 32768 <= n <= 32767.
Proof.
  intros Hwf Ht.
  destruct (wf_integer_bytes v Hwf Ht) as (b0 & b1 & -> & H0 & H1).
  rewrite integer_to_int_signed by assumption.
  eexists; split; [reflexivity|].
  unfold is_byte in *. destruct (Z.leb_spec 128 b1); lia.
Qed.

Lemma wf_integer_32767 : wf_value (INT, [0xff; 0x7f]).
Proof.
  split; [reflexivity|].
  repeat (apply Forall_cons; [unfold is_byte; lia|]). apply Forall_nil.
Qed.

Lemma wf_integer_1 : wf_value (INT, [0x01; 0x00]).
Proof.
  split; [reflexivity|].
  repeat (apply Forall_cons; [unfold is_byte; lia|]). apply Forall_nil.
Qed.

Lemma wf_single_minus_1 : wf_value (SNG, [0; 0; 0x80; 0x81]).
Proof.
  split; [reflexivity|].
  repeat (apply Forall_cons; [unfold is_byte; lia|]). apply Forall_nil.
Qed.

Lemma land_ff (m : Z) : Z.land m 0xff = m mod 256.
Proof. change 0xff with (Z.ones 8). now rewrite Z.land_ones by lia. Qed.

Lemma mantissa_bits_pos c : 24 <= fp.mantissa_bits c <= 56.
Proof. destruct c; simpl; lia. Qed.

Lemma byte_size_bits c : 0x100 ^ fp.byte_size c = 2 ^ (fp.mantissa_bits c + 8).
Proof. destruct c; reflexivity. Qed.

Lemma apply_carry_clean (f : fp.Float) :
  fp.man f mod 256 = 0 -> fp.man f < 2 ^ (fp.mantissa_bits (fp.cls f) + 8) ->
  fp.apply_carry f = f.
Proof.
  intros Hlow Hlt. unfold fp.apply_carry.
  rewrite land_ff, Hlow. cbn [Z.ltb Z.compare].
  rewrite byte_size_bits.
  destruct (Z.leb_spec (2 ^ (fp.mantissa_bits (fp.cls f) + 8)) (fp.man f)); [lia|].
  rewrite land_ff, Hlow, Z.lxor_0_r. now destruct f.
Qed.

(** Normalising a small whole mantissa shifts it left, exactly. *)
Lemma normalise_int (c : fp.fcls) (s : bool) (a : Z) :
  0 < a < 2 ^ fp.mantissa_bits c ->
  let k := fp.mantissa_bits c - 1 - Z.log2 a in
  fp.normalise (fp.mk c s (a * 0x100) (fp.bias c)) =
    Ok (fp.mk c s (a * 2 ^ (8 + k)) (fp.bias c - k)).
Proof.
  intros Ha k.
  pose proof (mantissa_bits_pos c) as Hmb.
  assert (Hl : 0 <= Z.log2 a < fp.mantissa_bits c).
  { split; [apply Z.log2_nonneg | apply Z.log2_lt_pow2; lia]. }
  assert (Hlog : Z.log2 (a * 0x100) = Z.log2 a + 8).
  { change 0x100 with (2 ^ 8). rewrite Z.log2_mul_pow2; lia. }
  unfold fp.normalise. cbn [fp.man fp.exp fp.cls fp.neg].
  destruct (Z.eqb_spec (a * 0x100) 0); [lia|].
  destruct (Z.eqb_spec (fp.bias c) 0); [unfold fp.bias in *; lia|].
  cbn [orb]. rewrite Hlog.
  destruct (Z.leb_spec (Z.log2 a + 8) (fp.mantissa_bits c + 7)); [|lia].
  replace (fp.mantissa_bits c + 7 - (Z.log2 a + 8)) with k by (unfold k; lia).
  assert (Hk : 0 <= k) by (unfold k; lia).
  rewrite Z.shiftl_mul_pow2 by lia.
  assert (Hman : a * 0x100 * 2 ^ k = a * 2 ^ (8 + k)).
  { rewrite Z.pow_add_r by lia. change (2 ^ 8) with 0x100. ring. }
  rewrite Hman.
  assert (Hlt : a * 2 ^ (8 + k) < 2 ^ (fp.mantissa_bits c + 8)).
  { replace (fp.mantissa_bits c + 8) with ((Z.log2 a + 1) + (8 + k))
      by (unfold k; lia).
    rewrite (Z.pow_add_r 2 (Z.log2 a + 1)) by lia.
    apply Z.mul_lt_mono_pos_r; [apply Z.pow_pos_nonneg; lia|].
    apply Z.log2_spec; lia. }
  rewrite apply_carry_clean; cbn [fp.man fp.exp fp.cls fp.neg]; try assumption.
  - unfold fp.bias.
    destruct (Z.leb_spec (128 + fp.mantissa_bits c - k) 0); [unfold k in *; lia|].
    destruct (Z.ltb_spec 0xff (128 + fp.mantissa_bits c - k)); [unfold k in *; lia|].
    reflexivity.
  - replace (8 + k) with (k + 8) by lia. rewrite Z.pow_add_r by lia.
    change (2 ^ 8) with 256. rewrite Z.mul_assoc. apply Z.mod_mul. lia.
Qed.

Lemma from_int_exact (c : fp.fcls) (n : Z) :
  Z.abs n < 2 ^ fp.mantissa_bits c -> n <> 0 ->
  exists f, fp.from_int c n = Ok f /\ fp.cls f = c /\ fp.neg f = (n <? 0) /\
            normalised f /\ represents f n.
Proof.
  intros Hn Hnz. unfold fp.from_int.
  pose proof (mantissa_bits_pos c) as Hmb.
  rewrite normalise_int by lia.
  set (k := fp.mantissa_bits c - 1 - Z.log2 (Z.abs n)).
  assert (Hl : 0 <= Z.log2 (Z.abs n) < fp.mantissa_bits c).
  { split; [apply Z.log2_nonneg | apply Z.log2_lt_pow2; lia]. }
  assert (Hk : 0 <= k) by (unfold k; lia).
  eexists; split; [reflexivity|].
  split; [reflexivity|]. split; [reflexivity|]. split.
  - unfold normalised; cbn [fp.man fp.exp fp.cls fp.neg]. repeat split.
    + replace (fp.mantissa_bits c + 7) with (Z.log2 (Z.abs n) + (8 + k))
        by (unfold k; lia).
      rewrite (Z.pow_add_r 2 (Z.log2 (Z.abs n))) by lia.
      apply Z.mul_le_mono_nonneg_r; [apply Z.pow_nonneg; lia|].
      apply Z.log2_spec; lia.
    + replace (fp.mantissa_bits c + 8) with ((Z.log2 (Z.abs n) + 1) + (8 + k))
        by (unfold k; lia).
      rewrite (Z.pow_add_r 2 (Z.log2 (Z.abs n) + 1)) by lia.
      apply Z.mul_lt_mono_pos_r; [apply Z.pow_pos_nonneg; lia|].
      apply Z.log2_spec; lia.
    + replace (8 + k) with (k + 8) by lia. rewrite Z.pow_add_r by lia.
      change (2 ^ 8) with 256. rewrite Z.mul_assoc. apply Z.mod_mul. lia.
    + unfold fp.bias, k. lia.
    + unfold fp.bias, k. lia.
  - unfold represents, fp.scaled, fp.is_zero; cbn [fp.man fp.exp fp.cls fp.neg].
    destruct (Z.eqb_spec (fp.bias c - k) 0); [unfold fp.bias, k in *; lia|].
    rewrite Z.sub_0_r.
    replace (fp.bias c + 8) with ((8 + k) + (fp.bias c - k)) by lia.
    rewrite (Z.pow_add_r 2 (8 + k)) by (unfold fp.bias, k; lia).
    destruct (Z.ltb_spec n 0).
    + rewrite Z.abs_neq by lia. ring.
    + rewrite Z.abs_eq by lia. ring.
Qed.

Lemma le_bytes_length n m : List.length (fp.le_bytes n m) = n.
Proof. revert m; induction n; intros; simpl; auto. Qed.

Lemma le_int_le_bytes (n : nat) (m : Z) :
  fp.le_int (fp.le_bytes n m) = m mod 2 ^ (8 * Z.of_nat n).
Proof.
  revert m; induction n as [|n IH]; intros m.
  - simpl. now rewrite Z.mod_1_r.
  - cbn [fp.le_bytes fp.le_int]. rewrite IH, land_ff, Z.shiftr_div_pow2 by lia.
    replace (8 * Z.of_nat (S n)) with (8 + 8 * Z.of_nat n) by lia.
    rewrite Z.pow_add_r by lia. change (2 ^ 8) with 256.
    rewrite Z.rem_mul_r by (try apply Z.pow_nonzero; lia).
    reflexivity.
Qed.

Lemma sign_byte_top (t : Z) (s : bool) :
  128 <= t < 256 ->
  Z.lor (sign_byte s t) 0x80 = t /\ (0x80 <=? sign_byte s t) = s /\
  is_byte (sign_byte s t).
Proof.
  intros Ht.
  assert (H : sign_byte_ok s t = true).
  { apply (zrange_forallb (sign_byte_ok s) 128 128); [|lia].
    destruct s; vm_compute; reflexivity. }
  unfold sign_byte_ok in H.
  apply andb_prop in H as [H H4]. apply andb_prop in H as [H H3].
  apply andb_prop in H as [H1 H2].
  apply Z.eqb_eq in H1. apply eqb_prop in H2.
  apply Z.leb_le in H3. apply Z.ltb_lt in H4.
  unfold is_byte. auto.
Qed.

Lemma unpack_pack (f : fp.Float) :
  normalised f -> fp.unpack (fp.pack f) = f.
Proof.
  intros (Hman & Hlow & Hexp).
  unfold fp.pack, fp.unpack, fp.to_bytes.
  rewrite apply_carry_clean by (assumption || lia).
  destruct f as [c s m e]; cbn [fp.cls fp.neg fp.man fp.exp] in *.
  set (n := Z.to_nat (fp.byte_size c - 2)).
  assert (Hn : fp.mantissa_bits c = 8 * Z.of_nat n + 8) by (destruct c; reflexivity).
  assert (Hc : (match fst (fp.type_sign c, @nil Z) with DBL => fp.Double | _ => fp.Single end) = c)
    by (destruct c; reflexivity).
  cbn [fst snd] in *. rewrite Hc. unfold fp.from_bytes. fold n.
  set (m8 := Z.shiftr m 8).
  assert (Hm8 : m = m8 * 256).
  { unfold m8. rewrite Z.shiftr_div_pow2 by lia. change (2 ^ 8) with 256.
    pose proof (Z.div_mod m 256). lia. }
  rewrite firstn_app, le_bytes_length, Nat.sub_diag, firstn_O, app_nil_r.
  rewrite firstn_all2 by (rewrite le_bytes_length; lia).
  rewrite !app_nth2 by (rewrite le_bytes_length; lia).
  rewrite le_bytes_length, Nat.sub_diag.
  replace (S n - n)%nat with 1%nat by lia. cbn [nth].
  replace (8 * (fp.byte_size c - 2)) with (8 * Z.of_nat n) by (destruct c; reflexivity).
  replace (fp.byte_size c - 2) with (Z.of_nat n) by (destruct c; reflexivity).
  assert (Ht : 128 <= Z.shiftr m8 (8 * Z.of_nat n) < 256).
  { rewrite Z.shiftr_div_pow2 by lia.
    assert (2 ^ (8 * Z.of_nat n + 7) <= m8 < 2 ^ (8 * Z.of_nat n + 8)).
    { rewrite Hn in Hman.
      assert (E1 : 2 ^ (8 * Z.of_nat n + 8 + 7) = 2 ^ (8 * Z.of_nat n + 7) * 256)
        by (rewrite <- (Z.pow_add_r 2 _ 8) by lia; f_equal; lia).
      assert (E2 : 2 ^ (8 * Z.of_nat n + 8 + 8) = 2 ^ (8 * Z.of_nat n + 8) * 256)
        by (rewrite <- (Z.pow_add_r 2 _ 8) by lia; f_equal; lia).
      rewrite E1, E2 in Hman. lia. }
    rewrite !(Z.pow_add_r) in H by lia. change (2 ^ 7) with 128 in H.
    change (2 ^ 8) with 256 in H.
    assert (0 < 2 ^ (8 * Z.of_nat n)) by (apply Z.pow_pos_nonneg; lia).
    split.
    - apply Z.div_le_lower_bound; lia.
    - apply Z.div_lt_upper_bound; lia. }
  destruct (sign_byte_top _ s Ht) as (H1 & H2 & _). unfold sign_byte in H1, H2.
  rewrite H1, H2, le_int_le_bytes.
  f_equal. rewrite Z.shiftl_mul_pow2 by lia. change (2 ^ 8) with 256.
  rewrite Hm8. f_equal. clearbody m8.
  rewrite Z.shiftr_div_pow2 by lia.
  replace (256 ^ Z.of_nat n) with (2 ^ (8 * Z.of_nat n))
    by (change 256 with (2 ^ 8); rewrite <- Z.pow_mul_r by lia; reflexivity).
  pose proof (Z.div_mod m8 (2 ^ (8 * Z.of_nat n))).
  assert (0 < 2 ^ (8 * Z.of_nat n)) by (apply Z.pow_pos_nonneg; lia).
  lia.
Qed.

Lemma pack_type (f : fp.Float) : fst (fp.pack f) = fp.type_sign (fp.cls f).
Proof. reflexivity. Qed.

Lemma apply_carry_cls (f : fp.Float) : fp.cls (fp.apply_carry f) = fp.cls f.
Proof.
  unfold fp.apply_carry.
  destruct (0x100 ^ fp.byte_size (fp.cls f) <=? _); reflexivity.
Qed.

Lemma normalise_cls (f f' : fp.Float) :
  fp.normalise f = Ok f' -> fp.cls f' = fp.cls f.
Proof.
  unfold fp.normalise. intros H.
  destruct (_ || _); [injection H as <-; reflexivity|].
  destruct (_ <=? 0); [injection H as <-; reflexivity|].
  destruct (0xff <? _); [discriminate|].
  injection H as <-. rewrite apply_carry_cls.
  destruct (_ <=? _); reflexivity.
Qed.

Lemma from_int_cls (c : fp.fcls) (n : Z) (f : fp.Float) :
  fp.from_int c n = Ok f -> fp.cls f = c.
Proof. intros H. now apply normalise_cls in H. Qed.

Lemma shiftr_8 (n : Z) : Z.shiftr n 8 = n / 256.
Proof. now rewrite Z.shiftr_div_pow2 by lia. Qed.

Lemma int_to_integer_unsigned_ok (n : Z) :
  - 32768 <= n <= 65535 ->
  exists v, int_to_integer n true = Ok v /\ fst v = INT /\ wf_value v /\
            integer_to_int v true = Ok (n mod 65536).
Proof.
  intros Hn. unfold int_to_integer.
  destruct (Z.gtb_spec n 0xffff); [lia|].
  destruct (Z.ltb_spec n (- 0x8000)); [lia|]. cbn [orb].
  set (n' := if n <? 0 then 0x10000 + n else n).
  assert (Hn' : 0 <= n' < 65536 /\ n' = n mod 65536).
  { unfold n'. destruct (Z.ltb_spec n 0).
    - split; [lia|]. apply Z.mod_unique with (q := -1); lia.
    - split; [lia|]. symmetry; apply Z.mod_small; lia. }
  destruct Hn' as [Hr Hm].
  eexists; split; [reflexivity|]. split; [reflexivity|]. split.
  - split; [reflexivity|]. cbn [snd]. rewrite land_ff, shiftr_8.
    repeat constructor; unfold is_byte.
    + apply Z.mod_pos_bound; lia.
    + apply Z.mod_pos_bound; lia.
    + apply Z.div_pos; lia.
    + apply Z.div_lt_upper_bound; lia.
  - unfold integer_to_int, getitem, rbind. cbn [snd nth_error].
    rewrite land_ff, shiftr_8, <- Hm. f_equal.
    pose proof (Z.div_mod n' 256). lia.
Qed.

Lemma int_to_integer_signed_ok (n : Z) :
  - 32768 <= n <= 32767 ->
  exists v, int_to_integer n false = Ok v /\ fst v = INT /\ wf_value v /\
            integer_to_int v false = Ok n.
Proof.
  intros Hn. unfold int_to_integer.
  destruct (Z.gtb_spec n 0x7fff); [lia|].
  destruct (Z.ltb_spec n (- 0x8000)); [lia|]. cbn [orb].
  set (n' := if n <? 0 then 0x10000 + n else n).
  assert (Hn' : 0 <= n' < 65536) by (unfold n'; destruct (Z.ltb_spec n 0); lia).
  assert (B0 : is_byte (n' mod 256)) by (apply Z.mod_pos_bound; lia).
  assert (B1 : is_byte (n' / 256)).
  { split; [apply Z.div_pos; lia | apply Z.div_lt_upper_bound; lia]. }
  eexists; split; [reflexivity|]. split; [reflexivity|]. split.
  - split; [reflexivity|]. cbn [snd]. rewrite land_ff, shiftr_8.
    apply Forall_cons; [exact B0|apply Forall_cons; [exact B1|apply Forall_nil]].
  - rewrite land_ff, shiftr_8, integer_to_int_signed by assumption.
    f_equal. pose proof (Z.div_mod n' 256).
    assert (n' / 256 < 128 <-> n' < 32768).
    { split; intros.
      - pose proof (Z.mod_pos_bound n' 256). lia.
      - apply Z.div_lt_upper_bound; lia. }
    unfold n' in *. destruct (Z.leb_spec 128 ((if n <? 0 then 0x10000 + n else n) / 256));
      destruct (Z.ltb_spec n 0); lia.
Qed.

Lemma from_int_ok (c : fp.fcls) (n : Z) :
  Z.abs n < 2 ^ fp.mantissa_bits c ->
  exists f, fp.from_int c n = Ok f /\ fp.cls f = c /\
            represents (fp.unpack (fp.pack f)) n.
Proof.
  intros Hn. destruct (Z.eq_dec n 0) as [->|Hnz].
  - exists (fp.zero c). destruct c; repeat split; reflexivity.
  - destruct (from_int_exact c n Hn Hnz) as (f & Hf & Hc & _ & Hnorm & Hrep).
    exists f. rewrite unpack_pack by assumption. auto.
Qed.

(** ** Adding two Integers *)

Lemma add_integers (self : Values) (left right : value) (a b : Z) :
  fst left = INT -> fst right = INT ->
  integer_to_int left false = Ok a -> integer_to_int right false = Ok b ->
  - 65536 <= a + b <= 65536 ->
  exists f, fp.from_int fp.Single (a + b) = Ok f /\ fp.cls f = fp.Single /\
            add left right self = (Ok (fp.pack f), self).
Proof.
  intros Hl Hr Ha Hb Hsum.
  destruct (from_int_ok fp.Single (a + b)) as (f & Hf & Hc & _).
  { change (2 ^ fp.mantissa_bits fp.Single) with 16777216. lia. }
  exists f. split; [assumption|]. split; [assumption|].
  unfold add, float_safe, to_most_precise, to_integer.
  rewrite Hl, Hr. cbv [typechar_eqb orb bind lift ret]. rewrite Hl.
  rewrite Ha, Hb. cbn [rbind]. rewrite Hf. reflexivity.
Qed.

(** C1: adding two Integers whose exact sum lies outside [-32768, 32767]
    returns a Single that holds the exact sum, never an Integer wrapped
    modulo 2^16; Integer 32767 plus Integer 1 is Single 32768.0. *)
Theorem add_integer_overflow_is_single :
  (forall (self : Values) (left right : value) (a b : Z),
     wf_value left -> fst left = INT -> wf_value right -> fst right = INT ->
     integer_to_int left false = Ok a -> integer_to_int right false = Ok b ->
     a + b < - 32768 \/ 32767 < a + b ->
     exists v, add left right self = (Ok v, self) /\ fst v = SNG /\
               represents (fp.unpack v) (a + b)) /\
  (forall self : Values,
     add (INT, [0xff; 0x7f]) (INT, [0x01; 0x00]) self
       = (Ok (SNG, [0x00; 0x00; 0x00; 0x90]), self) /\
     represents (fp.unpack (SNG, [0x00; 0x00; 0x00; 0x90])) 32768).
Proof.
  split.
  - intros self left right a b Wl Tl Wr Tr Ha Hb Hout.
    destruct (integer_to_int_range left Wl Tl) as (a' & Ha' & Hra).
    destruct (integer_to_int_range right Wr Tr) as (b' & Hb' & Hrb).
    rewrite Ha in Ha'; injection Ha' as <-.
    rewrite Hb in Hb'; injection Hb' as <-.
    destruct (add_integers self left right a b Tl Tr Ha Hb)
      as (f & Hf & Hc & Hadd); [lia|].
    exists (fp.pack f). split; [assumption|].
    split; [now rewrite pack_type, Hc|].
    destruct (from_int_ok fp.Single (a + b)) as (f' & Hf' & _ & Hrep).
    { change (2 ^ fp.mantissa_bits fp.Single) with 16777216. lia. }
    rewrite Hf in Hf'; injection Hf' as <-. exact Hrep.
  - intros self. split; reflexivity.
Qed.

Lemma add_integer_overflow_is_single_witness :
  exists v, add (INT, [0xff; 0x7f]) (INT, [0x01; 0x00]) soft_values
              = (Ok v, soft_values) /\
            fst v = SNG /\ represents (fp.unpack v) (32767 + 1).
Proof.
  apply (proj1 add_integer_overflow_is_single soft_values
               (INT, [0xff; 0x7f]) (INT, [0x01; 0x00]) 32767 1).
  - exact wf_integer_32767.
  - reflexivity.
  - exact wf_integer_1.
  - reflexivity.
  - reflexivity.
  - reflexivity.
  - right. lia.
Defined.

Lemma add_32768_ok (a : Z) :
  - 32768 <= a <= 32767 -> add_32768_check a = true.
Proof.
  intros Ha. apply (zrange_forallb add_32768_check (- 32768) 65536).
  - vm_compute. reflexivity.
  - lia.
Qed.

Lemma add_integer_single_32768 (self : Values) (left : value) (a : Z) :
  fst left = INT -> integer_to_int left false = Ok a -> - 32768 <= a <= 32767 ->
  exists v, add left single_32768 self = (Ok v, self) /\ fst v = SNG.
Proof.
  intros Hl Ha Hr. pose proof (add_32768_ok a Hr) as Hchk.
  unfold add_32768_check in Hchk.
  destruct (fp.from_int fp.Single a) as [fa|] eqn:Hfa; [|discriminate].
  destruct (fp.iadd _ _) as [f|] eqn:Hf; [|discriminate].
  destruct (fp.cls f) eqn:Hc; [|discriminate].
  exists (fp.pack f). split; [|now rewrite pack_type, Hc].
  unfold add, float_safe, to_most_precise, to_single.
  rewrite Hl. cbv [single_32768 fst typechar_eqb orb bind lift ret float_safe].
  rewrite Ha. cbn [rbind]. rewrite Hfa. cbn [rbind].
  assert (Hp : fst (fp.pack fa) = SNG).
  { now rewrite pack_type, (from_int_cls _ _ _ Hfa). }
  destruct (fp.pack fa) as [t s] eqn:Hpack. cbn [fst] in Hp. subst t.
  cbn [fst]. fold single_32768. rewrite Hf. reflexivity.
Qed.

(** C10: for every pair of Integer operands, add and subtract return a
    Single-tagged value, also when the exact result fits in
    [-32768, 32767]. *)
Theorem add_integers_always_single (self : Values) (left right : value) :
  wf_value left -> fst left = INT -> wf_value right -> fst right = INT ->
  (exists v, add left right self = (Ok v, self) /\ fst v = SNG) /\
  (exists v, subtract left right self = (Ok v, self) /\ fst v = SNG).
Proof.
  intros Wl Tl Wr Tr.
  destruct (integer_to_int_range left Wl Tl) as (a & Ha & Hra).
  destruct (integer_to_int_range right Wr Tr) as (b & Hb & Hrb).
  split.
  - destruct (add_integers self left right a b Tl Tr Ha Hb) as (f & _ & Hc & Hadd);
      [lia|].
    exists (fp.pack f). split; [assumption|]. now rewrite pack_type, Hc.
  - unfold subtract, float_safe, bind, lift, negate.
    rewrite Tr, Hb. cbn [rbind].
    destruct (Z.eqb_spec (- b) 32768) as [Hmin|Hmin].
    + rewrite Hmin.
      change (let* f := fp.from_int fp.Single 32768 in Ok (fp.pack f))
        with (Ok single_32768).
      destruct (add_integer_single_32768 self left a Tl Ha Hra) as (v & Hv & Ht).
      exists v. rewrite Hv. auto.
    + destruct (int_to_integer_signed_ok (- b)) as (nb & Hnb & Tnb & Wnb & Hval);
        [lia|].
      rewrite Hnb.
      destruct (add_integers self left nb a (- b) Tl Tnb Ha Hval)
        as (f & _ & Hc & Hadd); [lia|].
      exists (fp.pack f). rewrite Hadd. split; [reflexivity|].
      now rewrite pack_type, Hc.
Qed.

Lemma add_integers_always_single_witness :
  (exists v, add (INT, [0x01; 0x00]) (INT, [0x01; 0x00]) soft_values
               = (Ok v, soft_values) /\ fst v = SNG) /\
  (exists v, subtract (INT, [0x01; 0x00]) (INT, [0x01; 0x00]) soft_values
               = (Ok v, soft_values) /\ fst v = SNG).
Proof.
  apply (add_integers_always_single soft_values (INT, [0x01; 0x00])
                                    (INT, [0x01; 0x00])).
  - exact wf_integer_1.
  - reflexivity.
  - exact wf_integer_1.
  - reflexivity.
Defined.

(** ** Modulo *)

(** C2: with dividend -7 and divisor -3, mod returns Integer 2, a positive
    value for a negative dividend. *)
Example mod_both_negative (self : Values) :
  mod_ (INT, [0xf9; 0xff]) (INT, [0xfd; 0xff]) self = (Ok (INT, [2; 0]), self)
  /\ integer_to_int (INT, [0xf9; 0xff]) false = Ok (- 7)
  /\ integer_to_int (INT, [0xfd; 0xff]) false = Ok (- 3)
  /\ integer_to_int (INT, [2; 0]) false = Ok 2.
Proof. repeat split. Qed.

(** ** Division by zero *)

Lemma float_safe_zero_division (self : Values) (dividend : Z) :
  let h := _math_error_handler self in
  (forall scr, _screen h = Some scr -> _do_raise h = false ->
     float_safe (lift (Raise (zero_division dividend))) self =
       (Ok (saturated dividend), diagnosed self scr error.DIVISION_BY_ZERO)) /\
  (_do_raise h = true \/ _screen h = None ->
     float_safe (lift (Raise (zero_division dividend))) self =
       (Raise (RunError error.DIVISION_BY_ZERO), self)).
Proof.
  destruct self as [[scr dr] sp dm]. cbn [_math_error_handler _screen _do_raise].
  split.
  - intros scr' -> ->. unfold float_safe, lift, zero_division, handle, diagnosed.
    cbn [is_float_error _math_error_handler _screen _do_raise orb negb existsb
         soft_types error.code_eqb with_handler _strings _double_math].
    unfold saturated. destruct (dividend <? 0);
      (apply f_equal2; [vm_compute; reflexivity|reflexivity]).
  - intros H. unfold float_safe, lift, zero_division, handle.
    cbn [is_float_error _math_error_handler _screen _do_raise].
    destruct scr as [scr|]; [|reflexivity].
    destruct H as [->|H]; [reflexivity|discriminate].
Qed.

(** C3: integer division and mod by zero.  With a display surface present
    and strict raising not demanded, the operation writes the diagnostic
    and returns the single-precision maximum with the sign of the dividend;
    when strict raising is demanded or there is no display surface it
    raises Division By Zero; one of the two cases always applies. *)
Theorem zero_division_policy (self : Values) (left right : value) (dividend : Z) :
  to_int left false = Ok dividend -> to_int right false = Ok 0 ->
  let h := _math_error_handler self in
  (forall scr, _screen h = Some scr -> _do_raise h = false ->
     divide_int left right self =
       (Ok (saturated dividend), diagnosed self scr error.DIVISION_BY_ZERO) /\
     mod_ left right self =
       (Ok (saturated dividend), diagnosed self scr error.DIVISION_BY_ZERO)) /\
  (_do_raise h = true \/ _screen h = None ->
     divide_int left right self = (Raise (RunError error.DIVISION_BY_ZERO), self) /\
     mod_ left right self = (Raise (RunError error.DIVISION_BY_ZERO), self)) /\
  ((exists scr, _screen h = Some scr /\ _do_raise h = false) \/
   (_do_raise h = true \/ _screen h = None)) /\
  fp.unpack (saturated dividend) =
    fp.mk fp.Single (dividend <? 0) (fp.man (fp.max fp.Single))
          (fp.exp (fp.max fp.Single)).
Proof.
  intros Hl Hr h.
  assert (Hd : divide_int left right = float_safe (lift (Raise (zero_division dividend)))).
  { unfold divide_int. now rewrite Hl, Hr. }
  assert (Hm : mod_ left right = float_safe (lift (Raise (zero_division dividend)))).
  { unfold mod_. now rewrite Hl, Hr. }
  rewrite Hd, Hm.
  destruct (float_safe_zero_division self dividend) as [Hsoft Hstrict].
  repeat split.
  - now apply Hsoft.
  - now apply Hsoft.
  - now apply Hstrict.
  - now apply Hstrict.
  - subst h. destruct (_screen (_math_error_handler self)) as [scr|]; [|auto].
    destruct (_do_raise (_math_error_handler self)); [auto|].
    left. now exists scr.
  - unfold saturated. destruct (dividend <? 0); reflexivity.
Qed.

Lemma zero_division_policy_witness :
  divide_int (INT, [0xf9; 0xff]) (INT, [0; 0]) soft_values =
    (Ok (saturated (- 7)), diagnosed soft_values [] error.DIVISION_BY_ZERO) /\
  mod_ (INT, [0xf9; 0xff]) (INT, [0; 0]) soft_values =
    (Ok (saturated (- 7)), diagnosed soft_values [] error.DIVISION_BY_ZERO).
Proof.
  apply (proj1 (zero_division_policy soft_values (INT, [0xf9; 0xff]) (INT, [0; 0])
                  (- 7) eq_refl eq_refl) []); reflexivity.
Defined.

Lemma round_carry_spec (m : Z) :
  - 127 <= 256 * round_carry m - m <= 128.
Proof.
  unfold round_carry. rewrite land_ff, shiftr_8.
  pose proof (Z.mod_pos_bound m 256 ltac:(lia)).
  pose proof (Z.div_mod m 256 ltac:(lia)).
  destruct (Z.ltb_spec 0x7f (m mod 256)).
  - change (m + 0x100) with (m + 1 * 256). rewrite Z.div_add by lia. lia.
  - lia.
Qed.

Lemma round_to_int_carry (f : fp.Float) :
  fp.round_to_int f =
    let m := if fp.bias (fp.cls f) <? fp.exp f
             then Z.shiftl (fp.man f) (fp.exp f - fp.bias (fp.cls f))
             else Z.shiftr (fp.man f) (fp.bias (fp.cls f) - fp.exp f) in
    if fp.neg f then - round_carry m else round_carry m.
Proof. reflexivity. Qed.

Lemma round_to_int_nearest (f : fp.Float) :
  0 <= fp.man f < 2 ^ (fp.mantissa_bits (fp.cls f) + 8) -> 0 <= fp.exp f ->
  nearest_int f (fp.round_to_int f).
Proof.
  intros Hman Hexp. unfold nearest_int. rewrite round_to_int_carry. cbv zeta.
  set (B := fp.bias (fp.cls f)).
  assert (HB : 128 + fp.mantissa_bits (fp.cls f) = B) by reflexivity.
  pose proof (mantissa_bits_pos (fp.cls f)) as Hmb.
  assert (Hpow : 2 ^ (B + 8) = 256 * 2 ^ B)
    by (rewrite Z.pow_add_r by lia; change (2 ^ 8) with 256; ring).
  assert (HpB : 0 < 2 ^ B) by (apply Z.pow_pos_nonneg; lia).
  unfold fp.scaled, fp.is_zero. rewrite Z.sub_0_r.
  destruct (Z.ltb_spec B (fp.exp f)) as [Hgt|Hle].
  - (* the mantissa is shifted left: no bit is lost *)
    destruct (Z.eqb_spec (fp.exp f) 0); [lia|].
    rewrite Z.shiftl_mul_pow2 by lia.
    set (m := fp.man f * 2 ^ (fp.exp f - B)).
    assert (Hm : fp.man f * 2 ^ fp.exp f = m * 2 ^ B).
    { unfold m. rewrite <- Z.mul_assoc, <- Z.pow_add_r by lia.
      do 2 f_equal. lia. }
    pose proof (round_carry_spec m) as Hr.
    rewrite Hpow.
    destruct (fp.neg f); nia.
  - rewrite Z.shiftr_div_pow2 by lia.
    set (k := B - fp.exp f). set (P := 2 ^ k).
    assert (HP : 0 < P) by (apply Z.pow_pos_nonneg; lia).
    set (m := fp.man f / P).
    pose proof (Z.div_mod (fp.man f) P ltac:(lia)) as Hdm.
    pose proof (Z.mod_pos_bound (fp.man f) P HP) as Hrho.
    fold m in Hdm.
    pose proof (round_carry_spec m) as Hr.
    destruct (Z.eqb_spec (fp.exp f) 0) as [Hz|Hnz].
    + (* zero exponent byte: the value is zero *)
      assert (Hm0 : m = 0).
      { unfold m. apply Z.div_small. split; [lia|].
        apply Z.lt_le_trans with (2 ^ (fp.mantissa_bits (fp.cls f) + 8)); [lia|].
        unfold P, k. apply Z.pow_le_mono_r; lia. }
      rewrite Hm0. change (round_carry 0) with 0.
      destruct (fp.neg f); simpl; lia.
    + set (E := 2 ^ fp.exp f).
      assert (HE : 0 < E) by (apply Z.pow_pos_nonneg; lia).
      assert (HBk : 2 ^ B = P * E).
      { unfold P, E, k. rewrite <- Z.pow_add_r by lia. f_equal. lia. }
      rewrite Hpow, HBk.
      set (d := 256 * round_carry m - m) in *.
      assert (Hd : 256 * round_carry m = m + d) by (unfold d; lia).
      assert (Hcore : 2 * Z.abs (P * d - fp.man f mod P) <= 256 * P) by nia.
      assert (Hfact : round_carry m * (256 * (P * E)) - fp.man f * E
                      = (P * d - fp.man f mod P) * E) by nia.
      destruct (fp.neg f).
      * replace (- round_carry m * (256 * (P * E)) - -1 * fp.man f * E)
          with (- ((P * d - fp.man f mod P) * E)) by lia.
        rewrite Z.abs_opp, Z.abs_mul, (Z.abs_eq E) by lia. nia.
      * replace (round_carry m * (256 * (P * E)) - 1 * fp.man f * E)
          with ((P * d - fp.man f mod P) * E) by lia.
        rewrite Z.abs_mul, (Z.abs_eq E) by lia. nia.
Qed.

Lemma lor_80_bounds (b : Z) : is_byte b -> 128 <= Z.lor b 0x80 < 256.
Proof.
  intros Hb. assert (H : lor_80_ok b = true).
  { apply (zrange_forallb lor_80_ok 0 256); [vm_compute; reflexivity|exact Hb]. }
  apply andb_prop in H as [H1 H2].
  apply Z.leb_le in H1. apply Z.ltb_lt in H2. lia.
Qed.

Lemma unpack_bounds (inp : value) :
  wf_value inp -> fst inp = SNG \/ fst inp = DBL ->
  let f := fp.unpack inp in
  0 <= fp.man f < 2 ^ (fp.mantissa_bits (fp.cls f) + 8) /\ 0 <= fp.exp f <= 255.
Proof.
  destruct inp as [t s]. unfold wf_value. cbn [fst snd].
  intros [Hlen Hall] [-> | ->]; cbn [TYPE_TO_SIZE] in Hlen.
  - destruct s as [|b0 [|b1 [|b2 [|b3 [|? ?]]]]]; cbn [List.length] in Hlen; try lia.
    repeat match goal with
           | H : Forall _ (_ :: _) |- _ => inversion H; subst; clear H
           end.
    unfold fp.unpack, fp.from_bytes. cbn [fst snd fp.cls fp.man fp.exp].
    change (Z.to_nat (fp.byte_size fp.Single - 2)) with 2%nat.
    cbn [nth firstn fp.le_int]. rewrite Z.shiftl_mul_pow2 by lia.
    change (0x100 ^ (fp.byte_size fp.Single - 2)) with 65536.
    change (2 ^ (fp.mantissa_bits fp.Single + 8)) with 4294967296.
    change (2 ^ 8) with 256.
    match goal with |- context [Z.lor ?b 0x80] =>
      pose proof (lor_80_bounds b ltac:(assumption)) end.
    unfold is_byte in *. lia.
  - destruct s as [|b0 [|b1 [|b2 [|b3 [|b4 [|b5 [|b6 [|b7 [|? ?]]]]]]]]];
      cbn [List.length] in Hlen; try lia.
    repeat match goal with
           | H : Forall _ (_ :: _) |- _ => inversion H; subst; clear H
           end.
    unfold fp.unpack, fp.from_bytes. cbn [fst snd fp.cls fp.man fp.exp].
    change (Z.to_nat (fp.byte_size fp.Double - 2)) with 6%nat.
    cbn [nth firstn fp.le_int]. rewrite Z.shiftl_mul_pow2 by lia.
    change (0x100 ^ (fp.byte_size fp.Double - 2)) with 281474976710656.
    change (2 ^ (fp.mantissa_bits fp.Double + 8)) with 18446744073709551616.
    change (2 ^ 8) with 256.
    match goal with |- context [Z.lor ?b 0x80] =>
      pose proof (lor_80_bounds b ltac:(assumption)) end.
    unfold is_byte in *. lia.
Qed.

(** ** [to_integer] with the unsigned flag *)

(** The Single -1.0 rounds to -1, outside [0, 65535], and converts with
    the unsigned flag set. *)
Example to_integer_unsigned_minus_one :
  fp.round_to_int (fp.unpack (SNG, [0; 0; 0x80; 0x81])) = - 1 /\
  to_integer (SNG, [0; 0; 0x80; 0x81]) true = Ok (INT, [0xff; 0xff]) /\
  to_integer (SNG, [0; 0; 0x80; 0x81]) true <> Raise (RunError error.OVERFLOW).
Proof. repeat split; try reflexivity. discriminate. Qed.

(** C4, amended: with the unsigned flag set, an Integer operand is returned
    as it is; a float operand is rounded to a nearest integer, and the call
    fails with Overflow exactly when the rounded value lies outside
    [-32768, 65535]; within that range it succeeds, and the Integer
    returned reads, unsigned, as the rounded value modulo 2^16. *)
Theorem to_integer_unsigned_range (inp : value) :
  wf_value inp ->
  (fst inp = INT -> to_integer inp true = Ok inp) /\
  (fst inp = SNG \/ fst inp = DBL ->
   let val := fp.round_to_int (fp.unpack inp) in
   nearest_int (fp.unpack inp) val /\
   (val < - 32768 \/ 65535 < val <->
    to_integer inp true = Raise (RunError error.OVERFLOW)) /\
   (- 32768 <= val <= 65535 ->
    exists v, to_integer inp true = Ok v /\ fst v = INT /\ wf_value v /\
              integer_to_int v true = Ok (val mod 65536))).
Proof.
  intros Hwf. split.
  - intros Ht. unfold to_integer. now rewrite Ht.
  - intros Ht val.
    destruct (unpack_bounds inp Hwf Ht) as [Hman Hexp].
    assert (Hto : to_integer inp true =
                  if (val >? 0xffff) || (val <? - 0x8000)
                  then Raise (RunError error.OVERFLOW)
                  else int_to_integer val true).
    { unfold to_integer. destruct Ht as [-> | ->]; reflexivity. }
    split; [apply round_to_int_nearest; lia|].
    rewrite Hto.
    destruct (Z.gtb_spec val 0xffff); destruct (Z.ltb_spec val (- 0x8000));
      cbn [orb]; split.
    all: try (split; [reflexivity | lia]).
    all: try (intros; lia).
    + split; [lia|]. intros H1.
      destruct (int_to_integer_unsigned_ok val) as (v & Hv & _); [lia|].
      rewrite Hv in H1. discriminate.
    + intros Hr. apply int_to_integer_unsigned_ok. lia.
Qed.

Lemma to_integer_unsigned_range_witness :
  exists v, to_integer (SNG, [0; 0; 0x80; 0x81]) true = Ok v /\ fst v = INT /\
            wf_value v /\ integer_to_int v true = Ok ((- 1) mod 65536).
Proof.
  destruct (to_integer_unsigned_range (SNG, [0; 0; 0x80; 0x81]) wf_single_minus_1)
    as [_ H].
  destruct (H (or_introl eq_refl)) as (_ & _ & Hok).
  apply Hok. vm_compute. split; discriminate.
Defined.

(** ** String ordering *)

Lemma lex_lt_cons (a : Z) (l r : list Z) : lex_lt l r -> lex_lt (a :: l) (a :: r).
Proof.
  intros H. destruct H as [l x r | p x y l r Hxy].
  - apply (lex_lt_prefix (a :: l)).
  - apply (lex_lt_differ (a :: p)). assumption.
Qed.

Lemma lex_lt_inv (a b : Z) (l r : list Z) :
  lex_lt (a :: l) (b :: r) -> a < b \/ (a = b /\ lex_lt l r).
Proof.
  intros H. inversion H as [l0 x r0 Hl Hr | p x y l0 r0 Hxy Hl Hr].
  - right. split; [reflexivity|]. apply lex_lt_prefix.
  - destruct p as [|c p]; simpl in *.
    + injection Hl as <- <-. injection Hr as <- <-. now left.
    + injection Hl as <- <-. injection Hr as <- <-. right. split; [reflexivity|].
      now apply lex_lt_differ.
Qed.

Lemma lex_lt_nil_r (l : list Z) : ~ lex_lt l [].
Proof.
  intros H. inversion H as [l0 x r0 Hl Hr | p x y l0 r0 Hxy Hl Hr].
  - destruct l; discriminate.
  - destruct p; discriminate.
Qed.

(** The scan from index [i] is the scan of the two suffixes from 0. *)
Lemma gt_scan_shift (n i : nat) (a b : Z) (left right : list Z) :
  gt_scan n (S i) (a :: left) (b :: right) = gt_scan n i left right.
Proof.
  revert i; induction n as [|n IH]; intros i; [reflexivity|].
  cbn [gt_scan nth]. now rewrite IH.
Qed.

Lemma str_gt_cons (a b : Z) (left right : list Z) :
  str_gt (a :: left) (b :: right) =
    if b <? a then true else if a <? b then false else str_gt left right.
Proof.
  unfold str_gt. cbn [List.length Nat.min gt_scan nth].
  destruct (b <? a); [reflexivity|]. destruct (a <? b); [reflexivity|].
  rewrite gt_scan_shift. reflexivity.
Qed.

Lemma str_gt_lex (left right : list Z) :
  str_gt left right = true <-> lex_lt right left.
Proof.
  revert right; induction left as [|a left IH]; intros right.
  - split; [|intros H; now apply lex_lt_nil_r in H].
    destruct right; discriminate.
  - destruct right as [|b right].
    + split; [intros _; apply (lex_lt_prefix [])|reflexivity].
    + rewrite str_gt_cons. split.
      * destruct (Z.ltb_spec b a) as [Hlt|Hge].
        { intros _. now apply (lex_lt_differ []). }
        destruct (Z.ltb_spec a b) as [Hlt|Hge']; [discriminate|].
        assert (a = b) by lia. subst b. intros H. apply lex_lt_cons.
        now apply IH.
      * intros H. apply lex_lt_inv in H as [Hlt | [-> H]].
        { destruct (Z.ltb_spec b a); [reflexivity|lia]. }
        rewrite Z.ltb_irrefl. now apply IH.
Qed.

Lemma str_eq_spec (left right : list Z) : str_eq left right = true <-> left = right.
Proof.
  revert right; induction left as [|a left IH]; intros [|b right]; simpl;
    try (split; [discriminate|congruence]); [tauto|].
  rewrite andb_true_iff, Z.eqb_eq, IH. split; [intros [-> ->]|intros [= -> ->]]; auto.
Qed.

Lemma lex_lt_irrefl (l : list Z) : ~ lex_lt l l.
Proof.
  induction l as [|a l IH]; [apply lex_lt_nil_r|].
  intros H. apply lex_lt_inv in H as [H | [_ H]]; [lia|auto].
Qed.

Section StringComparison.

Variable self : Values.
Variables left right : value.
Hypothesis left_is_string : fst left = STR.
Hypothesis right_is_string : fst right = STR.

Let l : list Z := copy (_strings self) left.
Let r : list Z := copy (_strings self) right.

Lemma bool_gt_strings : bool_gt left right self = (Ok (str_gt l r), self).
Proof.
  unfold bool_gt, lift, pass_string.
  now rewrite left_is_string, right_is_string.
Qed.

Lemma bool_eq_strings : _bool_eq left right self = (Ok (str_eq l r), self).
Proof.
  unfold _bool_eq, lift, pass_string.
  now rewrite left_is_string, right_is_string.
Qed.

End StringComparison.

(** C9: string comparison is lexicographic on the bytes of the strings:
    the greater string is decided at the first differing byte, a proper
    prefix is less than its extension ("AB" < "ABC" < "AC"), and strings
    equal byte for byte compare equal. *)
Theorem string_comparison_lexicographic (self : Values) (left right : value) :
  fst left = STR -> fst right = STR ->
  let l := copy (_strings self) left in
  let r := copy (_strings self) right in
  (exists g, bool_gt left right self = (Ok g, self) /\ (g = true <-> lex_lt r l)) /\
  (exists e, _bool_eq left right self = (Ok e, self) /\ (e = true <-> l = r)) /\
  (forall x s, r = l ++ x :: s ->
     lt left right self = (Ok (from_bool true), self) /\
     gt left right self = (Ok (from_bool false), self)) /\
  (l = r ->
     equals left right self = (Ok (from_bool true), self) /\
     lt left right self = (Ok (from_bool false), self) /\
     gt left right self = (Ok (from_bool false), self)) /\
  (l = [65; 66] -> r = [65; 66; 67] ->
     lt left right self = (Ok (from_bool true), self)) /\
  (l = [65; 66; 67] -> r = [65; 67] ->
     lt left right self = (Ok (from_bool true), self)).
Proof.
  intros Hl Hr l r.
  assert (Hgt : gt left right self = (Ok (from_bool (str_gt l r)), self)).
  { unfold gt, bind, ret. now rewrite bool_gt_strings. }
  assert (Hlt : lt left right self = (Ok (from_bool (str_gt r l)), self)).
  { unfold lt, bind, ret. now rewrite bool_gt_strings. }
  assert (Heq : equals left right self = (Ok (from_bool (str_eq l r)), self)).
  { unfold equals, bind, ret. now rewrite bool_eq_strings. }
  rewrite Hgt, Hlt, Heq.
  split; [|split; [|split; [|split; [|split]]]].
  - exists (str_gt l r). split; [now apply bool_gt_strings|apply str_gt_lex].
  - exists (str_eq l r). split; [now apply bool_eq_strings|apply str_eq_spec].
  - intros x s E.
    assert (Hlex : lex_lt l r) by (rewrite E; apply lex_lt_prefix).
    apply str_gt_lex in Hlex. rewrite Hlex. split; [reflexivity|].
    destruct (str_gt l r) eqn:G; [|reflexivity].
    apply str_gt_lex in G. rewrite E in G. exfalso.
    clear - G. induction l as [|a l IH]; simpl in G.
    + now apply lex_lt_nil_r in G.
    + apply lex_lt_inv in G as [G | [_ G]]; [lia|auto].
  - intros E. rewrite <- E.
    replace (str_eq l l) with true by (symmetry; now apply str_eq_spec).
    replace (str_gt l l) with false; [auto|].
    destruct (str_gt l l) eqn:G; [|reflexivity].
    apply str_gt_lex in G. now apply lex_lt_irrefl in G.
  - intros -> ->. reflexivity.
  - intros -> ->. reflexivity.
Qed.

Lemma string_comparison_lexicographic_witness :
  lt (STR, [2; 0; 0]) (STR, [3; 2; 0]) string_space_AB
    = (Ok (from_bool true), string_space_AB).
Proof.
  destruct (string_comparison_lexicographic string_space_AB
              (STR, [2; 0; 0]) (STR, [3; 2; 0]) eq_refl eq_refl)
    as (_ & _ & _ & _ & H & _).
  apply H; reflexivity.
Defined.

(** ** Faults of the formatter *)

Create HintDb nre discriminated.

Lemma nre_ok {A} (a : A) : no_run_error (Ok a).
Proof. intros c; discriminate. Qed.

Lemma nre_bind {A B} (c : result A) (k : A -> result B) :
  no_run_error c -> (forall a, no_run_error (k a)) -> no_run_error (rbind c k).
Proof.
  intros Hc Hk. destruct c as [a|e]; cbn [rbind]; [apply Hk|].
  intros x H. injection H as ->. now apply (Hc x).
Qed.

Lemma nre_if {A} (b : bool) (x y : result A) :
  no_run_error x -> no_run_error y -> no_run_error (if b then x else y).
Proof. now destruct b. Qed.

Lemma nre_raise_overflow {A} a : no_run_error (A := A) (Raise (OverflowError a)).
Proof. intros c; discriminate. Qed.

Lemma nre_raise_zero_division {A} a :
  no_run_error (A := A) (Raise (ZeroDivisionError a)).
Proof. intros c; discriminate. Qed.

Lemma nre_raise_value {A} : no_run_error (A := A) (Raise ValueError).
Proof. intros c; discriminate. Qed.

Lemma nre_raise_index {A} : no_run_error (A := A) (Raise IndexError).
Proof. intros c; discriminate. Qed.

Lemma nre_raise_fuel {A} : no_run_error (A := A) (Raise OutOfFuel).
Proof. intros c; discriminate. Qed.

#[local] Hint Resolve nre_ok nre_raise_overflow nre_raise_zero_division
  nre_raise_value nre_raise_index nre_raise_fuel : nre.

Ltac nre_step :=
  match goal with
  | |- no_run_error (rbind _ _) => apply nre_bind; [|intros ?]
  | |- no_run_error (if _ then _ else _) => apply nre_if
  | |- no_run_error (match ?x with _ => _ end) => destruct x
  | |- no_run_error (let '(_, _) := ?x in _) => destruct x
  end.

Ltac nre := repeat nre_step; eauto with nre.

Lemma nre_normalise f : no_run_error (fp.normalise f).
Proof. unfold fp.normalise. nre. Qed.
#[local] Hint Resolve nre_normalise : nre.

Lemma nre_imul10 f : no_run_error (fp.imul10 f).
Proof. unfold fp.imul10. nre. Qed.

Lemma nre_idiv10 f : no_run_error (fp.idiv10 f).
Proof. unfold fp.idiv10. nre. Qed.

Lemma nre_mul a b : no_run_error (fp.mul a b).
Proof. unfold fp.mul. nre. Qed.

Lemma nre_div a b : no_run_error (fp.div a b).
Proof. unfold fp.div. nre. Qed.

Lemma nre_iround f : no_run_error (fp.iround f).
Proof. unfold fp.iround. nre. Qed.
#[local] Hint Resolve nre_imul10 nre_idiv10 nre_mul nre_div nre_iround : nre.

Lemma nre_pow_nat b n : no_run_error (fp.pow_nat b n).
Proof. induction n; cbn [fp.pow_nat]; nre. Qed.
#[local] Hint Resolve nre_pow_nat : nre.

Lemma nre_pow_int b n : no_run_error (fp.pow_int b n).
Proof. unfold fp.pow_int. nre. Qed.

Lemma nre_chr n : no_run_error (chr n).
Proof. unfold chr. nre. Qed.

Lemma nre_getitem {A} (s : list A) i : no_run_error (getitem s i).
Proof. unfold getitem. nre. Qed.
#[local] Hint Resolve nre_pow_int nre_chr nre_getitem : nre.

Lemma nre_count_digit fuel : forall num pow10 digit,
  no_run_error (count_digit fuel num pow10 digit).
Proof. induction fuel; intros; cbn [count_digit]; nre. Qed.
#[local] Hint Resolve nre_count_digit : nre.

Lemma nre_digits_loop n : forall num pow10, no_run_error (digits_loop n num pow10).
Proof. induction n; intros; cbn [digits_loop]; nre. Qed.
#[local] Hint Resolve nre_digits_loop : nre.

Lemma nre_get_digits num digits rt : no_run_error (_get_digits num digits rt).
Proof. unfold _get_digits. nre. Qed.
#[local] Hint Resolve nre_get_digits : nre.

Lemma nre_scientific_notation ds e s d f :
  no_run_error (_scientific_notation ds e s d f).
Proof. unfold _scientific_notation. nre. Qed.
#[local] Hint Resolve nre_scientific_notation : nre.

Lemma nre_div_to_top fuel : forall f t e, no_run_error (fpr.div_to_top fuel f t e).
Proof. induction fuel; intros; cbn [fpr.div_to_top]; nre. Qed.

Lemma nre_mul_to_bot fuel : forall f t e, no_run_error (fpr.mul_to_bot fuel f t e).
Proof. induction fuel; intros; cbn [fpr.mul_to_bot]; nre. Qed.
#[local] Hint Resolve nre_div_to_top nre_mul_to_bot : nre.

Lemma nre_bring_to_range f b t : no_run_error (fpr.bring_to_range f b t).
Proof. unfold fpr.bring_to_range. nre. Qed.
#[local] Hint Resolve nre_bring_to_range : nre.

Lemma nre_format_float_scientific e b d f :
  no_run_error (_format_float_scientific e b d f).
Proof. unfold _format_float_scientific. nre. Qed.

Lemma nre_find_exponent fuel : forall n p e, no_run_error (find_exponent fuel n p e).
Proof. induction fuel; intros; cbn [find_exponent]; nre. Qed.
#[local] Hint Resolve nre_find_exponent nre_format_float_scientific : nre.

Lemma nre_format_float_fixed e d f : no_run_error (_format_float_fixed e d f).
Proof. unfold _format_float_fixed. nre. Qed.
#[local] Hint Resolve nre_format_float_fixed : nre.

Lemma nre_format_number_valstr v t b d :
  no_run_error (format_number_valstr v t b d).
Proof. unfold format_number_valstr. nre. Qed.

(** ** [format_number]: the digit budget *)

(** With 25 digits asked for, the fault raised is Illegal Function Call
    itself. *)
Example format_number_too_many_digits :
  format_number (SNG, [0; 0; 0x60; 0x83]) (str "##") 25 0
    = Raise (RunError error.IFC) /\
  error.message error.IFC = "Illegal function call"%string.
Proof. split; reflexivity. Qed.

(** C8, amended: format_number fails with Illegal Function Call whenever
    digits-before-point plus decimals exceeds 24, before anything is
    rendered; for sums of 24 or less it raises no BASIC error at all. *)
Theorem format_number_digit_budget
  (value : value) (tokens : list ascii) (digits_before decimals : Z) :
  (24 < digits_before + decimals ->
   format_number value tokens digits_before decimals = Raise (RunError error.IFC)) /\
  (digits_before + decimals <= 24 ->
   forall c, format_number value tokens digits_before decimals <> Raise (RunError c)).
Proof.
  unfold format_number. split; intros H.
  - destruct (Z.ltb_spec 24 (digits_before + decimals)); [reflexivity|lia].
  - destruct (Z.ltb_spec 24 (digits_before + decimals)); [lia|].
    intros c. pose proof (nre_format_number_valstr value tokens digits_before decimals) as Hn.
    destruct (format_number_valstr value tokens digits_before decimals) as [s|e];
      cbn [rbind].
    + destruct (len tokens <? len s); discriminate.
    + apply Hn.
Qed.

Lemma format_number_digit_budget_witness :
  format_number (SNG, [0; 0; 0x60; 0x83]) (str "##") 25 0
    = Raise (RunError error.IFC).
Proof.
  apply (format_number_digit_budget (SNG, [0; 0; 0x60; 0x83]) (str "##") 25 0).
  lia.
Defined.

(** ** [format_number]: the width of the template *)

(** C7: with a two-position template, no decimals and no flags, 7 is
    rendered as " 7" and 123 as "%123"; whenever the rendered text is
    longer than the template it is returned behind a '%', not truncated,
    and otherwise it is padded on the left with the filler to the width of
    the template. *)
Theorem format_number_template_width :
  format_number single_7 (str "##") 2 0 = Ok (str " 7") /\
  format_number single_123 (str "##") 2 0 = Ok (str "%123") /\
  format_number double_7 (str "##") 2 0 = Ok (str " 7") /\
  format_number double_123 (str "##") 2 0 = Ok (str "%123") /\
  forall (value : value) (tokens valstr : list ascii) (digits_before decimals : Z),
    digits_before + decimals <= 24 ->
    format_number_valstr value tokens digits_before decimals = Ok valstr ->
    (len tokens < len valstr ->
     format_number value tokens digits_before decimals = Ok ("%"%char :: valstr)) /\
    (len valstr <= len tokens ->
     exists pad,
       format_number value tokens digits_before decimals = Ok (pad ++ valstr) /\
       Forall (eq (filler tokens)) pad /\
       len (pad ++ valstr) = len tokens).
Proof.
  split; [vm_compute; reflexivity|].
  split; [vm_compute; reflexivity|].
  split; [vm_compute; reflexivity|].
  split; [vm_compute; reflexivity|].
  intros value tokens valstr digits_before decimals H H0. split.
  - intros Hlong. unfold format_number.
    destruct (Z.ltb_spec 24 (digits_before + decimals)); [lia|].
    rewrite H0. cbn [rbind].
    destruct (Z.ltb_spec (len tokens) (len valstr)); [reflexivity|lia].
  - intros Hfit. unfold format_number.
    destruct (Z.ltb_spec 24 (digits_before + decimals)); [lia|].
    rewrite H0. cbn [rbind].
    destruct (Z.ltb_spec (len tokens) (len valstr)); [lia|].
    eexists; split; [reflexivity|]. split.
    + unfold times, filler. apply Forall_forall. intros x Hx.
      now apply repeat_spec in Hx.
    + unfold len, times in *. rewrite length_app, repeat_length. lia.
Qed.

Lemma format_number_template_width_witness :
  exists pad,
    format_number single_7 (str "###") 3 0 = Ok (pad ++ str "7") /\
    Forall (eq (filler (str "###"))) pad /\
    len (pad ++ str "7") = len (str "###").
Proof.
  destruct format_number_template_width as (_ & _ & _ & _ & H).
  destruct (H single_7 (str "###") (str "7") 3 0) as [_ Hfit].
  - lia.
  - vm_compute. reflexivity.
  - apply Hfit. vm_compute. discriminate.
Defined.

(** ** Decimal literals *)

(** ** Scanning the text of a literal *)

Lemma digit_cases (d : ascii) :
  is_digit d = true -> In d (str "0123456789").
Proof.
  destruct d as [[] [] [] [] [] [] [] []]; intros H; try discriminate H;
    simpl; tauto.
Qed.

Ltac each_digit d H :=
  apply digit_cases in H; simpl in H;
  repeat (destruct H as [<- | H]; [|]); [..|contradiction].

Lemma scan_digit (d : ascii) (rest : list ascii) (p : nat) (st : scan_state) :
  is_digit d = true -> scan (d :: rest) p st = scan rest (S p) (push d st).
Proof. intros H. each_digit d H; reflexivity. Qed.

Lemma pushes_nil st : pushes [] st = st.
Proof. destruct st; unfold pushes; simpl. now rewrite app_nil_r. Qed.

Lemma pushes_cons c ds st : pushes (c :: ds) st = pushes ds (push c st).
Proof. unfold pushes, push; simpl. now rewrite <- app_assoc. Qed.

Lemma scan_digits (ds : list ascii) : forall rest p st,
  forallb is_digit ds = true ->
  scan (ds ++ rest) p st = scan rest (List.length ds + p) (pushes ds st).
Proof.
  induction ds as [|d ds IH]; intros rest p st H.
  - now rewrite pushes_nil.
  - cbn [forallb] in H. apply andb_prop in H as [Hd Hds].
    cbn [app]. rewrite scan_digit, IH, pushes_cons by assumption.
    f_equal. simpl. lia.
Qed.

Lemma sign_cases (c : ascii) : is_sign c = true -> c = "+"%char \/ c = "-"%char.
Proof.
  unfold is_sign, char_in, str. cbn [list_ascii_of_string existsb].
  rewrite !orb_true_iff, !Ascii.eqb_eq. intros [H | [H | H]]; auto; discriminate.
Qed.

Lemma marker_cases (c : ascii) :
  char_in c (str "EDed") = true ->
  c = "E"%char \/ c = "D"%char \/ c = "e"%char \/ c = "d"%char.
Proof.
  unfold char_in, str. cbn [list_ascii_of_string existsb].
  rewrite !orb_true_iff, !Ascii.eqb_eq.
  intros [H | [H | [H | [H | H]]]]; auto; discriminate.
Qed.

Lemma suffix_cases (c : ascii) :
  char_in c (str "!#") = true -> c = "!"%char \/ c = "#"%char.
Proof.
  unfold char_in, str. cbn [list_ascii_of_string existsb].
  rewrite !orb_true_iff, !Ascii.eqb_eq. intros [H | [H | H]]; auto; discriminate.
Qed.

Lemma scan_sign (c : ascii) (rest : list ascii) (p : nat) (st : scan_state) :
  is_sign c = true -> first_or_after_exp (word st) = true ->
  scan (c :: rest) p st = scan rest (S p) (push c st).
Proof.
  intros Hc Hw. destruct (sign_cases c Hc) as [-> | ->];
    cbn -[first_or_after_exp push scan]; unfold scan; fold scan;
    cbn -[first_or_after_exp push scan]; rewrite Hw; reflexivity.
Qed.

Lemma scan_opt_sign (s : option ascii) (rest : list ascii) (p : nat) (st : scan_state) :
  sign_ok s = true -> first_or_after_exp (word st) = true ->
  scan (opt_char s ++ rest) p st =
    scan rest (List.length (opt_char s) + p) (pushes (opt_char s) st).
Proof.
  intros Hs Hw. destruct s as [c|]; cbn [opt_char app List.length].
  - rewrite scan_sign by assumption. now rewrite pushes_cons, pushes_nil.
  - now rewrite pushes_nil.
Qed.

Lemma scan_point (rest : list ascii) (p : nat) (st : scan_state) :
  have_point st = false -> have_exp st = false ->
  scan ("."%char :: rest) p st =
    scan rest (S p) {| have_exp := false; have_point := true;
                       word := word st ++ ["."%char]; kill := kill st |}.
Proof.
  intros Hp He. unfold scan; fold scan. cbn -[scan]. rewrite Hp, He. reflexivity.
Qed.

Lemma scan_suffix (c : ascii) (rest : list ascii) (p : nat) (st : scan_state) :
  char_in c (str "!#") = true -> have_exp st = false ->
  scan (c :: rest) p st = (push c st, S p).
Proof.
  intros Hc He. destruct (suffix_cases c Hc) as [-> | ->];
    unfold scan; fold scan; cbn -[scan push]; rewrite He; reflexivity.
Qed.

(** The character after an exponent marker is a sign or a digit, if any:
    never the L or Q of a keyword. *)
Lemma scan_marker (m : ascii) (s : option ascii) (ds rest : list ascii)
  (p : nat) (st : scan_state) :
  char_in m (str "EDed") = true -> sign_ok s = true ->
  forallb is_digit ds = true ->
  match rest with [] => True | c :: _ => c = "%"%char end ->
  have_exp st = false ->
  scan (m :: opt_char s ++ ds ++ rest) p st =
    scan (opt_char s ++ ds ++ rest) (S p)
         {| have_exp := true; have_point := have_point st;
            word := word st ++ [upper m]; kill := kill st |}.
Proof.
  intros Hm Hs Hds Hrest He.
  assert (Hnext : match opt_char s ++ ds ++ rest with
                  | n :: _ => char_in (upper n) (str "LQ")
                  | [] => false
                  end = false).
  { destruct s as [c|]; cbn [opt_char app].
    - destruct (sign_cases c Hs) as [-> | ->]; reflexivity.
    - destruct ds as [|d ds]; cbn [app].
      + destruct rest as [|c rest]; [reflexivity|]. now subst c.
      + cbn [forallb] in Hds. apply andb_prop in Hds as [Hd _].
        each_digit d Hd; reflexivity. }
  cbn -[scan opt_char app] in Hnext.
  destruct (marker_cases m Hm) as [-> | [-> | [-> | ->]]];
    unfold scan; fold scan; cbn -[scan opt_char app]; rewrite He;
    cbn -[scan opt_char app]; try rewrite Hnext; reflexivity.
Qed.

Lemma scan_percent (p : nat) (st : scan_state) :
  scan ["%"%char] p st = (st, S p).
Proof. reflexivity. Qed.

Lemma first_or_after_exp_marker (w : list ascii) (m : ascii) :
  char_in m (str "EDed") = true -> first_or_after_exp (w ++ [upper m]) = true.
Proof.
  intros Hm. unfold first_or_after_exp.
  destruct (w ++ [upper m]) eqn:E; [reflexivity|]. rewrite <- E, last_last.
  destruct (marker_cases m Hm) as [-> | [-> | [-> | ->]]]; reflexivity.
Qed.

Lemma scan_tail (t : literal_tail) (pc : bool) (p : nat) (st : scan_state) :
  tail_ok t = true -> have_exp st = false ->
  (negb pc || match t with Suffix _ => false | _ => true end) = true ->
  scan (render_tail t ++ percent_text pc) p st =
    ({| have_exp := match t with Exponent _ _ _ => true | _ => false end;
        have_point := have_point st;
        word := word st ++ render_tail (upper_tail t); kill := kill st |},
     (List.length (render_tail t ++ percent_text pc) + p)%nat).
Proof.
  intros Ht He Hpc. destruct t as [|m s ds|c]; cbn [render_tail tail_ok upper_tail] in *.
  - destruct st as [he hp w k]; cbn in *. subst. rewrite app_nil_r.
    destruct pc; reflexivity.
  - apply andb_prop in Ht as [Ht Hds]. apply andb_prop in Ht as [Hm Hs].
    cbn [app]. rewrite <- app_assoc.
    rewrite scan_marker; try assumption; [|now destruct pc].
    rewrite scan_opt_sign;
      [|assumption|cbn [word]; now apply first_or_after_exp_marker].
    rewrite scan_digits by assumption.
    unfold pushes. cbn [have_exp have_point word kill List.length].
    rewrite <- !app_assoc. cbn [app].
    destruct pc; cbn [percent_text]; [rewrite scan_percent|cbn [scan]];
      f_equal; rewrite !length_app; cbn [List.length]; lia.
  - rewrite orb_false_r in Hpc. apply negb_true_iff in Hpc. subst pc.
    cbn [percent_text app].
    rewrite scan_suffix by assumption. unfold push. rewrite He. f_equal.
Qed.

Lemma scan_render (L : literal) :
  wf_literal L = true ->
  scan (render L) 0 scan_init =
    ({| have_exp := has_exponent L; have_point := l_point L;
        word := accumulated L; kill := false |}, List.length (render L)).
Proof.
  destruct L as [s i pt f t pc].
  unfold wf_literal, render, accumulated, render_mantissa, has_exponent.
  cbn [l_sign l_int l_point l_frac l_tail l_percent].
  intros H. apply andb_prop in H as [H Hpc]. apply andb_prop in H as [H _].
  apply andb_prop in H as [H Ht].
  apply andb_prop in H as [H _]. apply andb_prop in H as [H Hf].
  apply andb_prop in H as [Hs Hi].
  fold (percent_text pc). rewrite <- !app_assoc.
  rewrite scan_opt_sign by (assumption || reflexivity).
  rewrite scan_digits by assumption.
  destruct pt.
  - cbn [app]. rewrite scan_point by reflexivity.
    rewrite scan_digits by assumption.
    rewrite scan_tail by (assumption || reflexivity).
    cbn [pushes have_exp have_point word kill scan_init app].
    rewrite <- !app_assoc. cbn [app]. f_equal.
    rewrite !length_app. cbn [List.length]. rewrite !length_app. lia.
  - cbn [app]. rewrite scan_tail by (assumption || reflexivity).
    cbn [pushes have_exp have_point word kill scan_init app].
    rewrite <- !app_assoc. f_equal. rewrite !length_app. lia.
Qed.

(** ** Counting significant digits *)

Lemma drop_zeros_snoc (l : list ascii) (d : ascii) :
  drop_zeros (l ++ [d]) =
    if nonzero l then drop_zeros l ++ [d]
    else if is_zero_digit d then [] else [d].
Proof.
  unfold nonzero. induction l as [|c l IH]; cbn [app drop_zeros forallb].
  - reflexivity.
  - destruct (is_zero_digit c); cbn [andb negb]; [exact IH|reflexivity].
Qed.

Lemma nonzero_snoc (l : list ascii) (d : ascii) :
  nonzero (l ++ [d]) = nonzero l || negb (is_zero_digit d).
Proof.
  unfold nonzero. rewrite forallb_app. cbn [forallb].
  rewrite andb_true_r, negb_andb. reflexivity.
Qed.

Lemma drop_zeros_nil_iff (l : list ascii) : drop_zeros l = [] <-> nonzero l = false.
Proof.
  unfold nonzero. induction l as [|c l IH]; cbn [drop_zeros forallb].
  - tauto.
  - destruct (is_zero_digit c); cbn [andb negb]; [exact IH|].
    split; discriminate.
Qed.

Lemma strip_trailing_zeros_snoc (l : list ascii) (d : ascii) :
  strip_trailing_zeros (l ++ [d]) =
    if is_zero_digit d then strip_trailing_zeros l else l ++ [d].
Proof.
  unfold strip_trailing_zeros. rewrite rev_app_distr. cbn [rev app drop_zeros].
  destruct (is_zero_digit d); [reflexivity|].
  cbn [rev]. now rewrite rev_involutive.
Qed.

Lemma trailing_zeros_snoc (l : list ascii) (d : ascii) :
  trailing_zeros (l ++ [d]) = if is_zero_digit d then trailing_zeros l + 1 else 0.
Proof.
  unfold trailing_zeros. rewrite strip_trailing_zeros_snoc.
  destruct (is_zero_digit d); unfold len; rewrite length_app; cbn [List.length]; lia.
Qed.

(** The count kept by the parser, against the significant digits. *)
Lemma significant_count (int frac : list ascii) :
  len (drop_zeros (int ++ frac))
    - (if nonzero (int ++ frac) then trailing_zeros frac else 0)
  = len (drop_zeros (int ++ strip_trailing_zeros frac)).
Proof.
  induction frac as [|d frac IH] using rev_ind.
  - cbn. rewrite app_nil_r. destruct (nonzero int); unfold trailing_zeros; cbn; lia.
  - rewrite strip_trailing_zeros_snoc, trailing_zeros_snoc, app_assoc.
    rewrite nonzero_snoc, drop_zeros_snoc.
    destruct (is_zero_digit d) eqn:Hd; cbn [negb].
    + rewrite orb_false_r. rewrite <- IH.
      destruct (nonzero (int ++ frac)) eqn:Hnz.
      * unfold len. rewrite length_app. cbn [List.length]. lia.
      * apply drop_zeros_nil_iff in Hnz. rewrite Hnz. cbn. lia.
    + rewrite orb_true_r, (app_assoc int frac [d]), drop_zeros_snoc, Hd. lia.
Qed.

(** ** The value of digits *)

Lemma digit_value_range (d : ascii) :
  is_digit d = true ->
  0 <= ord d - 48 <= 9 /\ (ord d - 48 = 0 <-> is_zero_digit d = true).
Proof. intros H. each_digit d H; cbn; split; try lia; split; (discriminate || reflexivity). Qed.

Lemma digits_value_snoc (l : list ascii) (d : ascii) :
  digits_value (l ++ [d]) = digits_value l * 10 + (ord d - 48).
Proof. unfold digits_value. now rewrite fold_left_app. Qed.

Lemma digits_value_zero (l : list ascii) :
  forallb is_digit l = true ->
  0 <= digits_value l /\ (digits_value l = 0 <-> nonzero l = false).
Proof.
  induction l as [|d l IH] using rev_ind; intros H.
  - cbn. split; [lia|tauto].
  - rewrite forallb_app in H. apply andb_prop in H as [Hl Hd].
    cbn [forallb] in Hd. rewrite andb_true_r in Hd.
    destruct (IH Hl) as [Hpos Hz].
    destruct (digit_value_range d Hd) as [Hr Hzd].
    rewrite digits_value_snoc, nonzero_snoc. split; [lia|].
    rewrite orb_false_iff, negb_false_iff, <- Hz, <- Hzd. lia.
Qed.

(** ** The parser on the text of a literal *)

Lemma parse_digit (d : ascii) (st : parse_state) :
  is_digit d = true -> found_exp st = false ->
  parse_char d st = (digit_update d st, true).
Proof.
  intros Hd He. destruct st as [fs ? ? ? ? ? ? ? ? ? ? ? ?]. cbn in He. subst.
  each_digit d Hd; destruct fs; reflexivity.
Qed.

Lemma counters_digit (int frac : list ascii) (d : ascii) (st : parse_state) :
  counters_ok int frac st ->
  forallb is_digit (int ++ frac) = true -> is_digit d = true ->
  (found_point st = false -> frac = []) ->
  counters_ok (if found_point st then int else int ++ [d])
              (if found_point st then frac ++ [d] else [])
              (digit_update d st) /\
  found_point (digit_update d st) = found_point st.
Proof.
  intros [Hm Hdg Hz He Hdb Hsg] Hall Hd Hpt. split; [|reflexivity].
  assert (Hall' : forallb is_digit ((int ++ frac) ++ [d]) = true).
  { rewrite forallb_app, Hall. cbn. now rewrite Hd. }
  destruct (digits_value_zero _ Hall') as [_ Hzero].
  assert (Hlist : (if found_point st then int else int ++ [d]) ++
                  (if found_point st then frac ++ [d] else [])
                  = (int ++ frac) ++ [d]).
  { destruct (found_point st).
    - now rewrite app_assoc.
    - rewrite (Hpt eq_refl). now rewrite !app_nil_r. }
  assert (Hmant : mantissa st * 10 + (ord d - 48)
                  = digits_value ((int ++ frac) ++ [d])).
  { now rewrite digits_value_snoc, Hm. }
  assert (Htz : (if found_point st then trailing_zeros (frac ++ [d]) else 0)
                = if found_point st && is_zero_digit d
                  then trailing_zeros frac + 1 else 0).
  { destruct (found_point st); cbn [andb]; [apply trailing_zeros_snoc|reflexivity]. }
  constructor; rewrite ?Hlist; try assumption.
  - cbn [digit_update digits]. rewrite Hmant.
    rewrite drop_zeros_snoc, Hdg.
    destruct (Z.eqb_spec (digits_value ((int ++ frac) ++ [d])) 0) as [E|E].
    + apply Hzero in E. rewrite nonzero_snoc in E.
      apply orb_false_iff in E as [E1 E2]. apply negb_false_iff in E2.
      rewrite E1, E2. apply drop_zeros_nil_iff in E1. now rewrite E1.
    + assert (E' : nonzero ((int ++ frac) ++ [d]) = true).
      { destruct (nonzero ((int ++ frac) ++ [d])); [reflexivity|].
        exfalso. apply E. now apply Hzero. }
      rewrite nonzero_snoc in E'.
      destruct (nonzero (int ++ frac)) eqn:E1.
      * unfold len. rewrite length_app. cbn [List.length]. lia.
      * cbn [orb] in E'. apply negb_true_iff in E'. rewrite E'.
        apply drop_zeros_nil_iff in E1. rewrite E1. reflexivity.
  - cbn [digit_update zeros]. rewrite Hmant.
    replace (trailing_zeros (if found_point st then frac ++ [d] else []))
      with (if found_point st then trailing_zeros (frac ++ [d]) else 0)
      by (destruct (found_point st); reflexivity).
    rewrite Htz, Hz. fold (is_zero_digit d).
    destruct (Z.eqb_spec (digits_value ((int ++ frac) ++ [d])) 0) as [E|E].
    + apply Hzero in E. rewrite E. rewrite nonzero_snoc in E.
      apply orb_false_iff in E as [E1 _]. now rewrite E1.
    + assert (E' : nonzero ((int ++ frac) ++ [d]) = true).
      { destruct (nonzero ((int ++ frac) ++ [d])); [reflexivity|].
        exfalso. apply E. now apply Hzero. }
      rewrite E'. rewrite nonzero_snoc in E'.
      destruct (is_zero_digit d); [|now rewrite andb_false_r].
      cbn [negb] in E'. rewrite orb_false_r in E'. now rewrite E'.
Qed.

Lemma parse_int_digits (ds : list ascii) : forall int rest st,
  forallb is_digit ds = true -> forallb is_digit int = true ->
  counters_ok int [] st -> found_point st = false ->
  exists st', parse_loop (ds ++ rest) st = parse_loop rest st' /\
              counters_ok (int ++ ds) [] st' /\ found_point st' = false.
Proof.
  induction ds as [|d ds IH]; intros int rest st Hds Hint Hco Hpt.
  - exists st. rewrite app_nil_r. auto.
  - cbn [forallb] in Hds. apply andb_prop in Hds as [Hd Hds].
    cbn [app parse_loop]. rewrite parse_digit by (assumption || apply Hco).
    destruct (counters_digit int [] d st Hco) as [Hco' Hpt'];
      [now rewrite app_nil_r|assumption|auto|].
    rewrite Hpt in Hco', Hpt'.
    destruct (IH (int ++ [d]) rest (digit_update d st)) as (st' & Hl & Hc & Hp);
      try assumption.
    { rewrite forallb_app, Hint. cbn. now rewrite Hd. }
    exists st'. rewrite <- app_assoc in Hc. auto.
Qed.

Lemma parse_frac_digits (int : list ascii) (ds : list ascii) : forall frac rest st,
  forallb is_digit ds = true -> forallb is_digit (int ++ frac) = true ->
  counters_ok int frac st -> found_point st = true ->
  exists st', parse_loop (ds ++ rest) st = parse_loop rest st' /\
              counters_ok int (frac ++ ds) st' /\ found_point st' = true.
Proof.
  induction ds as [|d ds IH]; intros frac rest st Hds Hall Hco Hpt.
  - exists st. rewrite app_nil_r. auto.
  - cbn [forallb] in Hds. apply andb_prop in Hds as [Hd Hds].
    cbn [app parse_loop]. rewrite parse_digit by (assumption || apply Hco).
    destruct (counters_digit int frac d st Hco) as [Hco' Hpt'];
      [assumption|assumption|congruence|].
    rewrite Hpt in Hco', Hpt'.
    destruct (IH (frac ++ [d]) rest (digit_update d st)) as (st' & Hl & Hc & Hp);
      try assumption.
    { rewrite app_assoc, forallb_app, Hall. cbn. now rewrite Hd. }
    exists st'. rewrite <- app_assoc in Hc. auto.
Qed.

Ltac split_ifs :=
  repeat match goal with
         | |- context [if ?b then _ else _] => destruct b
         end.

(** Once the exponent has started, the classification is settled. *)
Lemma parse_char_exponent (c : ascii) (st : parse_state) :
  found_exp st = true ->
  found_exp (fst (parse_char c st)) = true /\
  digits (fst (parse_char c st)) = digits st /\
  zeros (fst (parse_char c st)) = zeros st /\
  is_double (fst (parse_char c st)) = is_double st /\
  is_single (fst (parse_char c st)) = is_single st.
Proof.
  intros He. destruct st as [fs fp fe fes en ng e10 ex mt dg zs idb isg].
  cbn in He. subst fe. unfold parse_char.
  cbn [found_sign found_point found_exp found_exp_sign exp_neg neg exp10
       exponent mantissa digits zeros is_double is_single negb].
  split_ifs; cbn; auto.
Qed.

Lemma parse_loop_exponent (cs : list ascii) : forall st,
  found_exp st = true ->
  digits (parse_loop cs st) = digits st /\
  zeros (parse_loop cs st) = zeros st /\
  is_double (parse_loop cs st) = is_double st /\
  is_single (parse_loop cs st) = is_single st.
Proof.
  induction cs as [|c cs IH]; intros st He; [cbn; auto|].
  cbn [parse_loop].
  destruct (parse_char_exponent c st He) as (H1 & H2 & H3 & H4 & H5).
  destruct (parse_char c st) as [st' go_on]. cbn [fst] in *.
  destruct go_on; [|auto].
  destruct (IH st' H1) as (I2 & I3 & I4 & I5). repeat split; congruence.
Qed.

Lemma parse_opt_sign (s : option ascii) (rest : list ascii) :
  sign_ok s = true ->
  exists st, parse_loop (opt_char s ++ rest) parse_init = parse_loop rest st /\
             counters_ok [] [] st /\ found_point st = false.
Proof.
  intros Hs. destruct s as [c|]; cbn [opt_char app].
  - destruct (sign_cases c Hs) as [-> | ->]; cbn [parse_loop];
      eexists; (split; [reflexivity|]); split; try reflexivity;
      constructor; reflexivity.
  - exists parse_init. split; [reflexivity|]. split; [|reflexivity].
    constructor; reflexivity.
Qed.

Lemma parse_point (rest : list ascii) (int : list ascii) (st : parse_state) :
  counters_ok int [] st ->
  exists st', parse_loop ("."%char :: rest) st = parse_loop rest st' /\
              counters_ok int [] st' /\ found_point st' = true.
Proof.
  intros [Hm Hdg Hz He Hdb Hsg].
  destruct st as [fs fp fe fes en ng e10 ex mt dg zs idb isg]. cbn in *. subst.
  destruct fs; eexists; (split; [reflexivity|]); split; try reflexivity;
    constructor; assumption || reflexivity.
Qed.

(** The classification left by the tail of a literal. *)
Lemma parse_tail (t : literal_tail) (int frac : list ascii) (st : parse_state) :
  tail_ok t = true -> counters_ok int frac st ->
  let st' := parse_loop (render_tail (upper_tail t)) st in
  digits st' = digits st /\ zeros st' = zeros st /\
  is_double st' = match t with
                  | Exponent m _ _ => Ascii.eqb (upper m) "D"
                  | Suffix c => Ascii.eqb c "#"
                  | NoTail => false
                  end /\
  is_single st' = match t with Suffix c => Ascii.eqb c "!" | _ => false end.
Proof.
  intros Ht [Hm Hdg Hz He Hdb Hsg].
  destruct t as [|m s ds|c]; cbn [render_tail tail_ok upper_tail] in *.
  - cbn. auto.
  - apply andb_prop in Ht as [Ht Hds]. apply andb_prop in Ht as [Hmk Hs].
    destruct st as [fs fp fe fes en ng e10 ex mt dg zs idb isg].
    cbn [found_exp is_double is_single digits zeros] in *. subst.
    destruct (marker_cases m Hmk) as [-> | [-> | [-> | ->]]]; cbn [parse_loop];
      destruct fs; cbn -[parse_loop app opt_char];
      match goal with
      | |- context [parse_loop ?cs ?st0] =>
          destruct (parse_loop_exponent cs st0 eq_refl) as (I2 & I3 & I4 & I5);
          rewrite I2, I3, I4, I5; cbn; auto
      end.
  - destruct st as [fs fp fe fes en ng e10 ex mt dg zs idb isg]. cbn in *. subst.
    destruct (suffix_cases c Ht) as [-> | ->]; destruct fs; cbn; auto.
Qed.

Lemma parse_accumulated (L : literal) :
  wf_literal L = true ->
  parse_is_double (parse_loop (accumulated L) parse_init) =
    double_marker L || ((8 <=? significant_digits L) && negb (single_override L)).
Proof.
  destruct L as [s i pt f t pc]. unfold wf_literal, accumulated, render_mantissa,
    double_marker, single_override, significant_digits.
  cbn [l_sign l_int l_point l_frac l_tail l_percent].
  intros H. apply andb_prop in H as [H _]. apply andb_prop in H as [H _].
  apply andb_prop in H as [H Ht]. rewrite <- !app_assoc.
  set (tl := render_tail (upper_tail t)).
  apply andb_prop in H as [H Hpf]. apply andb_prop in H as [H Hf].
  apply andb_prop in H as [Hs Hi].
  destruct (parse_opt_sign s (i ++ (if pt then "."%char :: f else []) ++ tl) Hs)
    as (st0 & E0 & C0 & P0).
  rewrite E0.
  destruct (parse_int_digits i [] ((if pt then "."%char :: f else []) ++ tl)
              st0 Hi eq_refl C0 P0) as (st1 & E1 & C1 & P1).
  rewrite E1. cbn [app] in C1.
  assert (Hfrac : exists st2,
             parse_loop ((if pt then "."%char :: f else []) ++ tl) st1
             = parse_loop tl st2 /\ counters_ok i f st2).
  { destruct pt.
    - cbn [app].
      destruct (parse_point (f ++ tl) i st1 C1) as (st' & E' & C' & P').
      rewrite E'.
      destruct (parse_frac_digits i f [] tl st' Hf) as (st2 & E2 & C2 & _);
        try assumption.
      { now rewrite app_nil_r. }
      exists st2. auto.
    - cbn [orb] in Hpf. destruct f; [|discriminate]. exists st1. auto. }
  destruct Hfrac as (st2 & E2 & C2). rewrite E2. subst tl.
  destruct (parse_tail t i f st2 Ht C2) as (T1 & T2 & T3 & T4).
  unfold parse_is_double. rewrite T1, T2, T3, T4.
  destruct C2 as [_ Hdg Hz _ _ _]. rewrite Hdg, Hz, significant_count.
  set (n := len (drop_zeros (i ++ strip_trailing_zeros f))).
  replace (7 <? n) with (8 <=? n)
    by (destruct (Z.leb_spec 8 n); destruct (Z.ltb_spec 7 n); lia || reflexivity).
  destruct t as [|m s' ds|c]; cbn [negb].
  - rewrite andb_true_r. now destruct (8 <=? n).
  - rewrite andb_true_r. destruct (Ascii.eqb (upper m) "D"); now destruct (8 <=? n).
  - destruct (Ascii.eqb c "#"); destruct (Ascii.eqb c "!");
      now destruct (8 <=? n).
Qed.

(** ** The float built from a mantissa and a decimal exponent *)

Lemma normalise_outcome (f : fp.Float) : class_outcome (fp.cls f) (fp.normalise f).
Proof.
  unfold class_outcome. destruct (fp.normalise f) as [f'|e] eqn:E.
  - now apply normalise_cls in E.
  - unfold fp.normalise in E.
    destruct (_ || _); [discriminate|]. destruct (_ <=? 0); [discriminate|].
    destruct (0xff <? _); [|discriminate]. injection E as <-.
    eexists; split; reflexivity.
Qed.

Lemma imul10_outcome (f : fp.Float) : class_outcome (fp.cls f) (fp.imul10 f).
Proof. apply (normalise_outcome (fp.mk _ _ _ _)). Qed.

Lemma idiv10_outcome (f : fp.Float) : class_outcome (fp.cls f) (fp.idiv10 f).
Proof. apply (normalise_outcome (fp.mk _ _ _ _)). Qed.

Lemma class_outcome_bind (c : fp.fcls) (r : result fp.Float)
  (k : fp.Float -> result fp.Float) :
  class_outcome c r -> (forall f, fp.cls f = c -> class_outcome c (k f)) ->
  class_outcome c (rbind r k).
Proof. destruct r as [f|e]; cbn; auto. Qed.

Lemma repeat_op_outcome (op : fp.Float -> result fp.Float) (n : nat) :
  (forall f, class_outcome (fp.cls f) (op f)) ->
  forall f, class_outcome (fp.cls f) (repeat_op op n f).
Proof.
  intros Hop. induction n as [|n IH]; intros f; cbn [repeat_op].
  - reflexivity.
  - apply class_outcome_bind; [apply Hop|]. intros f' <-. apply IH.
Qed.

Lemma pack_length (f : fp.Float) :
  len (snd (fp.pack f)) = fp.byte_size (fp.cls f).
Proof.
  unfold fp.pack, fp.to_bytes, len. cbn [snd].
  rewrite length_app, le_bytes_length, apply_carry_cls.
  destruct (fp.cls f); reflexivity.
Qed.

Lemma handle_overflow (h : MathErrorHandler) (g : fp.Float) :
  match fst (handle h (OverflowError (Some g))) with
  | Ok v => v = fp.pack g
  | Raise x => x = RunError error.OVERFLOW
  end.
Proof.
  unfold handle. destruct (_screen h); [|reflexivity].
  destruct (_do_raise h); reflexivity.
Qed.

Lemma float_from_exp10_outcome (ng : bool) (m e : Z) (dbl : bool) (self : Values) :
  match fst (_float_from_exp10 ng m e dbl self) with
  | Ok v => len (snd v) = if dbl then 8 else 4
  | Raise x => x = RunError error.OVERFLOW
  end.
Proof.
  unfold _float_from_exp10, float_safe, lift.
  set (c := if dbl then fp.Double else fp.Single).
  assert (Hsize : fp.byte_size c = if dbl then 8 else 4) by (now destruct dbl).
  assert (H : class_outcome c
            (let* mbf := fp.normalise (fp.mk c ng (m * 0x100) (fp.bias c)) in
             let* mbf := repeat_op fp.idiv10 (Z.to_nat (- e)) mbf in
             let* mbf := repeat_op fp.imul10 (Z.to_nat e) mbf in
             fp.normalise mbf)).
  { apply class_outcome_bind; [apply (normalise_outcome (fp.mk c _ _ _))|].
    intros f1 <-. apply class_outcome_bind;
      [apply repeat_op_outcome, idiv10_outcome|].
    intros f2 <-. apply class_outcome_bind;
      [apply repeat_op_outcome, imul10_outcome|].
    intros f3 <-. apply normalise_outcome. }
  assert (Hraise : forall x,
             class_outcome c (Raise x) ->
             match fst (if is_float_error x
                        then let (r, h) := handle (_math_error_handler self) x in
                             (r, with_handler self h)
                        else (Raise x, self)) with
             | Ok v => len (snd v) = if dbl then 8 else 4
             | Raise y => y = RunError error.OVERFLOW
             end).
  { intros x (g & -> & Hg). cbn [is_float_error].
    pose proof (handle_overflow (_math_error_handler self) g) as Hh.
    destruct (handle _ _) as [r h]. cbn [fst] in *.
    destruct r as [v|y]; [|assumption]. subst v. now rewrite pack_length, Hg. }
  destruct (fp.normalise (fp.mk c ng (m * 0x100) (fp.bias c))) as [f1|x1];
    cbn [rbind] in *; [|now apply Hraise].
  destruct (repeat_op fp.idiv10 _ f1) as [f2|x2]; cbn [rbind] in *;
    [|now apply Hraise].
  destruct (repeat_op fp.imul10 _ f2) as [f3|x3]; cbn [rbind] in *;
    [|now apply Hraise].
  destruct (fp.normalise f3) as [f4|x4]; cbn [rbind fst] in *;
    [|now apply Hraise].
  now rewrite pack_length, H.
Qed.

(** ** Characters *)

Lemma chr_ord (n : Z) : 0 <= n < 256 -> exists c, chr n = Ok c /\ ord c = n.
Proof.
  intros Hn. unfold chr.
  destruct (Z.leb_spec 0 n); [|lia]. destruct (Z.ltb_spec n 256); [|lia].
  eexists; split; [reflexivity|]. unfold ord.
  rewrite N_ascii_embedding by lia. lia.
Qed.

Lemma unclaim_clean (w : list ascii) (p : nat) :
  w <> [] -> forallb not_whitespace w = true -> unclaim (rev w) p = (w, p).
Proof.
  intros Hne Hall. destruct (rev w) as [|c r] eqn:E.
  - apply (f_equal (@rev ascii)) in E. rewrite rev_involutive in E. now subst.
  - cbn [unclaim].
    assert (Hc : not_whitespace c = true).
    { rewrite forallb_forall in Hall. apply Hall. apply in_rev. rewrite E. now left. }
    unfold not_whitespace in Hc. apply negb_true_iff in Hc. rewrite Hc.
    now rewrite <- E, rev_involutive.
Qed.

Lemma trim_clean (w : list ascii) : forallb not_whitespace w = true -> trim w = w.
Proof.
  induction w as [|c w IH]; cbn [forallb trim filter]; [reflexivity|].
  intros H. apply andb_prop in H as [Hc Hw]. unfold not_whitespace in Hc.
  rewrite Hc. f_equal. now apply IH.
Qed.

Lemma digits_clean (ds : list ascii) :
  forallb is_digit ds = true -> forallb not_whitespace ds = true.
Proof.
  induction ds as [|d ds IH]; cbn [forallb]; [reflexivity|].
  intros H. apply andb_prop in H as [Hd Hds]. rewrite (IH Hds), andb_true_r.
  each_digit d Hd; reflexivity.
Qed.

Lemma opt_sign_clean (s : option ascii) :
  sign_ok s = true -> forallb not_whitespace (opt_char s) = true.
Proof.
  destruct s as [c|]; [|reflexivity]. intros H.
  destruct (sign_cases c H) as [-> | ->]; reflexivity.
Qed.

Lemma accumulated_clean (L : literal) :
  wf_literal L = true -> forallb not_whitespace (accumulated L) = true.
Proof.
  destruct L as [s i pt f t pc]. unfold wf_literal, accumulated, render_mantissa.
  cbn [l_sign l_int l_point l_frac l_tail l_percent].
  intros H. apply andb_prop in H as [H _]. apply andb_prop in H as [H _].
  apply andb_prop in H as [H Ht].
  apply andb_prop in H as [H _]. apply andb_prop in H as [H Hf].
  apply andb_prop in H as [Hs Hi].
  rewrite !forallb_app, opt_sign_clean, digits_clean by assumption. cbn [andb].
  assert (Hpt : forallb not_whitespace (if pt then "."%char :: f else []) = true).
  { destruct pt; [|reflexivity]. cbn [forallb]. now rewrite digits_clean. }
  rewrite Hpt. cbn [andb].
  destruct t as [|m s' ds|c]; cbn [render_tail tail_ok forallb upper_tail] in *.
  - reflexivity.
  - apply andb_prop in Ht as [Ht Hds]. apply andb_prop in Ht as [Hm Hs'].
    rewrite forallb_app, opt_sign_clean, digits_clean by assumption.
    destruct (marker_cases m Hm) as [-> | [-> | [-> | ->]]]; reflexivity.
  - destruct (suffix_cases c Ht) as [-> | ->]; reflexivity.
Qed.

(** ** Writing out the token of a literal *)

Ltac wf_parts H Hs Hi Hf Hpf Ht Hne :=
  apply andb_prop in H as [H _];
  apply andb_prop in H as [H Hne]; apply andb_prop in H as [H Ht];
  apply andb_prop in H as [H Hpf]; apply andb_prop in H as [H Hf];
  apply andb_prop in H as [Hs Hi].

Lemma is_one_digit_cons (c : ascii) (rest : list ascii) :
  is_one_digit (c :: rest) = match rest with [] => is_digit c | _ => false end.
Proof. now destruct rest. Qed.

Lemma tail_head_not_digit (t : literal_tail) (c : ascii) (rest : list ascii) :
  tail_ok t = true -> render_tail (upper_tail t) = c :: rest -> is_digit c = false.
Proof.
  destruct t as [|m s ds|x]; cbn [render_tail tail_ok upper_tail]; intros Ht E.
  - discriminate.
  - injection E as <- _. apply andb_prop in Ht as [Ht _].
    apply andb_prop in Ht as [Hm _].
    destruct (marker_cases m Hm) as [-> | [-> | [-> | ->]]]; reflexivity.
  - injection E as <- _. destruct (suffix_cases x Ht) as [-> | ->]; reflexivity.
Qed.

Lemma one_digit_bare (L : literal) :
  wf_literal L = true -> is_one_digit (accumulated L) = bare_digit L.
Proof.
  destruct L as [s i pt f t pc].
  unfold wf_literal, accumulated, render_mantissa, bare_digit.
  cbn [l_sign l_int l_point l_frac l_tail l_percent]. intros H.
  wf_parts H Hs Hi Hf Hpf Ht Hne.
  destruct s as [c|]; cbn [opt_char app].
  - rewrite is_one_digit_cons.
    assert (is_digit c = false)
      by (destruct (sign_cases c Hs) as [-> | ->]; reflexivity).
    destruct ((i ++ _) ++ _); auto.
  - destruct i as [|d [|d' i]]; cbn [app].
    + destruct pt; cbn [app];
        [rewrite is_one_digit_cons; now destruct (f ++ render_tail (upper_tail t))|].
      destruct (render_tail (upper_tail t)) as [|c rest] eqn:E; [reflexivity|].
      rewrite is_one_digit_cons, (tail_head_not_digit t c rest Ht E).
      now destruct rest.
    + rewrite is_one_digit_cons. cbn [forallb] in Hi.
      apply andb_prop in Hi as [Hd _].
      destruct pt; cbn [app]; [reflexivity|].
      destruct t; cbn [render_tail upper_tail]; try reflexivity. exact Hd.
    + reflexivity.
Qed.

Lemma last_forallb (P : ascii -> bool) (w : list ascii) (d : ascii) :
  w <> [] -> forallb P w = true -> P (last w d) = true.
Proof.
  intros Hne Hall. rewrite forallb_forall in Hall. apply Hall.
  destruct (exists_last Hne) as (w' & x & ->). rewrite last_last.
  apply in_or_app. right. now left.
Qed.

Lemma digits_not_suffix (ds : list ascii) :
  forallb is_digit ds = true -> forallb not_suffix ds = true.
Proof.
  induction ds as [|d ds IH]; cbn [forallb]; [reflexivity|].
  intros H. apply andb_prop in H as [Hd Hds]. rewrite (IH Hds), andb_true_r.
  each_digit d Hd; reflexivity.
Qed.

Lemma opt_sign_not_suffix (s : option ascii) :
  sign_ok s = true -> forallb not_suffix (opt_char s) = true.
Proof.
  destruct s as [c|]; [|reflexivity]. intros H.
  destruct (sign_cases c H) as [-> | ->]; reflexivity.
Qed.

Lemma no_float_mark_integral (L : literal) :
  wf_literal L = true ->
  no_float_mark (has_exponent L) (l_point L) (accumulated L) = Ok (integral L).
Proof.
  intros Hwf. assert (Hwf' := Hwf).
  destruct L as [s i pt f t pc].
  unfold wf_literal, accumulated, render_mantissa, has_exponent, integral in *.
  cbn [l_sign l_int l_point l_frac l_tail l_percent] in *.
  wf_parts Hwf Hs Hi Hf Hpf Ht Hne.
  unfold no_float_mark. destruct pt; [now rewrite orb_true_r|].
  cbn [orb negb andb app] in *. rewrite orb_false_r.
  destruct t as [|m s' ds|c]; cbn [render_tail upper_tail] in *.
  - rewrite !app_nil_r in *. destruct (opt_char s ++ i) eqn:E; [discriminate|].
    rewrite <- E. f_equal.
    apply (last_forallb not_suffix); [rewrite E; discriminate|].
    now rewrite forallb_app, opt_sign_not_suffix, digits_not_suffix.
  - reflexivity.
  - rewrite app_nil_r in *.
    destruct ((opt_char s ++ i) ++ [c]) eqn:E; [discriminate|].
    rewrite <- E, last_last. cbn [tail_ok] in Ht. now rewrite Ht.
Qed.

Lemma py_int_digits (sign : Z) (d : ascii) (ds : list ascii) :
  forallb is_digit (d :: ds) = true ->
  py_int (d :: ds) = Ok (digits_value (d :: ds)).
Proof.
  intros H. unfold py_int. rewrite H.
  cbn [forallb] in H. apply andb_prop in H as [Hd _].
  assert (Ascii.eqb d "-" = false /\ Ascii.eqb d "+" = false) as [-> ->]
    by (each_digit d Hd; split; reflexivity).
  f_equal. lia.
Qed.

Lemma str_to_int_integral (L : literal) :
  wf_literal L = true -> integral L = true ->
  str_to_int (accumulated L) = int_value L.
Proof.
  destruct L as [s i pt f t pc].
  unfold wf_literal, accumulated, render_mantissa, integral, int_value.
  cbn [l_sign l_int l_point l_frac l_tail l_percent]. intros H Hint.
  wf_parts H Hs Hi Hf Hpf Ht Hne.
  apply andb_prop in Hint as [Hpt Htl]. apply negb_true_iff in Hpt. subst pt.
  destruct t; try discriminate. cbn [render_tail upper_tail app] in *.
  rewrite !app_nil_r in *. unfold str_to_int.
  destruct s as [c|]; cbn [opt_char app] in *.
  - destruct (sign_cases c Hs) as [-> | ->]; unfold py_int; cbn [Ascii.eqb];
      cbn -[digits_value forallb]; destruct i as [|d ds];
      try reflexivity; rewrite Hi; now destruct (digits_value (d :: ds)).
  - destruct i as [|d ds]; [discriminate|].
    now rewrite (py_int_digits 1).
Qed.

Lemma bare_digit_value (L : literal) :
  wf_literal L = true -> bare_digit L = true ->
  0 <= str_to_int (accumulated L) <= 9.
Proof.
  destruct L as [s i pt f t pc].
  unfold wf_literal, accumulated, render_mantissa, bare_digit.
  cbn [l_sign l_int l_point l_frac l_tail l_percent]. intros H Hb.
  wf_parts H Hs Hi Hf Hpf Ht Hne.
  destruct s; try discriminate. destruct i as [|d [|? ?]]; try discriminate.
  destruct pt; try discriminate. destruct t; try discriminate.
  cbn [opt_char render_tail upper_tail app]. cbn [forallb] in Hi.
  apply andb_prop in Hi as [Hd _]. each_digit d Hd; cbn; lia.
Qed.

Lemma float_token_kind (L : literal) (self : Values) :
  wf_literal L = true ->
  match fst ((v <- _str_to_float (accumulated L) ;;
              let mbf := snd v in
              ret (if len mbf =? 4 then tk.T_SINGLE :: mbf
                   else tk.T_DOUBLE :: mbf)) self) with
  | Ok tok =>
      kind_of_token tok =
        Some (if double_marker L ||
                 ((8 <=? significant_digits L) && negb (single_override L))
              then KDouble else KSingle)
  | Raise e => e = RunError error.OVERFLOW
  end.
Proof.
  intros Hwf. unfold bind, _str_to_float.
  pose proof (float_from_exp10_outcome
                (neg (parse_loop (accumulated L) parse_init))
                (mantissa (parse_loop (accumulated L) parse_init))
                (parse_exp10 (parse_loop (accumulated L) parse_init))
                (parse_is_double (parse_loop (accumulated L) parse_init)) self) as H.
  rewrite (parse_accumulated L Hwf) in *.
  destruct (_float_from_exp10 _ _ _ _ self) as [[v|e] self'];
    cbn [fst ret] in *; [|assumption].
  destruct v as [ty bytes]. cbn [snd] in *. unfold len in *.
  destruct (double_marker L || _).
  - do 9 (destruct bytes as [|? bytes]; cbn [List.length] in H; try lia).
    reflexivity.
  - do 5 (destruct bytes as [|? bytes]; cbn [List.length] in H; try lia).
    reflexivity.
Qed.

Lemma write_number_kind (L : literal) (self : Values) :
  wf_literal L = true ->
  match fst (write_number (has_exponent L) (l_point L) (accumulated L) self) with
  | Ok tok => kind_of_token tok = Some (spec_kind L)
  | Raise e => e = RunError error.OVERFLOW /\ is_float_kind (spec_kind L)
  end.
Proof.
  intros Hwf. unfold write_number, spec_kind.
  rewrite (one_digit_bare L Hwf).
  destruct (bare_digit L) eqn:Hbare.
  - pose proof (bare_digit_value L Hwf Hbare) as Hv.
    destruct (chr_ord (0x11 + str_to_int (accumulated L))) as (c & Hc & Hord); [lia|].
    unfold lift. rewrite Hc. cbn [rbind fst]. rewrite Hord.
    unfold kind_of_token, tk.C_0.
    destruct (Z.leb_spec 0x11 (0x11 + str_to_int (accumulated L))); [|lia].
    destruct (Z.leb_spec (0x11 + str_to_int (accumulated L)) (0x11 + 9)); [|lia].
    reflexivity.
  - unfold bind at 1. unfold lift at 1.
    rewrite (no_float_mark_integral L Hwf).
    pose proof (float_token_kind L self Hwf) as Hfloat.
    destruct (integral L) eqn:Hint; cbn [andb].
    + rewrite (str_to_int_integral L Hwf Hint).
      destruct (Z.leb_spec (int_value L) 0x7fff);
        destruct (Z.leb_spec (- 0x8000) (int_value L));
        destruct (Z.leb_spec (- 32768) (int_value L));
        destruct (Z.leb_spec (int_value L) 32767); try lia; cbn [andb].
      * destruct (Z.leb_spec (int_value L) 0xff);
          destruct (Z.leb_spec 0 (int_value L));
          destruct (Z.leb_spec (int_value L) 255); try lia; cbn [andb].
        { destruct (chr_ord (int_value L)) as (c & Hc & Hord); [lia|].
          unfold lift. rewrite Hc. reflexivity. }
        { destruct (int_to_integer_signed_ok (int_value L)) as (v & Hv & Ht & Hw & _);
            [lia|].
          unfold lift. rewrite Hv. cbn [rbind fst].
          destruct (wf_integer_bytes v Hw Ht) as (b0 & b1 & -> & _). reflexivity. }
        { destruct (int_to_integer_signed_ok (int_value L)) as (v & Hv & Ht & Hw & _);
            [lia|].
          unfold lift. rewrite Hv. cbn [rbind fst].
          destruct (wf_integer_bytes v Hw Ht) as (b0 & b1 & -> & _). reflexivity. }
      * destruct (fst _) as [tok|e]; [assumption|].
        split; [assumption|]. unfold is_float_kind. destruct (_ || _); auto.
      * destruct (fst _) as [tok|e]; [assumption|].
        split; [assumption|]. unfold is_float_kind. destruct (_ || _); auto.
    + destruct (fst _) as [tok|e]; [assumption|].
      split; [assumption|]. unfold is_float_kind. destruct (_ || _); auto.
Qed.

(** ** The token of a decimal literal *)

(** "12345678!" supplies eight significant digits and is written as a
    Single token; "1.50000000" supplies nine digits, the last seven of them
    zeros that follow the 5 and not the point, and is written as a Single
    token. *)
Example tokenise_eight_digits_single :
  (render literal_12345678_single = str "12345678!" /\
   significant_digits literal_12345678_single = 8 /\
   fst (_tokenise_dec {| buf := str "12345678!"; pos := 0 |} [] soft_values)
   = Ok ({| buf := str "12345678!"; pos := 9 |},
         [tk.T_SINGLE; 0x4e; 0x61; 0x3c; 0x98]) /\
   kind_of_token [tk.T_SINGLE; 0x4e; 0x61; 0x3c; 0x98] = Some KSingle) /\
  (render literal_1_50000000 = str "1.50000000" /\
   len (l_int literal_1_50000000 ++ l_frac literal_1_50000000) = 9 /\
   fst (_tokenise_dec {| buf := str "1.50000000"; pos := 0 |} [] soft_values)
   = Ok ({| buf := str "1.50000000"; pos := 10 |},
         [tk.T_SINGLE; 0x00; 0x00; 0x40; 0x81]) /\
   kind_of_token [tk.T_SINGLE; 0x00; 0x00; 0x40; 0x81] = Some KSingle).
Proof. repeat split. Qed.

(** C5, amended: for every decimal literal, the token written is selected
    as follows.  A bare single digit gives the compact token; a literal
    with no point, exponent or type suffix whose value fits
    [-32768, 32767] gives the one-byte token if the value is in [0, 255]
    and the two-byte integer token otherwise; every other literal gives a
    Single token, or a Double token exactly when it has a D exponent or a
    # suffix, or supplies at least eight significant digits and has no !
    suffix, where the trailing zeros of the digits after the point are not
    counted; a float literal out of range fails with Overflow when the
    fault is not handled softly.  "1E5" gives Single 100000 and "1D5"
    Double 100000. *)
Theorem tokenise_dec_kind :
  (forall (L : literal) (self : Values),
     wf_literal L = true ->
     match fst (_tokenise_dec {| buf := render L; pos := 0 |} [] self) with
     | Ok (ins, outs) =>
         kind_of_token outs = Some (spec_kind L) /\
         pos ins = List.length (render L)
     | Raise e => e = RunError error.OVERFLOW /\ is_float_kind (spec_kind L)
     end) /\
  (forall self : Values,
     fst (_tokenise_dec {| buf := str "1E5"; pos := 0 |} [] self)
     = Ok ({| buf := str "1E5"; pos := 3 |}, token_1E5) /\
     represents (fp.unpack (SNG, List.tl token_1E5)) 100000 /\
     fst (_tokenise_dec {| buf := str "1D5"; pos := 0 |} [] self)
     = Ok ({| buf := str "1D5"; pos := 3 |}, token_1D5) /\
     represents (fp.unpack (DBL, List.tl token_1D5)) 100000).
Proof.
  split.
  - intros L self Hwf. unfold _tokenise_dec. cbn [buf pos skipn].
    rewrite (scan_render L Hwf). cbn [kill word have_exp have_point].
    assert (Hne : accumulated L <> []).
    { unfold wf_literal in Hwf. apply andb_prop in Hwf as [Hwf _].
      apply andb_prop in Hwf as [_ H].
      destruct (accumulated L); [discriminate|discriminate]. }
    rewrite (unclaim_clean _ _ Hne (accumulated_clean L Hwf)).
    rewrite (trim_clean _ (accumulated_clean L Hwf)).
    pose proof (write_number_kind L self Hwf) as H.
    unfold bind. destruct (write_number _ _ _ self) as [[tok|e] self'];
      cbn [fst ret] in *; auto.
  - intros self. repeat split; vm_compute; reflexivity.
Qed.

Lemma tokenise_dec_kind_witness :
  match fst (_tokenise_dec {| buf := render literal_12345678_single; pos := 0 |}
                           [] soft_values) with
  | Ok (ins, outs) =>
      kind_of_token outs = Some (spec_kind literal_12345678_single) /\
      pos ins = List.length (render literal_12345678_single)
  | Raise e =>
      e = RunError error.OVERFLOW /\
      is_float_kind (spec_kind literal_12345678_single)
  end.
Proof.
  apply (proj1 tokenise_dec_kind literal_12345678_single soft_values).
  reflexivity.
Defined.

(* ------------------------------------------------------------------ *)
(** * Further properties of the operators, the tokeniser and the formatter *)

(** ** Integers: encoding and decoding *)

Lemma wf_integer (b0 b1 : Z) : is_byte b0 -> is_byte b1 -> wf_value (INT, [b0; b1]).
Proof.
  intros H0 H1. split; [reflexivity|].
  apply Forall_cons; [exact H0|apply Forall_cons; [exact H1|apply Forall_nil]].
Qed.

Lemma int_to_integer_bytes (b0 b1 : Z) :
  is_byte b0 -> is_byte b1 ->
  int_to_integer (256 * b1 + b0) true = Ok (INT, [b0; b1]).
Proof.
  unfold is_byte. intros H0 H1. unfold int_to_integer.
  destruct (Z.gtb_spec (256 * b1 + b0) 0xffff); [lia|].
  destruct (Z.ltb_spec (256 * b1 + b0) (- 0x8000)); [lia|]. cbn [orb].
  destruct (Z.ltb_spec (256 * b1 + b0) 0); [lia|].
  rewrite land_ff, shiftr_8. repeat f_equal.
  - symmetry. apply Z.mod_unique with (q := b1); lia.
  - symmetry. apply Z.div_unique with (r := b0); lia.
Qed.

Lemma integer_to_int_unsigned (b0 b1 : Z) :
  integer_to_int (INT, [b0; b1]) true = Ok (0x100 * b1 + b0).
Proof. reflexivity. Qed.

Lemma int_to_integer_overflow (n : Z) (unsigned : bool) :
  n < - 32768 \/ (if unsigned then 65535 else 32767) < n ->
  int_to_integer n unsigned = Raise (RunError error.OVERFLOW).
Proof.
  intros H. unfold int_to_integer.
  destruct (Z.gtb_spec n (if unsigned then 0xffff else 0x7fff)); [reflexivity|].
  destruct (Z.ltb_spec n (- 0x8000)); [reflexivity|].
  destruct unsigned; lia.
Qed.

(** X1: [int_to_integer] accepts exactly the integers from -32768 up to
    32767, or up to 65535 when unsigned, and fails with Overflow on every
    other; what it returns is a well-formed Integer that [integer_to_int]
    reads back as the same number, a negative number stored unsigned being
    read back 65536 higher. *)
Theorem int_to_integer_round_trip (n : Z) (unsigned : bool) :
  (- 32768 <= n <= (if unsigned then 65535 else 32767) ->
   exists v, int_to_integer n unsigned = Ok v /\ fst v = INT /\ wf_value v /\
             integer_to_int v unsigned
               = Ok (if unsigned && (n <? 0) then n + 65536 else n)) /\
  (n < - 32768 \/ (if unsigned then 65535 else 32767) < n ->
   int_to_integer n unsigned = Raise (RunError error.OVERFLOW)).
Proof.
  split; [|apply int_to_integer_overflow].
  intros Hn. destruct unsigned.
  - destruct (int_to_integer_unsigned_ok n Hn) as (v & Hv & Ht & Hw & Hr).
    exists v. repeat split; try assumption; try apply Hw.
    rewrite Hr. f_equal. cbn [andb].
    destruct (Z.ltb_spec n 0).
    + symmetry. apply Z.mod_unique with (q := -1); lia.
    + apply Z.mod_small; lia.
  - destruct (int_to_integer_signed_ok n Hn) as (v & Hv & Ht & Hw & Hr).
    exists v. repeat split; try assumption; apply Hw.
Qed.

Lemma int_to_integer_round_trip_witness :
  (exists v, int_to_integer (- 1) true = Ok v /\ fst v = INT /\ wf_value v /\
             integer_to_int v true = Ok 65535) /\
  int_to_integer 32768 false = Raise (RunError error.OVERFLOW).
Proof.
  split.
  - apply (proj1 (int_to_integer_round_trip (- 1) true)). cbn. lia.
  - apply (proj2 (int_to_integer_round_trip 32768 false)). right. cbn. lia.
Defined.

Lemma integer_decode_encode (v : value) :
  wf_value v -> fst v = INT ->
  exists n u,
    integer_to_int v false = Ok n /\ int_to_integer n false = Ok v /\
    integer_to_int v true = Ok u /\ int_to_integer u true = Ok v /\
    - 32768 <= n <= 32767 /\ 0 <= u <= 65535 /\
    u = (if n <? 0 then n + 65536 else n).
Proof.
  intros Hwf Ht.
  destruct (wf_integer_bytes v Hwf Ht) as (b0 & b1 & -> & H0 & H1).
  rewrite integer_to_int_signed, integer_to_int_unsigned by assumption.
  change 0x100 with 256.
  exists (if 128 <=? b1 then 256 * b1 + b0 - 65536 else 256 * b1 + b0),
         (256 * b1 + b0).
  split; [reflexivity|]. split.
  - pose proof (int_to_integer_bytes b0 b1 H0 H1) as E.
    unfold int_to_integer in *. unfold is_byte in *.
    destruct (Z.leb_spec 128 b1).
    + destruct (Z.gtb_spec (256 * b1 + b0 - 65536) 0x7fff); [lia|].
      destruct (Z.ltb_spec (256 * b1 + b0 - 65536) (- 0x8000)); [lia|].
      destruct (Z.ltb_spec (256 * b1 + b0 - 65536) 0); [|lia].
      cbn [orb].
      replace (0x10000 + (256 * b1 + b0 - 65536)) with (256 * b1 + b0) by lia.
      destruct (Z.gtb_spec (256 * b1 + b0) 0xffff); [lia|].
      destruct (Z.ltb_spec (256 * b1 + b0) (- 0x8000)); [lia|].
      destruct (Z.ltb_spec (256 * b1 + b0) 0); [lia|]. exact E.
    + destruct (Z.gtb_spec (256 * b1 + b0) 0x7fff); [lia|].
      destruct (Z.gtb_spec (256 * b1 + b0) 0xffff); [lia|].
      destruct (Z.ltb_spec (256 * b1 + b0) (- 0x8000)); [lia|]. exact E.
  - split; [reflexivity|]. split; [now apply int_to_integer_bytes|].
    unfold is_byte in *.
    destruct (Z.leb_spec 128 b1);
      [destruct (Z.ltb_spec (256 * b1 + b0 - 65536) 0)
      |destruct (Z.ltb_spec (256 * b1 + b0) 0)]; lia.
Qed.

(** X2: the bytes of a well-formed Integer are recovered by reading them
    and encoding the number again, in the signed and in the unsigned
    reading alike; the two readings agree below 32768 and differ by 65536
    from there on. *)
Theorem integer_to_int_round_trip (v : value) :
  wf_value v -> fst v = INT ->
  exists n u,
    integer_to_int v false = Ok n /\ int_to_integer n false = Ok v /\
    integer_to_int v true = Ok u /\ int_to_integer u true = Ok v /\
    - 32768 <= n <= 32767 /\ 0 <= u <= 65535 /\
    u = (if n <? 0 then n + 65536 else n).
Proof. exact (integer_decode_encode v). Qed.

Lemma integer_to_int_round_trip_witness :
  exists n u,
    integer_to_int (INT, [0xff; 0x7f]) false = Ok n /\
    int_to_integer n false = Ok (INT, [0xff; 0x7f]) /\
    integer_to_int (INT, [0xff; 0x7f]) true = Ok u /\
    int_to_integer u true = Ok (INT, [0xff; 0x7f]) /\
    - 32768 <= n <= 32767 /\ 0 <= u <= 65535 /\
    u = (if n <? 0 then n + 65536 else n).
Proof.
  apply (integer_to_int_round_trip (INT, [0xff; 0x7f])).
  - exact wf_integer_32767.
  - reflexivity.
Defined.

(** ** Negation and absolute value *)

Lemma lxor_80_byte (b : Z) : is_byte b -> is_byte (Z.lxor b 0x80).
Proof.
  intros Hb. unfold is_byte.
  assert (H : ((0 <=? Z.lxor b 0x80) && (Z.lxor b 0x80 <? 256)) = true).
  { apply (zrange_forallb (fun b => (0 <=? Z.lxor b 0x80) && (Z.lxor b 0x80 <? 256))
                          0 256); [vm_compute; reflexivity|exact Hb]. }
  apply andb_prop in H as [H1 H2]. apply Z.leb_le in H1. apply Z.ltb_lt in H2. lia.
Qed.

Lemma land_7f_byte (b : Z) : is_byte b -> is_byte (Z.land b 0x7F).
Proof.
  intros Hb. unfold is_byte. rewrite land_byte_7f by assumption.
  unfold is_byte in Hb. destruct (Z.leb_spec 128 b); lia.
Qed.

Lemma lxor_80_twice (b : Z) : Z.lxor (Z.lxor b 0x80) 0x80 = b.
Proof. now rewrite Z.lxor_assoc, Z.lxor_nilpotent, Z.lxor_0_r. Qed.

Lemma land_7f_twice (b : Z) : Z.land (Z.land b 0x7F) 0x7F = Z.land b 0x7F.
Proof. now rewrite <- Z.land_assoc, Z.land_diag. Qed.

Lemma land_7f_lxor_80 (b : Z) : Z.land (Z.lxor b 0x80) 0x7F = Z.land b 0x7F.
Proof.
  apply Z.bits_inj'. intros n Hn.
  rewrite !Z.land_spec, Z.lxor_spec.
  destruct (Z.eq_dec n 7) as [->|Hne]; [now rewrite !andb_false_r|].
  replace (Z.testbit 0x80 n) with false; [now rewrite xorb_false_r|].
  symmetry. change 0x80 with (2 ^ 7). rewrite Z.pow2_bits_eqb by lia.
  apply Z.eqb_neq. lia.
Qed.

(** The payload of a well-formed float, by its size. *)
Lemma wf_float_bytes (v : value) :
  wf_value v -> fst v = SNG \/ fst v = DBL ->
  (exists a b c d, v = (SNG, [a; b; c; d]) /\ is_byte c) \/
  (exists a b c d e f g h, v = (DBL, [a; b; c; d; e; f; g; h]) /\ is_byte g).
Proof.
  destruct v as [t s]. unfold wf_value. cbn [fst snd]. intros [Hlen Hall] [-> | ->];
    cbn [TYPE_TO_SIZE] in Hlen.
  - left. do 5 (destruct s as [|? s]; cbn [List.length] in Hlen; try lia).
    do 4 eexists. split; [reflexivity|].
    rewrite Forall_forall in Hall. apply Hall. cbn. tauto.
  - right. do 9 (destruct s as [|? s]; cbn [List.length] in Hlen; try lia).
    do 8 eexists. split; [reflexivity|].
    rewrite Forall_forall in Hall. apply Hall. cbn. tauto.
Qed.

Lemma wf_single (a b c d : Z) (c' : Z) :
  wf_value (SNG, [a; b; c; d]) -> is_byte c' -> wf_value (SNG, [a; b; c'; d]).
Proof.
  intros [_ Hall] Hc. split; [reflexivity|]. cbn [snd] in *.
  rewrite Forall_forall in *. intros x Hx. cbn in Hx.
  destruct Hx as [<-|[<-|[<-|[<-|[]]]]]; try assumption; apply Hall; cbn; tauto.
Qed.

Lemma wf_double (a b c d e f g h : Z) (g' : Z) :
  wf_value (DBL, [a; b; c; d; e; f; g; h]) -> is_byte g' ->
  wf_value (DBL, [a; b; c; d; e; f; g'; h]).
Proof.
  intros [_ Hall] Hg. split; [reflexivity|]. cbn [snd] in *.
  rewrite Forall_forall in *. intros x Hx. cbn in Hx.
  destruct Hx as [<-|[<-|[<-|[<-|[<-|[<-|[<-|[<-|[]]]]]]]]]; try assumption;
    apply Hall; cbn; tauto.
Qed.

Lemma negate_twice (v : value) :
  wf_value v ->
  (v <> (INT, [0x00; 0x80]) ->
   exists w, negate v = Ok w /\ wf_value w /\ fst w = fst v /\ negate w = Ok v) /\
  (v = (INT, [0x00; 0x80]) ->
   negate v = Ok (SNG, [0x00; 0x00; 0x00; 0x90]) /\
   negate (SNG, [0x00; 0x00; 0x00; 0x90]) = Ok (SNG, [0x00; 0x00; 0x80; 0x90])).
Proof.
  intros Hwf. split; [|intros ->; split; reflexivity].
  intros Hne. destruct (fst v) eqn:Ht.
  - destruct (wf_integer_bytes v Hwf Ht) as (b0 & b1 & -> & H0 & H1).
    destruct (integer_decode_encode _ Hwf Ht)
      as (n & u & Hn & Hback & _ & _ & Hr & _).
    assert (Hmin : n <> - 32768).
    { intros ->. apply Hne. vm_compute in Hback. now injection Hback as <- <-. }
    destruct (int_to_integer_signed_ok (- n)) as (w & Hw & Tw & Ww & Hval); [lia|].
    exists w. unfold negate at 1. cbn [fst]. rewrite Hn. cbn [rbind].
    destruct (Z.eqb_spec (- n) 32768); [lia|].
    repeat split; try assumption; try apply Ww.
    unfold negate. rewrite Tw, Hval. cbn [rbind]. rewrite Z.opp_involutive.
    destruct (Z.eqb_spec n 32768); [lia|]. exact Hback.
  - destruct (wf_float_bytes v Hwf (or_introl Ht))
      as [(a & b & c & d & -> & Hc) | (a & b & c & d & e & f & g & h & -> & _)];
      [|discriminate].
    exists (SNG, [a; b; Z.lxor c 0x80; d]). split; [reflexivity|].
    split; [apply (wf_single a b c d); [assumption|now apply lxor_80_byte]|].
    split; [reflexivity|].
    unfold negate, update_sign_byte. cbn [fst snd rev app rbind].
    now rewrite lxor_80_twice.
  - destruct (wf_float_bytes v Hwf (or_intror Ht))
      as [(a & b & c & d & -> & _) | (a & b & c & d & e & f & g & h & -> & Hg)];
      [discriminate|].
    exists (DBL, [a; b; c; d; e; f; Z.lxor g 0x80; h]). split; [reflexivity|].
    split; [apply (wf_double a b c d e f g h); [assumption|now apply lxor_80_byte]|].
    split; [reflexivity|].
    unfold negate, update_sign_byte. cbn [fst snd rev app rbind].
    now rewrite lxor_80_twice.
  - exists v. unfold negate. rewrite Ht. auto.
Qed.

(** X3: negation is its own inverse on every well-formed value but
    Integer -32768: the result is well formed, has the type of the operand
    and negates back to the operand; a string is left as it is.  Integer
    -32768 is the exception: it negates to Single 32768, and that negates
    to Single -32768, not back to the Integer. *)
Theorem negate_involutive (v : value) :
  wf_value v ->
  (v <> (INT, [0x00; 0x80]) ->
   exists w, negate v = Ok w /\ wf_value w /\ fst w = fst v /\ negate w = Ok v) /\
  (v = (INT, [0x00; 0x80]) ->
   negate v = Ok (SNG, [0x00; 0x00; 0x00; 0x90]) /\
   negate (SNG, [0x00; 0x00; 0x00; 0x90]) = Ok (SNG, [0x00; 0x00; 0x80; 0x90])).
Proof. exact (negate_twice v). Qed.

Lemma negate_involutive_witness :
  exists w, negate (SNG, [0; 0; 0x80; 0x81]) = Ok w /\ wf_value w /\
            fst w = fst (SNG, [0; 0; 0x80; 0x81]) /\
            negate w = Ok (SNG, [0; 0; 0x80; 0x81]).
Proof.
  apply (proj1 (negate_involutive (SNG, [0; 0; 0x80; 0x81]) wf_single_minus_1)).
  discriminate.
Defined.

(** X4: the absolute value of a well-formed value is a fixed point of
    [abs], and the negated operand has the same absolute value; Integer
    -32768 is covered, its absolute value being Single 32768. *)
Theorem abs_idempotent (v : value) :
  wf_value v ->
  exists w, abs v = Ok w /\ wf_value w /\ abs w = Ok w /\
            (forall u, negate v = Ok u -> abs u = Ok w).
Proof.
  intros Hwf. destruct (fst v) eqn:Ht.
  - destruct (wf_integer_bytes v Hwf Ht) as (b0 & b1 & -> & H0 & H1).
    destruct (integer_decode_encode _ Hwf Ht)
      as (n & u & Hn & Hback & _ & _ & Hr & _).
    unfold abs at 1, negate. cbn [fst]. rewrite Hn. cbn [rbind].
    destruct (Z.eq_dec n (- 32768)) as [->|Hmin].
    + exists (SNG, [0; 0; 0; 0x90]). split; [reflexivity|].
      split; [split; [reflexivity|];
              repeat (apply Forall_cons; [unfold is_byte; lia|]); apply Forall_nil|].
      split; [reflexivity|]. intros u' Hu. cbn in Hu. injection Hu as <-.
      reflexivity.
    + destruct (int_to_integer_signed_ok (Z.abs n)) as (w & Hw & Tw & Ww & Hval);
        [lia|].
      exists w. destruct (Z.eqb_spec (Z.abs n) 32768); [lia|].
      split; [assumption|]. split; [assumption|]. split.
      * unfold abs. rewrite Tw, Hval. cbn [rbind]. rewrite Z.abs_idemp.
        destruct (Z.eqb_spec (Z.abs n) 32768); [lia|]. assumption.
      * intros u'. destruct (Z.eqb_spec (- n) 32768); [lia|]. intros Hu.
        destruct (int_to_integer_signed_ok (- n)) as (w' & Hw' & Tw' & _ & Hval');
          [lia|].
        rewrite Hw' in Hu. injection Hu as <-.
        unfold abs. rewrite Tw', Hval'. cbn [rbind]. rewrite Z.abs_opp.
        destruct (Z.eqb_spec (Z.abs n) 32768); [lia|]. assumption.
  - destruct (wf_float_bytes v Hwf (or_introl Ht))
      as [(a & b & c & d & -> & Hc) | (a & b & c & d & e & f & g & h & -> & _)];
      [|discriminate].
    exists (SNG, [a; b; Z.land c 0x7F; d]). split; [reflexivity|].
    split; [apply (wf_single a b c d); [assumption|now apply land_7f_byte]|].
    split.
    + unfold abs, update_sign_byte. cbn [fst snd rev app rbind].
      now rewrite land_7f_twice.
    + intros u Hu. cbn in Hu. injection Hu as <-.
      unfold abs, update_sign_byte. cbn [fst snd rev app rbind].
      now rewrite land_7f_lxor_80.
  - destruct (wf_float_bytes v Hwf (or_intror Ht))
      as [(a & b & c & d & -> & _) | (a & b & c & d & e & f & g & h & -> & Hg)];
      [discriminate|].
    exists (DBL, [a; b; c; d; e; f; Z.land g 0x7F; h]). split; [reflexivity|].
    split; [apply (wf_double a b c d e f g h); [assumption|now apply land_7f_byte]|].
    split.
    + unfold abs, update_sign_byte. cbn [fst snd rev app rbind].
      now rewrite land_7f_twice.
    + intros u Hu. cbn in Hu. injection Hu as <-.
      unfold abs, update_sign_byte. cbn [fst snd rev app rbind].
      now rewrite land_7f_lxor_80.
  - exists v. unfold abs, negate. rewrite Ht. repeat split; try assumption;
      try apply Hwf. intros u Hu. injection Hu as <-. now rewrite Ht.
Qed.

Lemma abs_idempotent_witness :
  exists w, abs (SNG, [0; 0; 0x80; 0x81]) = Ok w /\ wf_value w /\ abs w = Ok w /\
            (forall u, negate (SNG, [0; 0; 0x80; 0x81]) = Ok u -> abs u = Ok w).
Proof. apply (abs_idempotent (SNG, [0; 0; 0x80; 0x81]) wf_single_minus_1). Defined.

(** ** Bitwise operators *)

Lemma to_unsigned_integer (b0 b1 : Z) :
  to_unsigned (INT, [b0; b1]) = Ok (256 * b1 + b0).
Proof. reflexivity. Qed.

Lemma word_low (b0 b1 : Z) : is_byte b0 -> Z.land (256 * b1 + b0) 0xff = b0.
Proof.
  unfold is_byte. intros H0. rewrite land_ff.
  symmetry. apply Z.mod_unique with (q := b1); lia.
Qed.

Lemma word_high (b0 b1 : Z) : is_byte b0 -> Z.shiftr (256 * b1 + b0) 8 = b1.
Proof.
  unfold is_byte. intros H0. rewrite shiftr_8.
  symmetry. apply Z.div_unique with (r := b0); lia.
Qed.

Lemma word_join (n : Z) : n = 256 * Z.shiftr n 8 + Z.land n 0xff.
Proof. rewrite land_ff, shiftr_8. apply Z.div_mod. lia. Qed.

(** A bit operation that keeps zero works on the two bytes of a word
    separately. *)
Lemma bytewise (op : Z -> Z -> Z) (f : bool -> bool -> bool) :
  f false false = false ->
  (forall a b n, 0 <= n -> Z.testbit (op a b) n = f (Z.testbit a n) (Z.testbit b n)) ->
  forall a0 a1 b0 b1, is_byte a0 -> is_byte a1 -> is_byte b0 -> is_byte b1 ->
  op (256 * a1 + a0) (256 * b1 + b0) = 256 * op a1 b1 + op a0 b0 /\
  is_byte (op a0 b0) /\ is_byte (op a1 b1).
Proof.
  intros Hf Hop a0 a1 b0 b1 Ha0 Ha1 Hb0 Hb1.
  assert (Hbyte : forall a b, is_byte a -> is_byte b -> is_byte (op a b)).
  { intros a b Ha Hb. unfold is_byte in *.
    assert (Hhigh : forall n, 8 <= n -> Z.testbit (op a b) n = false).
    { intros n Hn. rewrite Hop by lia.
      rewrite (Z.bits_above_log2 a n), (Z.bits_above_log2 b n); try lia; try assumption.
      - destruct (Z.eq_dec b 0) as [->|]; [cbn; lia|].
        assert (Z.log2 b < 8) by (apply Z.log2_lt_pow2; lia). lia.
      - destruct (Z.eq_dec a 0) as [->|]; [cbn; lia|].
        assert (Z.log2 a < 8) by (apply Z.log2_lt_pow2; lia). lia. }
    assert (Hnn : 0 <= op a b).
    { apply Z.bits_iff_nonneg_ex. exists 8. intros m Hm. apply Hhigh. lia. }
    split; [assumption|].
    destruct (Z.eq_dec (op a b) 0) as [->|Hnz]; [lia|].
    destruct (Z.lt_ge_cases (op a b) 256) as [|Hge]; [assumption|].
    assert (Hl : 8 <= Z.log2 (op a b)) by (apply Z.log2_le_pow2; lia).
    pose proof (Z.bit_log2 (op a b) ltac:(lia)) as Hbit.
    rewrite Hhigh in Hbit by lia. discriminate. }
  split; [|split; now apply Hbyte].
  rewrite (word_join (op (256 * a1 + a0) (256 * b1 + b0))).
  assert (Hlow : Z.land (op (256 * a1 + a0) (256 * b1 + b0)) 0xff = op a0 b0).
  { apply Z.bits_inj'. intros n Hn.
    rewrite Z.land_spec, !Hop by lia.
    rewrite <- (word_low a0 a1 Ha0) at 2. rewrite <- (word_low b0 b1 Hb0) at 2.
    rewrite !Z.land_spec.
    destruct (Z.testbit 0xff n); [now rewrite !andb_true_r|].
    now rewrite !andb_false_r, Hf. }
  assert (Hhigh : Z.shiftr (op (256 * a1 + a0) (256 * b1 + b0)) 8 = op a1 b1).
  { apply Z.bits_inj'. intros n Hn.
    rewrite Z.shiftr_spec, !Hop by lia.
    rewrite <- (word_high a0 a1 Ha0) at 2. rewrite <- (word_high b0 b1 Hb0) at 2.
    now rewrite !Z.shiftr_spec by lia. }
  now rewrite Hlow, Hhigh.
Qed.

Lemma land_bytewise (a0 a1 b0 b1 : Z) :
  is_byte a0 -> is_byte a1 -> is_byte b0 -> is_byte b1 ->
  Z.land (256 * a1 + a0) (256 * b1 + b0) = 256 * Z.land a1 b1 + Z.land a0 b0 /\
  is_byte (Z.land a0 b0) /\ is_byte (Z.land a1 b1).
Proof.
  apply (bytewise Z.land andb); [reflexivity|]. intros. apply Z.land_spec.
Qed.

Lemma lor_bytewise (a0 a1 b0 b1 : Z) :
  is_byte a0 -> is_byte a1 -> is_byte b0 -> is_byte b1 ->
  Z.lor (256 * a1 + a0) (256 * b1 + b0) = 256 * Z.lor a1 b1 + Z.lor a0 b0 /\
  is_byte (Z.lor a0 b0) /\ is_byte (Z.lor a1 b1).
Proof.
  apply (bytewise Z.lor orb); [reflexivity|]. intros. apply Z.lor_spec.
Qed.

Lemma lxor_bytewise (a0 a1 b0 b1 : Z) :
  is_byte a0 -> is_byte a1 -> is_byte b0 -> is_byte b1 ->
  Z.lxor (256 * a1 + a0) (256 * b1 + b0) = 256 * Z.lxor a1 b1 + Z.lxor a0 b0 /\
  is_byte (Z.lxor a0 b0) /\ is_byte (Z.lxor a1 b1).
Proof.
  apply (bytewise Z.lxor xorb); [reflexivity|]. intros. apply Z.lxor_spec.
Qed.

Lemma complement_byte (b : Z) : is_byte b -> is_byte (255 - b).
Proof. unfold is_byte. lia. Qed.

Lemma complement_word (b0 b1 : Z) :
  0xffff - (256 * b1 + b0) = 256 * (255 - b1) + (255 - b0).
Proof. lia. Qed.

Lemma bitwise_not_bytes (b0 b1 : Z) :
  is_byte b0 -> is_byte b1 ->
  bitwise_not (INT, [b0; b1]) = Ok (INT, [255 - b0; 255 - b1]) /\
  (exists n, integer_to_int (INT, [b0; b1]) false = Ok n /\
             integer_to_int (INT, [255 - b0; 255 - b1]) false = Ok (- n - 1)) /\
  bitwise_not (INT, [255 - b0; 255 - b1]) = Ok (INT, [b0; b1]).
Proof.
  assert (Hnot : forall c0 c1, is_byte c0 -> is_byte c1 ->
            bitwise_not (INT, [c0; c1]) = Ok (INT, [255 - c0; 255 - c1])).
  { intros c0 c1 H0 H1. unfold bitwise_not, to_int, to_integer. cbn [fst rbind].
    rewrite integer_to_int_signed by assumption. cbn [rbind].
    pose proof (int_to_integer_bytes (255 - c0) (255 - c1)
                  (complement_byte c0 H0) (complement_byte c1 H1)) as E.
    unfold int_to_integer in *. unfold is_byte in *.
    destruct (Z.gtb_spec (256 * (255 - c1) + (255 - c0)) 0xffff); [lia|].
    destruct (Z.ltb_spec (256 * (255 - c1) + (255 - c0)) (- 0x8000)); [lia|].
    destruct (Z.ltb_spec (256 * (255 - c1) + (255 - c0)) 0); [lia|].
    cbn [orb] in E.
    destruct (Z.leb_spec 128 c1).
    - destruct (Z.gtb_spec (- (256 * c1 + c0 - 65536) - 1) 0x7fff); [lia|].
      destruct (Z.ltb_spec (- (256 * c1 + c0 - 65536) - 1) (- 0x8000)); [lia|].
      destruct (Z.ltb_spec (- (256 * c1 + c0 - 65536) - 1) 0); [lia|].
      cbn [orb].
      replace (- (256 * c1 + c0 - 65536) - 1)
        with (256 * (255 - c1) + (255 - c0)) by lia.
      exact E.
    - destruct (Z.gtb_spec (- (256 * c1 + c0) - 1) 0x7fff); [lia|].
      destruct (Z.ltb_spec (- (256 * c1 + c0) - 1) (- 0x8000)); [lia|].
      destruct (Z.ltb_spec (- (256 * c1 + c0) - 1) 0); [|lia].
      cbn [orb].
      replace (0x10000 + (- (256 * c1 + c0) - 1))
        with (256 * (255 - c1) + (255 - c0)) by lia.
      exact E. }
  intros H0 H1. split; [now apply Hnot|]. split.
  - eexists. split; [apply integer_to_int_signed; assumption|].
    rewrite integer_to_int_signed by now apply complement_byte.
    unfold is_byte in *. f_equal.
    destruct (Z.leb_spec 128 b1); destruct (Z.leb_spec 128 (255 - b1)); lia.
  - rewrite Hnot by now apply complement_byte.
    repeat f_equal; lia.
Qed.

(** X5: NOT of a well-formed Integer never fails; it complements each of
    the two bytes, the result reads as minus the operand minus one, and NOT
    of the result is the operand. *)
Theorem bitwise_not_complement (b0 b1 : Z) :
  is_byte b0 -> is_byte b1 ->
  bitwise_not (INT, [b0; b1]) = Ok (INT, [255 - b0; 255 - b1]) /\
  (exists n, integer_to_int (INT, [b0; b1]) false = Ok n /\
             integer_to_int (INT, [255 - b0; 255 - b1]) false = Ok (- n - 1)) /\
  bitwise_not (INT, [255 - b0; 255 - b1]) = Ok (INT, [b0; b1]).
Proof. exact (bitwise_not_bytes b0 b1). Qed.

Lemma bitwise_not_complement_witness :
  bitwise_not (INT, [0; 0]) = Ok (INT, [255 - 0; 255 - 0]) /\
  (exists n, integer_to_int (INT, [0; 0]) false = Ok n /\
             integer_to_int (INT, [255 - 0; 255 - 0]) false = Ok (- n - 1)) /\
  bitwise_not (INT, [255 - 0; 255 - 0]) = Ok (INT, [0; 0]).
Proof. apply (bitwise_not_complement 0 0); unfold is_byte; lia. Defined.

Lemma bitwise_bytes (a0 a1 b0 b1 : Z) :
  is_byte a0 -> is_byte a1 -> is_byte b0 -> is_byte b1 ->
  let a := (INT, [a0; a1]) in
  let b := (INT, [b0; b1]) in
  bitwise_and a b = Ok (INT, [Z.land a0 b0; Z.land a1 b1]) /\
  bitwise_or a b = Ok (INT, [Z.lor a0 b0; Z.lor a1 b1]) /\
  bitwise_xor a b = Ok (INT, [Z.lxor a0 b0; Z.lxor a1 b1]) /\
  bitwise_eqv a b = Ok (INT, [255 - Z.lxor a0 b0; 255 - Z.lxor a1 b1]) /\
  bitwise_imp a b = Ok (INT, [Z.lor (255 - a0) b0; Z.lor (255 - a1) b1]).
Proof.
  intros Ha0 Ha1 Hb0 Hb1 a b. subst a b.
  unfold bitwise_and, bitwise_or, bitwise_xor, bitwise_eqv, bitwise_imp.
  rewrite !to_unsigned_integer. cbn [rbind].
  destruct (land_bytewise a0 a1 b0 b1) as (-> & ? & ?); try assumption.
  destruct (lor_bytewise a0 a1 b0 b1) as (-> & ? & ?); try assumption.
  destruct (lxor_bytewise a0 a1 b0 b1) as (-> & ? & ?); try assumption.
  rewrite !complement_word.
  destruct (lor_bytewise (255 - a0) (255 - a1) b0 b1) as (-> & ? & ?);
    try assumption; try now apply complement_byte.
  rewrite !int_to_integer_bytes; try assumption; try now apply complement_byte.
  repeat split.
Qed.

(** X6: on well-formed Integers the bitwise operators AND, OR, XOR, EQV
    and IMP never fail and work byte by byte: each byte of the result is
    that operation on the bytes of the operands at the same place. *)
Theorem bitwise_bytewise (a0 a1 b0 b1 : Z) :
  is_byte a0 -> is_byte a1 -> is_byte b0 -> is_byte b1 ->
  let a := (INT, [a0; a1]) in
  let b := (INT, [b0; b1]) in
  bitwise_and a b = Ok (INT, [Z.land a0 b0; Z.land a1 b1]) /\
  bitwise_or a b = Ok (INT, [Z.lor a0 b0; Z.lor a1 b1]) /\
  bitwise_xor a b = Ok (INT, [Z.lxor a0 b0; Z.lxor a1 b1]) /\
  bitwise_eqv a b = Ok (INT, [255 - Z.lxor a0 b0; 255 - Z.lxor a1 b1]) /\
  bitwise_imp a b = Ok (INT, [Z.lor (255 - a0) b0; Z.lor (255 - a1) b1]).
Proof. exact (bitwise_bytes a0 a1 b0 b1). Qed.

Lemma bitwise_bytewise_witness :
  bitwise_and (INT, [0xff; 0xff]) (INT, [0xff; 0x00])
    = Ok (INT, [Z.land 0xff 0xff; Z.land 0xff 0x00]) /\
  bitwise_or (INT, [0xff; 0xff]) (INT, [0xff; 0x00])
    = Ok (INT, [Z.lor 0xff 0xff; Z.lor 0xff 0x00]) /\
  bitwise_xor (INT, [0xff; 0xff]) (INT, [0xff; 0x00])
    = Ok (INT, [Z.lxor 0xff 0xff; Z.lxor 0xff 0x00]) /\
  bitwise_eqv (INT, [0xff; 0xff]) (INT, [0xff; 0x00])
    = Ok (INT, [255 - Z.lxor 0xff 0xff; 255 - Z.lxor 0xff 0x00]) /\
  bitwise_imp (INT, [0xff; 0xff]) (INT, [0xff; 0x00])
    = Ok (INT, [Z.lor (255 - 0xff) 0xff; Z.lor (255 - 0xff) 0x00]).
Proof.
  apply (bitwise_bytewise 0xff 0xff 0xff 0x00); unfold is_byte; lia.
Defined.

Lemma de_morgan_byte (a b : Z) :
  is_byte a -> is_byte b ->
  255 - Z.land a b = Z.lor (255 - a) (255 - b) /\
  255 - Z.lor a b = Z.land (255 - a) (255 - b).
Proof.
  intros Ha Hb.
  assert (H : forall_from (fun b => (255 - Z.land a b =? Z.lor (255 - a) (255 - b)) &&
                                    (255 - Z.lor a b =? Z.land (255 - a) (255 - b)))
                          0 256 = true).
  { revert a Ha.
    assert (G : forall a, 0 <= a < 0 + 256 ->
              (fun a => forall_from
                 (fun b => (255 - Z.land a b =? Z.lor (255 - a) (255 - b)) &&
                           (255 - Z.lor a b =? Z.land (255 - a) (255 - b)))
                 0 256) a = true).
    { apply zrange_forallb. vm_compute. reflexivity. }
    intros a Ha. apply G. exact Ha. }
  pose proof (forall_from_spec _ _ _ H b Hb) as E. cbv beta in E.
  apply andb_prop in E as [E1 E2]. apply Z.eqb_eq in E1, E2. auto.
Qed.

(** X7: on well-formed Integers, EQV is the NOT of XOR, IMP is the OR of
    the negated first operand with the second, and NOT turns AND into OR
    and OR into AND of the negated operands. *)
Theorem bitwise_laws (a b : value) :
  wf_value a -> fst a = INT -> wf_value b -> fst b = INT ->
  exists x o y na nb,
    bitwise_xor a b = Ok x /\ bitwise_not x = bitwise_eqv a b /\
    bitwise_not a = Ok na /\ bitwise_not b = Ok nb /\
    bitwise_or na b = bitwise_imp a b /\
    bitwise_and a b = Ok y /\ bitwise_not y = bitwise_or na nb /\
    bitwise_or a b = Ok o /\ bitwise_not o = bitwise_and na nb.
Proof.
  intros Wa Ta Wb Tb.
  destruct (wf_integer_bytes a Wa Ta) as (a0 & a1 & -> & Ha0 & Ha1).
  destruct (wf_integer_bytes b Wb Tb) as (b0 & b1 & -> & Hb0 & Hb1).
  destruct (bitwise_bytes a0 a1 b0 b1 Ha0 Ha1 Hb0 Hb1)
    as (Hand & Hor & Hxor & Heqv & Himp). cbv zeta in *.
  destruct (bitwise_not_bytes a0 a1 Ha0 Ha1) as (Hna & _).
  destruct (bitwise_not_bytes b0 b1 Hb0 Hb1) as (Hnb & _).
  destruct (land_bytewise a0 a1 b0 b1) as (_ & Hl0 & Hl1); try assumption.
  destruct (lor_bytewise a0 a1 b0 b1) as (_ & Ho0 & Ho1); try assumption.
  destruct (lxor_bytewise a0 a1 b0 b1) as (_ & Hx0 & Hx1); try assumption.
  do 5 eexists.
  split; [exact Hxor|].
  split; [rewrite Heqv; apply bitwise_not_bytes; assumption|].
  split; [exact Hna|]. split; [exact Hnb|].
  split.
  { rewrite Himp.
    apply (bitwise_bytes (255 - a0) (255 - a1) b0 b1);
      try assumption; now apply complement_byte. }
  split; [exact Hand|]. split.
  { destruct (bitwise_not_bytes _ _ Hl0 Hl1) as (-> & _).
    destruct (bitwise_bytes (255 - a0) (255 - a1) (255 - b0) (255 - b1))
      as (_ & -> & _); try now apply complement_byte.
    destruct (de_morgan_byte a0 b0 Ha0 Hb0) as (-> & _).
    destruct (de_morgan_byte a1 b1 Ha1 Hb1) as (-> & _). reflexivity. }
  split; [exact Hor|].
  destruct (bitwise_not_bytes _ _ Ho0 Ho1) as (-> & _).
  destruct (bitwise_bytes (255 - a0) (255 - a1) (255 - b0) (255 - b1))
    as (-> & _); try now apply complement_byte.
  destruct (de_morgan_byte a0 b0 Ha0 Hb0) as (_ & ->).
  destruct (de_morgan_byte a1 b1 Ha1 Hb1) as (_ & ->). reflexivity.
Qed.

Lemma bitwise_laws_witness :
  exists x o y na nb,
    bitwise_xor (INT, [0xff; 0x7f]) (INT, [0x01; 0x00]) = Ok x /\
    bitwise_not x = bitwise_eqv (INT, [0xff; 0x7f]) (INT, [0x01; 0x00]) /\
    bitwise_not (INT, [0xff; 0x7f]) = Ok na /\
    bitwise_not (INT, [0x01; 0x00]) = Ok nb /\
    bitwise_or na (INT, [0x01; 0x00])
      = bitwise_imp (INT, [0xff; 0x7f]) (INT, [0x01; 0x00]) /\
    bitwise_and (INT, [0xff; 0x7f]) (INT, [0x01; 0x00]) = Ok y /\
    bitwise_not y = bitwise_or na nb /\
    bitwise_or (INT, [0xff; 0x7f]) (INT, [0x01; 0x00]) = Ok o /\
    bitwise_not o = bitwise_and na nb.
Proof.
  apply (bitwise_laws (INT, [0xff; 0x7f]) (INT, [0x01; 0x00])).
  - exact wf_integer_32767.
  - reflexivity.
  - exact wf_integer_1.
  - reflexivity.
Defined.

(** ** Comparison operators *)

(** X8: a comparison operator returns Integer -1 or Integer 0, which
    [to_bool] reads as true and false; the result of an operator is the
    bitwise NOT of the result of its opposite on the same operands (less
    and greater-or-equal, greater and less-or-equal, equal and not equal),
    and an operator fails exactly when its opposite does, with the same
    fault. *)
Theorem comparison_opposites (left right : value) (self : Values) :
  opposite (lt left right self) (gte left right self) /\
  opposite (gt left right self) (lte left right self) /\
  opposite (equals left right self) (not_equals left right self).
Proof.
  unfold opposite, lt, gte, gt, lte, equals, not_equals, bind, ret.
  repeat split.
  - destruct (bool_gt right left self) as [[[|]|e] s]; repeat split; auto.
  - destruct (bool_gt left right self) as [[[|]|e] s]; repeat split; auto.
  - destruct (_bool_eq left right self) as [[[|]|e] s]; repeat split; auto.
Qed.

(** ** Strings among numbers *)

Lemma value_eq_dec (v w : value) : v = w \/ v <> w.
Proof.
  destruct (list_eq_dec Z.eq_dec (snd v) (snd w)) as [Hs|Hs];
    [|right; congruence].
  destruct v as [[] ?], w as [[] ?]; cbn [snd] in Hs; subst;
    (left; reflexivity) || (right; discriminate).
Qed.

Lemma float_safe_run_error (c : error.code) (self : Values) :
  float_safe (lift (Raise (RunError c))) self = (Raise (RunError c), self).
Proof. reflexivity. Qed.

Lemma to_most_precise_mismatch (left right : value) (self : Values) :
  fst left = STR \/ fst right = STR ->
  to_most_precise left right self = (Raise (RunError error.TYPE_MISMATCH), self).
Proof.
  unfold to_most_precise, to_double, to_single, to_integer, bind, lift, ret, float_safe.
  intros [H | H]; rewrite H; destruct left as [[] ?], right as [[] ?];
    cbn in H; try discriminate; reflexivity.
Qed.

Lemma add_mismatch (left right : value) (self : Values) :
  fst left = STR \/ fst right = STR ->
  add left right self = (Raise (RunError error.TYPE_MISMATCH), self).
Proof.
  intros H. unfold add, float_safe, bind.
  now rewrite (to_most_precise_mismatch left right self H).
Qed.

Lemma negate_type (v w : value) :
  wf_value v -> negate v = Ok w -> (fst v = STR <-> fst w = STR).
Proof.
  intros Hwf. unfold negate. destruct (fst v) eqn:Ht.
  - destruct (integer_to_int v false) as [n|]; [|discriminate]. cbn [rbind].
    destruct (- n =? 32768).
    + destruct (fp.from_int fp.Single (- n)) as [f|] eqn:Hf; [|discriminate].
      cbn [rbind]. intros H. injection H as <-.
      rewrite pack_type, (from_int_cls _ _ _ Hf). split; discriminate.
    + unfold int_to_integer. destruct (_ || _); [discriminate|].
      cbv zeta. destruct w as [t bs]. intros H.
      assert (Hw : t = INT) by congruence. rewrite Hw. cbn [fst].
      split; discriminate.
  - destruct (update_sign_byte _ _); [|discriminate]. intros H; injection H as <-.
    cbn [fst]. split; congruence.
  - destruct (update_sign_byte _ _); [|discriminate]. intros H; injection H as <-.
    cbn [fst]. split; congruence.
  - intros H; injection H as <-. tauto.
Qed.

(** X9: with a string on one side and a number on the other, the binary
    operator +, the sum, the difference and the six comparison operators
    all fail with Type Mismatch, whichever side the string is on, and the
    object and its screen are left as they were. *)
Theorem mixed_operands_type_mismatch
  (store : list Z -> M value) (left right : value) (self : Values) :
  wf_value left -> wf_value right ->
  (fst left = STR /\ fst right <> STR) \/ (fst left <> STR /\ fst right = STR) ->
  let failed := (Raise (RunError error.TYPE_MISMATCH), self) in
  plus store left right self = failed /\
  add left right self = failed /\
  subtract left right self = failed /\
  equals left right self = failed /\
  not_equals left right self = failed /\
  gt left right self = failed /\
  gte left right self = failed /\
  lt left right self = failed /\
  lte left right self = failed.
Proof.
  intros Wl Wr Hmix failed. subst failed.
  assert (Hany : fst left = STR \/ fst right = STR) by tauto.
  assert (Hany' : fst right = STR \/ fst left = STR) by tauto.
  assert (Hgt : forall l r, (fst l = STR /\ fst r <> STR) \/ (fst l <> STR /\ fst r = STR) ->
            bool_gt l r self = (Raise (RunError error.TYPE_MISMATCH), self)).
  { intros l r [[Hl Hr] | [Hl Hr]]; unfold bool_gt.
    - rewrite Hl. unfold lift, pass_string. rewrite Hl. cbn [rbind].
      destruct (fst r); try reflexivity. congruence.
    - destruct (fst l) eqn:El; try congruence; unfold bind;
        rewrite (to_most_precise_mismatch l r self (or_intror Hr)); reflexivity. }
  assert (Heq : _bool_eq left right self = (Raise (RunError error.TYPE_MISMATCH), self)).
  { destruct Hmix as [[Hl Hr] | [Hl Hr]]; unfold _bool_eq.
    - rewrite Hl. unfold lift, pass_string. rewrite Hl. cbn [rbind].
      destruct (fst right); try reflexivity. congruence.
    - destruct (fst left) eqn:El; try congruence; unfold bind;
        rewrite (to_most_precise_mismatch left right self (or_intror Hr)); reflexivity. }
  assert (Hmix' : (fst right = STR /\ fst left <> STR) \/
                  (fst right <> STR /\ fst left = STR)) by tauto.
  repeat split.
  - unfold plus. destruct Hmix as [[Hl Hr] | [Hl Hr]].
    + rewrite Hl. unfold concat, bind, lift, pass_string. rewrite Hl.
      destruct (fst right); try reflexivity. congruence.
    + destruct (fst left) eqn:El; try congruence;
        apply add_mismatch; rewrite ?El; auto.
  - now apply add_mismatch.
  - unfold subtract, float_safe, bind, lift.
    destruct (negate_twice right Wr) as [Hok Hmin].
    destruct (negate right) as [w|e] eqn:Hw.
    + rewrite add_mismatch; [reflexivity|].
      destruct (negate_type right w Wr Hw). tauto.
    + exfalso. destruct (value_eq_dec right (INT, [0x00; 0x80])) as [E|E].
      * destruct (Hmin E) as [H _]. congruence.
      * destruct (Hok E) as (w & H & _). congruence.
  - unfold equals, bind. now rewrite Heq.
  - unfold not_equals, bind. now rewrite Heq.
  - unfold gt, bind. now rewrite Hgt.
  - unfold gte, bind. now rewrite Hgt.
  - unfold lt, bind. now rewrite Hgt.
  - unfold lte, bind. now rewrite Hgt.
Qed.
Lemma wf_string_handle : wf_value (STR, [2; 0; 0]).
Proof.
  split; [reflexivity|].
  repeat (apply Forall_cons; [unfold is_byte; lia|]). apply Forall_nil.
Qed.

Lemma mixed_operands_type_mismatch_witness :
  let failed := (Raise (RunError error.TYPE_MISMATCH), soft_values) in
  plus store_in_handle (STR, [2; 0; 0]) (INT, [0x01; 0x00]) soft_values = failed /\
  add (STR, [2; 0; 0]) (INT, [0x01; 0x00]) soft_values = failed /\
  subtract (STR, [2; 0; 0]) (INT, [0x01; 0x00]) soft_values = failed /\
  equals (STR, [2; 0; 0]) (INT, [0x01; 0x00]) soft_values = failed /\
  not_equals (STR, [2; 0; 0]) (INT, [0x01; 0x00]) soft_values = failed /\
  gt (STR, [2; 0; 0]) (INT, [0x01; 0x00]) soft_values = failed /\
  gte (STR, [2; 0; 0]) (INT, [0x01; 0x00]) soft_values = failed /\
  lt (STR, [2; 0; 0]) (INT, [0x01; 0x00]) soft_values = failed /\
  lte (STR, [2; 0; 0]) (INT, [0x01; 0x00]) soft_values = failed.
Proof.
  apply (mixed_operands_type_mismatch store_in_handle (STR, [2; 0; 0])
                                      (INT, [0x01; 0x00]) soft_values).
  - exact wf_string_handle.
  - exact wf_integer_1.
  - left. split; [reflexivity|discriminate].
Defined.

(** ** Hexadecimal and octal constants *)

Lemma hexdigit_value (c : ascii) :
  is_hexdigit c = true -> exists d, digit_of c = Some d /\ 0 <= d < 16.
Proof.
  destruct c as [[] [] [] [] [] [] [] []]; intros H; try discriminate H;
    eexists; (split; [cbv; reflexivity|cbv; split; [discriminate|reflexivity]]).
Qed.

Lemma octdigit_value (c : ascii) :
  is_octdigit c = true -> exists d, digit_of c = Some d /\ 0 <= d < 8.
Proof.
  destruct c as [[] [] [] [] [] [] [] []]; intros H; try discriminate H;
    eexists; (split; [cbv; reflexivity|cbv; split; [discriminate|reflexivity]]).
Qed.

Lemma base_value_digits (base : Z) (P : ascii -> bool) :
  (forall c, P c = true -> exists d, digit_of c = Some d /\ 0 <= d < base) ->
  forall ds acc, forallb P ds = true ->
  base_value base ds acc = Ok (fold_left (radix_step base) ds acc).
Proof.
  intros HP. induction ds as [|c ds IH]; intros acc H; [reflexivity|].
  cbn [forallb] in H. apply andb_prop in H as [Hc Hds].
  destruct (HP c Hc) as (d & Hd & Hr).
  cbn [base_value fold_left]. unfold radix_step at 2. rewrite Hd.
  destruct (Z.ltb_spec d base); [|lia]. now apply IH.
Qed.

Lemma word_value_digits (base : Z) (P : ascii -> bool) (ds : list ascii) :
  (forall c, P c = true -> exists d, digit_of c = Some d /\ 0 <= d < base) ->
  forallb P ds = true -> word_value ds base = Ok (radix_value base ds).
Proof.
  intros HP H. destruct ds as [|c ds]; [reflexivity|].
  unfold word_value, int_base. now apply (base_value_digits base P).
Qed.

Lemma digit_of_nonneg (c : ascii) :
  0 <= match digit_of c with Some d => d | None => 0 end.
Proof.
  unfold digit_of, is_digit.
  destruct (Z.leb_spec 48 (ord c)); cbn [andb].
  - destruct (ord c <=? 57); [lia|].
    destruct (Z.leb_spec 97 (ord c)); cbn [andb].
    + destruct (ord c <=? 122); [lia|].
      destruct (Z.leb_spec 65 (ord c)); cbn [andb]; [|lia].
      destruct (ord c <=? 90); lia.
    + destruct (Z.leb_spec 65 (ord c)); cbn [andb]; [|lia].
      destruct (ord c <=? 90); lia.
  - destruct (Z.leb_spec 97 (ord c)); cbn [andb]; [lia|].
    destruct (Z.leb_spec 65 (ord c)); cbn [andb]; lia.
Qed.

Lemma radix_fold_nonneg (base : Z) (ds : list ascii) :
  0 <= base -> forall acc, 0 <= acc -> 0 <= fold_left (radix_step base) ds acc.
Proof.
  intros Hb. induction ds as [|c ds IH]; intros acc Ha; [assumption|].
  cbn [fold_left]. apply IH. unfold radix_step.
  pose proof (digit_of_nonneg c). nia.
Qed.

Lemma int_to_integer_word (n : Z) :
  0 <= n ->
  int_to_integer n true =
    if n <=? 65535 then Ok (INT, [n mod 256; n / 256])
    else Raise (RunError error.OVERFLOW).
Proof.
  intros Hn. unfold int_to_integer.
  destruct (Z.leb_spec n 65535); destruct (Z.gtb_spec n 0xffff); try lia;
    [|reflexivity].
  destruct (Z.ltb_spec n (- 0x8000)); [lia|]. cbn [orb].
  destruct (Z.ltb_spec n 0); [lia|]. now rewrite land_ff, shiftr_8.
Qed.

Lemma hex_word_digits (ds : list ascii) : forall rest p word,
  forallb is_hexdigit ds = true -> stops_at is_hexdigit rest = true ->
  hex_word (ds ++ rest) p word = (word ++ ds, (p + List.length ds)%nat).
Proof.
  induction ds as [|c ds IH]; intros rest p word Hds Hrest.
  - cbn [app List.length]. rewrite app_nil_r, Nat.add_0_r.
    destruct rest as [|c rest]; [reflexivity|].
    cbn [stops_at] in Hrest. apply negb_true_iff in Hrest.
    cbn [hex_word]. unfold is_hexdigit in Hrest. now rewrite Hrest.
  - cbn [forallb] in Hds. apply andb_prop in Hds as [Hc Hds].
    cbn [app hex_word]. unfold is_hexdigit in Hc. rewrite Hc.
    rewrite IH by assumption. rewrite <- app_assoc. cbn [app List.length].
    f_equal. lia.
Qed.

Lemma oct_word_body (body : list ascii) : forall rest p word,
  forallb is_oct_body body = true -> stops_at is_oct_body rest = true ->
  oct_word (body ++ rest) p word = (word ++ trim body, (p + List.length body)%nat).
Proof.
  induction body as [|c body IH]; intros rest p word Hb Hrest.
  - cbn [app List.length trim filter]. rewrite app_nil_r, Nat.add_0_r.
    destruct rest as [|c rest]; [reflexivity|].
    cbn [stops_at] in Hrest. apply negb_true_iff in Hrest.
    unfold is_oct_body, is_octdigit in Hrest.
    apply orb_false_iff in Hrest as [Ho Hw].
    cbn [oct_word]. now rewrite Hw, Ho.
  - cbn [forallb] in Hb. apply andb_prop in Hb as [Hc Hb].
    cbn [app oct_word]. unfold trim. cbn [filter]. fold (trim body).
    destruct (char_in c number_whitespace) eqn:Hw; cbn [negb].
    + rewrite IH by assumption. cbn [List.length]. f_equal. lia.
    + unfold is_oct_body in Hc. rewrite Hw, orb_false_r in Hc.
      unfold is_octdigit in Hc. rewrite Hc.
      rewrite IH by assumption. rewrite <- app_assoc. cbn [app List.length].
      f_equal. lia.
Qed.

Lemma trim_octdigits (body : list ascii) :
  forallb is_oct_body body = true -> forallb is_octdigit (trim body) = true.
Proof.
  induction body as [|c body IH]; [reflexivity|].
  cbn [forallb]. intros H. apply andb_prop in H as [Hc Hb].
  unfold trim. cbn [filter]. fold (trim body).
  destruct (char_in c number_whitespace) eqn:Hw; cbn [negb]; [now apply IH|].
  cbn [forallb]. unfold is_oct_body in Hc. rewrite Hw, orb_false_r in Hc.
  rewrite Hc. now apply IH.
Qed.

Lemma peek_at (pre rest : list ascii) :
  peek {| buf := pre ++ rest; pos := List.length pre |} = nth_error rest 0.
Proof.
  unfold peek. cbn [buf pos]. rewrite nth_error_app2 by lia.
  now rewrite Nat.sub_diag.
Qed.

Lemma read_at (pre : list ascii) (c : ascii) (rest : list ascii) :
  read {| buf := pre ++ c :: rest; pos := List.length pre |} =
    {| buf := (pre ++ [c]) ++ rest; pos := List.length (pre ++ [c]) |}.
Proof.
  unfold read. cbn [buf pos]. rewrite !length_app. cbn [List.length].
  destruct (Nat.ltb_spec (List.length pre) (List.length pre + S (List.length rest)));
    [|lia].
  rewrite <- app_assoc. cbn [app]. f_equal. lia.
Qed.

Lemma unread_at (pre rest : list ascii) :
  skipn (List.length pre) (pre ++ rest) = rest.
Proof. rewrite skipn_app, skipn_all, Nat.sub_diag. reflexivity. Qed.

Lemma tokenise_hex_word
  (pre ds rest : list ascii) (h : ascii) (outs : list Z) (self : Values) :
  upper h = "H"%char -> forallb is_hexdigit ds = true ->
  stops_at is_hexdigit rest = true ->
  let text := pre ++ "&"%char :: h :: ds ++ rest in
  tokenise_number {| buf := text; pos := List.length pre |} outs self =
    (constant_written text (List.length pre + 2 + List.length ds) outs
                      tk.T_HEX (radix_value 16 ds), self).
Proof.
  intros Hh Hds Hrest text. subst text.
  unfold tokenise_number. rewrite peek_at. cbn [nth_error Ascii.eqb].
  cbn -[read peek_upper_is _tokenise_hex _tokenise_oct app]. rewrite read_at.
  unfold peek_upper_is. rewrite peek_at. cbn [nth_error]. rewrite Hh.
  cbn [Ascii.eqb Bool.eqb]. cbn -[_tokenise_hex app]. unfold lift. f_equal.
  unfold _tokenise_hex. rewrite read_at.
  cbn [buf pos]. rewrite unread_at.
  rewrite (hex_word_digits ds rest _ [] Hds Hrest). cbn [app].
  rewrite (word_value_digits 16 is_hexdigit ds hexdigit_value Hds). cbn [rbind].
  rewrite int_to_integer_word
    by (apply radix_fold_nonneg; lia).
  unfold constant_written.
  destruct (radix_value 16 ds <=? 65535); [|reflexivity].
  cbn [rbind to_bytes snd]. rewrite <- !app_assoc. cbn [app].
  repeat f_equal. rewrite !length_app. cbn [List.length]. lia.
Qed.

(** X10: a hexadecimal constant is the ampersand, the letter H in either
    case and the longest run of hexadecimal digits; anything else ends it,
    whitespace included.  The cursor is left behind the last digit; the
    token is the lead byte of hexadecimal constants and the value as two
    bytes, low byte first; no digit at all gives the value zero, and a
    value above 65535 fails with Overflow. *)
Theorem tokenise_hex_constant
  (pre ds rest : list ascii) (h : ascii) (outs : list Z) (self : Values) :
  upper h = "H"%char -> forallb is_hexdigit ds = true ->
  stops_at is_hexdigit rest = true ->
  let text := pre ++ "&"%char :: h :: ds ++ rest in
  tokenise_number {| buf := text; pos := List.length pre |} outs self =
    (constant_written text (List.length pre + 2 + List.length ds) outs
                      tk.T_HEX (radix_value 16 ds), self).
Proof. exact (tokenise_hex_word pre ds rest h outs self). Qed.

Lemma tokenise_hex_constant_witness :
  tokenise_number {| buf := str "A=" ++ "&"%char :: "h"%char :: str "1f" ++ str " +1";
                     pos := List.length (str "A=") |} [] soft_values =
    (constant_written (str "A=" ++ "&"%char :: "h"%char :: str "1f" ++ str " +1")
                      (List.length (str "A=") + 2 + List.length (str "1f")) []
                      tk.T_HEX (radix_value 16 (str "1f")), soft_values).
Proof.
  apply (tokenise_hex_constant (str "A=") (str "1f") (str " +1") "h" [] soft_values);
    reflexivity.
Defined.

Lemma tokenise_oct_word
  (pre body rest : list ascii) (o : option ascii) (outs : list Z) (self : Values) :
  match o with
  | Some c => upper c = "O"%char
  | None => stops_at is_base_letter (body ++ rest) = true
  end ->
  forallb is_oct_body body = true -> stops_at is_oct_body rest = true ->
  let text := pre ++ "&"%char :: opt_char o ++ body ++ rest in
  tokenise_number {| buf := text; pos := List.length pre |} outs self =
    (constant_written text
       (List.length pre + 1 + List.length (opt_char o) + List.length body) outs
       tk.T_OCT (radix_value 8 (trim body)), self).
Proof.
  intros Ho Hbody Hrest text. subst text.
  unfold tokenise_number. rewrite peek_at. cbn [nth_error Ascii.eqb].
  cbn -[read peek_upper_is _tokenise_hex _tokenise_oct app opt_char].
  rewrite read_at.
  assert (Hnot_h : peek_upper_is
            {| buf := (pre ++ ["&"%char]) ++ opt_char o ++ body ++ rest;
               pos := List.length (pre ++ ["&"%char]) |} "H" = false).
  { unfold peek_upper_is. rewrite peek_at.
    destruct o as [c|]; cbn [opt_char app nth_error].
    - rewrite Ho. reflexivity.
    - destruct (body ++ rest) as [|c r]; [reflexivity|]. cbn [nth_error].
      cbn [stops_at] in Ho. apply negb_true_iff in Ho.
      unfold is_base_letter, char_in, str in Ho.
      cbn [list_ascii_of_string existsb] in Ho.
      apply orb_false_iff in Ho as [Ho _]. exact Ho. }
  rewrite Hnot_h. unfold lift. f_equal.
  unfold _tokenise_oct.
  assert (Hins : (if peek_upper_is
                       {| buf := (pre ++ ["&"%char]) ++ opt_char o ++ body ++ rest;
                          pos := List.length (pre ++ ["&"%char]) |} "O"
                  then read {| buf := (pre ++ ["&"%char]) ++ opt_char o ++ body ++ rest;
                               pos := List.length (pre ++ ["&"%char]) |}
                  else {| buf := (pre ++ ["&"%char]) ++ opt_char o ++ body ++ rest;
                          pos := List.length (pre ++ ["&"%char]) |}) =
                 {| buf := ((pre ++ ["&"%char]) ++ opt_char o) ++ body ++ rest;
                    pos := List.length ((pre ++ ["&"%char]) ++ opt_char o) |}).
  { unfold peek_upper_is. rewrite peek_at.
    destruct o as [c|]; cbn [opt_char app nth_error].
    - rewrite Ho. cbn [Ascii.eqb Bool.eqb]. cbn -[read app]. apply read_at.
    - rewrite app_nil_r.
      destruct (body ++ rest) as [|c r]; [reflexivity|]. cbn [nth_error].
      cbn [stops_at] in Ho. apply negb_true_iff in Ho.
      unfold is_base_letter, char_in, str in Ho.
      cbn [list_ascii_of_string existsb] in Ho.
      apply orb_false_iff in Ho as [_ Ho]. rewrite orb_false_r in Ho.
      now rewrite Ho. }
  rewrite Hins. cbn [buf pos]. rewrite unread_at.
  rewrite (oct_word_body body rest _ [] Hbody Hrest). cbn [app].
  rewrite (word_value_digits 8 is_octdigit (trim body) octdigit_value
             (trim_octdigits body Hbody)). cbn [rbind].
  rewrite int_to_integer_word by (apply radix_fold_nonneg; lia).
  unfold constant_written.
  destruct (radix_value 8 (trim body) <=? 65535); [|reflexivity].
  cbn [rbind to_bytes snd]. rewrite <- !app_assoc. cbn [app].
  repeat f_equal. rewrite !length_app. cbn [List.length]. lia.
Qed.

(** X11: an octal constant is the ampersand, an optional letter O in
    either case, and octal digits among which whitespace is skipped;
    whitespace behind the last digit is swallowed too, the cursor being
    left at the first character that is neither.  The value is that of the
    digits without the whitespace; a lone ampersand is the constant zero,
    and a value above 65535 fails with Overflow. *)
Theorem tokenise_oct_constant
  (pre body rest : list ascii) (o : option ascii) (outs : list Z) (self : Values) :
  match o with
  | Some c => upper c = "O"%char
  | None => stops_at is_base_letter (body ++ rest) = true
  end ->
  forallb is_oct_body body = true -> stops_at is_oct_body rest = true ->
  let text := pre ++ "&"%char :: opt_char o ++ body ++ rest in
  tokenise_number {| buf := text; pos := List.length pre |} outs self =
    (constant_written text
       (List.length pre + 1 + List.length (opt_char o) + List.length body) outs
       tk.T_OCT (radix_value 8 (trim body)), self).
Proof. exact (tokenise_oct_word pre body rest o outs self). Qed.

Lemma tokenise_oct_constant_witness :
  tokenise_number {| buf := [] ++ "&"%char :: opt_char None ++ str "1 7 " ++ str "X";
                     pos := List.length (@nil ascii) |} [] soft_values =
    (constant_written ([] ++ "&"%char :: opt_char None ++ str "1 7 " ++ str "X")
       (List.length (@nil ascii) + 1 + List.length (opt_char None)
        + List.length (str "1 7 ")) []
       tk.T_OCT (radix_value 8 (trim (str "1 7 "))), soft_values).
Proof.
  apply (tokenise_oct_constant [] (str "1 7 ") (str "X") None [] soft_values);
    reflexivity.
Defined.

(** ** The text of HEX$ and OCT$ read back *)

Lemma wf_integer_word (v : value) :
  wf_value v -> fst v = INT ->
  exists n, 0 <= n < 65536 /\ v = integer_of_word n.
Proof.
  intros Hwf Ht.
  destruct (wf_integer_bytes v Hwf Ht) as (b0 & b1 & -> & H0 & H1).
  unfold is_byte in *. exists (256 * b1 + b0). split; [lia|].
  unfold integer_of_word. repeat f_equal.
  - apply Z.mod_unique with (q := b1); lia.
  - apply Z.div_unique with (r := b0); lia.
Qed.

(** The digits written by [digits_base], read back in the base. *)
Lemma digits_base_value (base : Z) (g : ascii -> ascii) (P : ascii -> bool) :
  2 <= base ->
  (forall d, 0 <= d < base ->
             digit_of (g (digit_char d)) = Some d /\ P (g (digit_char d)) = true) ->
  forall fuel n acc, 0 <= n < 2 ^ Z.of_nat (S fuel) ->
  exists ds, digits_base (S fuel) base n acc = ds ++ acc /\ ds <> [] /\
             forallb P (map g ds) = true /\
             forall a, fold_left (radix_step base) (map g ds) a
                       = a * base ^ len ds + n.
Proof.
  intros Hb Hg.
  assert (Hone : forall n acc, 0 <= n < base ->
            exists ds, digit_char (n mod base) :: acc = ds ++ acc /\ ds <> [] /\
                       forallb P (map g ds) = true /\
                       forall a, fold_left (radix_step base) (map g ds) a
                                 = a * base ^ len ds + n).
  { intros n acc Hn. destruct (Hg n Hn) as [Hd HP].
    rewrite Z.mod_small by lia.
    exists [digit_char n]. split; [reflexivity|].
    split; [discriminate|]. cbn [map forallb fold_left]. rewrite HP.
    split; [reflexivity|]. intros a. unfold radix_step. rewrite Hd.
    unfold len. cbn [List.length]. change (Z.of_nat 1) with 1.
    now rewrite Z.pow_1_r. }
  induction fuel as [|fuel IH]; intros n acc Hn.
  - cbn [digits_base]. change (2 ^ Z.of_nat 1) with 2 in Hn.
    destruct (Z.ltb_spec n base); [|lia]. apply Hone. lia.
  - change (digits_base (S (S fuel)) base n acc)
      with (if n <? base then digit_char (n mod base) :: acc
            else digits_base (S fuel) base (n / base)
                             (digit_char (n mod base) :: acc)).
    destruct (Z.ltb_spec n base); [apply Hone; lia|].
    assert (Hmod : 0 <= n mod base < base) by (apply Z.mod_pos_bound; lia).
    destruct (Hg (n mod base) Hmod) as [Hd HP].
    assert (Hpow : 0 < 2 ^ Z.of_nat (S fuel)) by (apply Z.pow_pos_nonneg; lia).
    assert (Hq : 0 <= n / base < 2 ^ Z.of_nat (S fuel)).
    { split; [apply Z.div_pos; lia|].
      rewrite (Nat2Z.inj_succ (S fuel)), Z.pow_succ_r in Hn by lia.
      apply Z.div_lt_upper_bound; [lia|]. nia. }
    destruct (IH (n / base) (digit_char (n mod base) :: acc) Hq)
      as (ds & Hds & Hne & Hall & Hval).
    exists (ds ++ [digit_char (n mod base)]). rewrite Hds, <- app_assoc.
    split; [reflexivity|]. split; [now destruct ds|].
    rewrite map_app, forallb_app, Hall. cbn [map forallb]. rewrite HP.
    split; [reflexivity|]. intros a.
    rewrite fold_left_app, Hval. cbn [fold_left]. unfold radix_step at 1.
    rewrite Hd. unfold len. rewrite length_app. cbn [List.length].
    rewrite Nat2Z.inj_add. change (Z.of_nat 1) with 1.
    rewrite Z.pow_add_r, Z.pow_1_r by lia.
    pose proof (Z.div_mod n base ltac:(lia)). nia.
Qed.

Lemma numeral_value (base : Z) (g : ascii -> ascii) (P : ascii -> bool) (n : Z) :
  2 <= base ->
  (forall d, 0 <= d < base ->
             digit_of (g (digit_char d)) = Some d /\ P (g (digit_char d)) = true) ->
  0 <= n ->
  numeral_of P base n (map g (numeral base n)) = true.
Proof.
  intros Hb Hg Hn. unfold numeral.
  assert (Hfuel : 0 <= n < 2 ^ Z.of_nat (S (Z.to_nat (Z.log2 n)))).
  { split; [assumption|]. rewrite Nat2Z.inj_succ, Z2Nat.id by apply Z.log2_nonneg.
    destruct (Z.eq_dec n 0) as [->|]; [reflexivity|]. apply Z.log2_spec. lia. }
  destruct (digits_base_value base g P Hb Hg _ n [] Hfuel)
    as (ds & Hds & Hne & Hall & Hval).
  rewrite Hds, app_nil_r. unfold numeral_of, radix_value.
  rewrite Hall, Hval, Z.mul_0_l, Z.add_0_l, Z.eqb_refl.
  destruct ds; [contradiction|reflexivity].
Qed.

Lemma slice_index_inside (n l : Z) : 0 <= n <= l -> slice_index n l = n.
Proof.
  intros H. unfold slice_index. destruct (Z.ltb_spec n 0); lia.
Qed.

Lemma slice_drop {A} (p x : list A) :
  slice (p ++ x) (len p) (len (p ++ x)) = x.
Proof.
  unfold slice. rewrite !slice_index_inside
    by (unfold len; rewrite ?length_app; lia).
  unfold len. rewrite Nat2Z.id, skipn_app, skipn_all, Nat.sub_diag.
  cbn [skipn app]. apply firstn_all2. rewrite length_app. lia.
Qed.

Lemma hex_digit_chars (d : Z) :
  0 <= d < 16 ->
  digit_of (upper (digit_char d)) = Some d /\
  is_hexdigit (upper (digit_char d)) = true.
Proof.
  intros Hd.
  assert (H : d = 0 \/ d = 1 \/ d = 2 \/ d = 3 \/ d = 4 \/ d = 5 \/ d = 6 \/
              d = 7 \/ d = 8 \/ d = 9 \/ d = 10 \/ d = 11 \/ d = 12 \/
              d = 13 \/ d = 14 \/ d = 15) by lia.
  repeat (destruct H as [-> | H]; [split; reflexivity|]). subst. split; reflexivity.
Qed.

Lemma decimal_digit_chars (base d : Z) :
  base <= 10 -> 0 <= d < base ->
  digit_of (digit_char d) = Some d /\ is_digit (digit_char d) = true /\
  is_octdigit (digit_char d) = (d <? 8).
Proof.
  intros Hb Hd.
  assert (H : d = 0 \/ d = 1 \/ d = 2 \/ d = 3 \/ d = 4 \/ d = 5 \/ d = 6 \/
              d = 7 \/ d = 8 \/ d = 9) by lia.
  repeat (destruct H as [-> | H]; [repeat split; reflexivity|]).
  subst. repeat split; reflexivity.
Qed.

Lemma integer_of_word_unsigned (n : Z) :
  0 <= n < 65536 -> integer_to_int (integer_of_word n) true = Ok n.
Proof.
  intros Hn. unfold integer_of_word. rewrite integer_to_int_unsigned.
  f_equal. pose proof (Z.div_mod n 256 ltac:(lia)). lia.
Qed.

Lemma hex_text (n : Z) : 0 <= n < 65536 -> hex_text_check n = true.
Proof.
  intros Hn. unfold hex_text_check, integer_to_str_hex.
  rewrite integer_of_word_unsigned by assumption. cbn [rbind].
  unfold py_hex, signed_numeral. destruct (Z.ltb_spec n 0); [lia|].
  rewrite (slice_drop (str "0x")).
  apply numeral_value; [lia|apply hex_digit_chars|lia].
Qed.

Lemma oct_text (n : Z) : 0 <= n < 65536 -> oct_text_check n = true.
Proof.
  intros Hn. unfold oct_text_check, integer_to_str_oct.
  rewrite integer_of_word_unsigned by assumption. cbn [rbind].
  destruct (Z.eqb_spec n 0) as [->|Hnz]; [reflexivity|].
  unfold py_oct, signed_numeral. destruct (Z.eqb_spec n 0); [contradiction|].
  destruct (Z.ltb_spec n 0); [lia|].
  rewrite (slice_drop (str "0")).
  rewrite <- (map_id (numeral 8 n)).
  apply (numeral_value 8 (fun c => c)); [lia| |lia].
  intros d Hd. destruct (decimal_digit_chars 8 d ltac:(lia) Hd) as (H1 & _ & H3).
  split; [assumption|]. rewrite H3. apply Z.ltb_lt. lia.
Qed.

Lemma numeral_of_parts (P : ascii -> bool) (base n : Z) (text : list ascii) :
  numeral_of P base n text = true ->
  forallb P text = true /\ radix_value base text = n /\ text <> [].
Proof.
  unfold numeral_of. intros H. apply andb_prop in H as [H Hne].
  apply andb_prop in H as [HP Hv]. apply Z.eqb_eq in Hv.
  repeat split; try assumption. now destruct text.
Qed.

Lemma octdigits_body (text : list ascii) :
  forallb is_octdigit text = true ->
  forallb is_oct_body text = true /\ trim text = text.
Proof.
  induction text as [|c text IH]; [split; reflexivity|].
  cbn [forallb]. intros H. apply andb_prop in H as [Hc Ht].
  destruct (IH Ht) as [IH1 IH2].
  assert (Hw : char_in c number_whitespace = false).
  { revert Hc. destruct c as [[] [] [] [] [] [] [] []]; intros Hc;
      try discriminate Hc; reflexivity. }
  split.
  - unfold is_oct_body at 1. now rewrite Hc, IH1.
  - unfold trim. cbn [filter]. rewrite Hw. cbn [negb]. fold (trim text).
    now rewrite IH2.
Qed.

Lemma octdigit_no_letter (c : ascii) (r : list ascii) :
  is_octdigit c = true -> stops_at is_base_letter (c :: r) = true.
Proof.
  destruct c as [[] [] [] [] [] [] [] []]; intros Hc;
    try discriminate Hc; reflexivity.
Qed.

(** X12: the text that HEX$ and OCT$ make of a well-formed Integer reads
    back as that Integer: behind an ampersand and the letter H, or behind
    an ampersand with or without the letter O, the tokeniser consumes
    exactly the text and writes the hexadecimal or octal constant with the
    two bytes of the Integer, and [token_to_value] turns the token into
    the Integer again. *)
Theorem based_text_round_trip
  (store : list Z -> M value) (v : value) (rest : list ascii) (o : option ascii)
  (outs : list Z) (self : Values) :
  wf_value v -> fst v = INT ->
  stops_at is_hexdigit rest = true -> stops_at is_oct_body rest = true ->
  match o with Some c => upper c = "O"%char | None => True end ->
  exists hex oct,
    integer_to_str_hex v = Ok hex /\ integer_to_str_oct v = Ok oct /\
    hexadecimal store v self = store (bytes_of hex) self /\
    octal store v self = store (bytes_of oct) self /\
    tokenise_number {| buf := "&"%char :: "H"%char :: hex ++ rest; pos := 0 |}
                    outs self
      = (Ok ({| buf := "&"%char :: "H"%char :: hex ++ rest;
                pos := 2 + List.length hex |}, outs ++ tk.T_HEX :: snd v), self) /\
    tokenise_number {| buf := "&"%char :: opt_char o ++ oct ++ rest; pos := 0 |}
                    outs self
      = (Ok ({| buf := "&"%char :: opt_char o ++ oct ++ rest;
                pos := 1 + List.length (opt_char o) + List.length oct |},
             outs ++ tk.T_OCT :: snd v), self) /\
    token_to_value (tk.T_HEX :: snd v) = Ok (Some v) /\
    token_to_value (tk.T_OCT :: snd v) = Ok (Some v).
Proof.
  intros Hwf Ht Hrh Hro Ho.
  destruct (wf_integer_word v Hwf Ht) as (n & Hn & ->).
  pose proof (hex_text n Hn) as Hhex. pose proof (oct_text n Hn) as Hoct.
  unfold hex_text_check in Hhex. unfold oct_text_check in Hoct.
  unfold hexadecimal, octal, bind, lift, to_integer. rewrite Ht.
  destruct (integer_to_str_hex (integer_of_word n)) as [hex|]; [|discriminate].
  destruct (integer_to_str_oct (integer_of_word n)) as [oct|]; [|discriminate].
  apply numeral_of_parts in Hhex as (Hh1 & Hh2 & Hh3).
  apply numeral_of_parts in Hoct as (Ho1 & Ho2 & Ho3).
  destruct (octdigits_body oct Ho1) as [Hbody Htrim].
  exists hex, oct. split; [reflexivity|]. split; [reflexivity|].
  split; [reflexivity|]. split; [reflexivity|].
  assert (Hle : (n <=? 65535) = true) by (apply Z.leb_le; lia).
  split; [|split; [|split; reflexivity]].
  - pose proof (tokenise_hex_word [] hex rest "H" outs self eq_refl Hh1 Hrh) as E.
    cbn [app List.length Nat.add] in E. rewrite E, Hh2.
    unfold constant_written. now rewrite Hle.
  - assert (Ho' : match o with
                  | Some c => upper c = "O"%char
                  | None => stops_at is_base_letter (oct ++ rest) = true
                  end).
    { destruct o; [assumption|]. destruct oct as [|c r]; [congruence|].
      cbn [forallb] in Ho1. apply andb_prop in Ho1 as [Hc _].
      now apply octdigit_no_letter. }
    pose proof (tokenise_oct_word [] oct rest o outs self Ho' Hbody Hro) as E.
    cbn [app List.length Nat.add] in E. rewrite E, Htrim, Ho2.
    unfold constant_written. now rewrite Hle.
Qed.

Lemma based_text_round_trip_witness :
  exists hex oct,
    integer_to_str_hex (INT, [0xff; 0x7f]) = Ok hex /\
    integer_to_str_oct (INT, [0xff; 0x7f]) = Ok oct /\
    hexadecimal store_in_handle (INT, [0xff; 0x7f]) soft_values
      = store_in_handle (bytes_of hex) soft_values /\
    octal store_in_handle (INT, [0xff; 0x7f]) soft_values
      = store_in_handle (bytes_of oct) soft_values /\
    tokenise_number {| buf := "&"%char :: "H"%char :: hex ++ []; pos := 0 |}
                    [] soft_values
      = (Ok ({| buf := "&"%char :: "H"%char :: hex ++ [];
                pos := 2 + List.length hex |},
             [] ++ tk.T_HEX :: snd (INT, [0xff; 0x7f])), soft_values) /\
    tokenise_number {| buf := "&"%char :: opt_char None ++ oct ++ []; pos := 0 |}
                    [] soft_values
      = (Ok ({| buf := "&"%char :: opt_char None ++ oct ++ [];
                pos := 1 + List.length (opt_char None) + List.length oct |},
             [] ++ tk.T_OCT :: snd (INT, [0xff; 0x7f])), soft_values) /\
    token_to_value (tk.T_HEX :: snd (INT, [0xff; 0x7f]))
      = Ok (Some (INT, [0xff; 0x7f])) /\
    token_to_value (tk.T_OCT :: snd (INT, [0xff; 0x7f]))
      = Ok (Some (INT, [0xff; 0x7f])).
Proof.
  apply (based_text_round_trip store_in_handle (INT, [0xff; 0x7f]) [] None []
                               soft_values).
  - exact wf_integer_32767.
  - reflexivity.
  - reflexivity.
  - reflexivity.
  - exact I.
Defined.

(** ** Integral literals and the text of Integers read back *)

Lemma token_of_digit (d : Z) :
  0 <= d <= 9 -> token_to_value [0x11 + d] = Ok (Some (INT, [d; 0])).
Proof.
  intros Hd.
  assert (H : d = 0 \/ d = 1 \/ d = 2 \/ d = 3 \/ d = 4 \/ d = 5 \/ d = 6 \/
              d = 7 \/ d = 8 \/ d = 9) by lia.
  repeat (destruct H as [-> | H]; [reflexivity|]). subst. reflexivity.
Qed.

Lemma small_integer (n : Z) :
  0 <= n <= 255 ->
  wf_value (INT, [n; 0]) /\ integer_to_int (INT, [n; 0]) false = Ok n.
Proof.
  intros Hn. split.
  - apply wf_integer; unfold is_byte; lia.
  - rewrite integer_to_int_signed by (unfold is_byte; lia).
    change (128 <=? 0) with false. cbv iota. f_equal; lia.
Qed.

(** The token written for an integral literal in range, and its value. *)
Lemma write_number_integral (L : literal) (self : Values) :
  wf_literal L = true -> integral L = true ->
  - 32768 <= int_value L <= 32767 ->
  exists tok v,
    write_number (has_exponent L) (l_point L) (accumulated L) self = (Ok tok, self) /\
    token_to_value tok = Ok (Some v) /\ fst v = INT /\ wf_value v /\
    integer_to_int v false = Ok (int_value L).
Proof.
  intros Hwf Hint Hr. unfold write_number.
  rewrite (one_digit_bare L Hwf).
  pose proof (str_to_int_integral L Hwf Hint) as Hval.
  destruct (bare_digit L) eqn:Hbare.
  - pose proof (bare_digit_value L Hwf Hbare) as Hv. rewrite Hval in *.
    destruct (chr_ord (0x11 + int_value L)) as (c & Hc & Hord); [lia|].
    unfold lift. rewrite Hc. cbn [rbind]. rewrite Hord.
    exists [0x11 + int_value L], (INT, [int_value L; 0]).
    split; [reflexivity|]. split; [now apply token_of_digit|].
    split; [reflexivity|]. apply small_integer. lia.
  - unfold bind at 1. unfold lift at 1.
    rewrite (no_float_mark_integral L Hwf), Hint, Hval. cbn [andb].
    destruct (Z.leb_spec (int_value L) 0x7fff); [|lia].
    destruct (Z.leb_spec (- 0x8000) (int_value L)); [|lia]. cbn [andb].
    destruct (Z.leb_spec (int_value L) 0xff);
      destruct (Z.leb_spec 0 (int_value L)); cbn [andb].
    + destruct (chr_ord (int_value L)) as (c & Hc & Hord); [lia|].
      unfold lift. rewrite Hc. cbn [rbind]. rewrite Hord.
      exists [tk.T_BYTE; int_value L], (INT, [int_value L; 0]).
      split; [reflexivity|]. split; [reflexivity|].
      split; [reflexivity|]. apply small_integer. lia.
    + destruct (int_to_integer_signed_ok (int_value L)) as (v & Hv & Ht & Hw & Hback);
        [lia|].
      unfold lift. rewrite Hv. cbn [rbind].
      exists (tk.T_INT :: to_bytes v), v. split; [reflexivity|].
      destruct (wf_integer_bytes v Hw Ht) as (b0 & b1 & -> & _).
      repeat split; try assumption; apply Hw.
    + destruct (int_to_integer_signed_ok (int_value L)) as (v & Hv & Ht & Hw & Hback);
        [lia|].
      unfold lift. rewrite Hv. cbn [rbind].
      exists (tk.T_INT :: to_bytes v), v. split; [reflexivity|].
      destruct (wf_integer_bytes v Hw Ht) as (b0 & b1 & -> & _).
      repeat split; try assumption; apply Hw.
    + lia.
Qed.

(** An integral literal starts with a sign or a digit. *)
Lemma integral_head (L : literal) :
  wf_literal L = true -> integral L = true ->
  exists c r, render L = c :: r /\ Ascii.eqb c "&" = false /\
              char_in c (str "0123456789.+-") = true.
Proof.
  destruct L as [s i pt f t pc].
  unfold wf_literal, render, accumulated, render_mantissa, integral.
  cbn [l_sign l_int l_point l_frac l_tail l_percent]. intros H Hint.
  wf_parts H Hs Hi Hf Hpf Ht Hne.
  apply andb_prop in Hint as [Hpt Htl]. apply negb_true_iff in Hpt. subst pt.
  destruct t; try discriminate. cbn [render_tail upper_tail app] in *.
  rewrite !app_nil_r in *.
  destruct s as [c|]; cbn [opt_char app] in *.
  - exists c. eexists. split; [reflexivity|].
    destruct (sign_cases c Hs) as [-> | ->]; split; reflexivity.
  - destruct i as [|d ds]; [discriminate|]. cbn [app].
    exists d. eexists. split; [reflexivity|].
    cbn [forallb] in Hi. apply andb_prop in Hi as [Hd _].
    each_digit d Hd; split; reflexivity.
Qed.

Lemma tokenise_integral (L : literal) (outs : list Z) (self : Values) :
  wf_literal L = true -> integral L = true ->
  - 32768 <= int_value L <= 32767 ->
  exists tok v,
    tokenise_number {| buf := render L; pos := 0 |} outs self
      = (Ok ({| buf := render L; pos := List.length (render L) |}, outs ++ tok),
         self) /\
    token_to_value tok = Ok (Some v) /\ fst v = INT /\ wf_value v /\
    integer_to_int v false = Ok (int_value L).
Proof.
  intros Hwf Hint Hr.
  destruct (write_number_integral L self Hwf Hint Hr)
    as (tok & v & Hw & Htok & Ht & Hv & Hval).
  exists tok, v. split; [|auto].
  destruct (integral_head L Hwf Hint) as (c & r & Hrender & Hamp & Hdec).
  assert (Hpeek : nth_error (render L) 0 = Some c) by now rewrite Hrender.
  unfold tokenise_number, peek. cbn [buf pos]. rewrite Hpeek, Hamp, Hdec.
  unfold _tokenise_dec. cbn [buf pos skipn].
  rewrite (scan_render L Hwf). cbn [kill word have_exp have_point].
  assert (Hne : accumulated L <> []).
  { unfold wf_literal in Hwf. apply andb_prop in Hwf as [Hwf _].
    apply andb_prop in Hwf as [_ H].
    destruct (accumulated L); [discriminate|discriminate]. }
  rewrite (unclaim_clean _ _ Hne (accumulated_clean L Hwf)).
  rewrite (trim_clean _ (accumulated_clean L Hwf)).
  unfold bind. rewrite Hw. reflexivity.
Qed.

(** X13: a decimal literal made of an optional sign and digits, with or
    without a closing %, whose value lies in [-32768, 32767], is consumed
    whole by [tokenise_number], whatever the fault policy, and the token
    written is one that [token_to_value] turns into the well-formed
    Integer holding that value. *)
Theorem tokenise_integral_literal (L : literal) (outs : list Z) (self : Values) :
  wf_literal L = true -> integral L = true ->
  - 32768 <= int_value L <= 32767 ->
  exists tok v,
    tokenise_number {| buf := render L; pos := 0 |} outs self
      = (Ok ({| buf := render L; pos := List.length (render L) |}, outs ++ tok),
         self) /\
    token_to_value tok = Ok (Some v) /\ fst v = INT /\ wf_value v /\
    integer_to_int v false = Ok (int_value L).
Proof. exact (tokenise_integral L outs self). Qed.

Lemma tokenise_integral_literal_witness :
  exists tok v,
    tokenise_number {| buf := render (integer_literal (- 1234)); pos := 0 |}
                    [] soft_values
      = (Ok ({| buf := render (integer_literal (- 1234));
                pos := List.length (render (integer_literal (- 1234))) |},
             [] ++ tok), soft_values) /\
    token_to_value tok = Ok (Some v) /\ fst v = INT /\ wf_value v /\
    integer_to_int v false = Ok (int_value (integer_literal (- 1234))).
Proof.
  apply (tokenise_integral_literal (integer_literal (- 1234)) [] soft_values).
  - reflexivity.
  - reflexivity.
  - vm_compute. split; discriminate.
Defined.

Lemma digits_value_radix (ds : list ascii) :
  forallb is_digit ds = true -> digits_value ds = radix_value 10 ds.
Proof.
  unfold digits_value, radix_value. generalize 0.
  induction ds as [|c ds IH]; intros a H; [reflexivity|].
  cbn [forallb] in H. apply andb_prop in H as [Hc Hds].
  cbn [fold_left]. rewrite IH by assumption. f_equal.
  unfold radix_step, digit_of. now rewrite Hc.
Qed.

Lemma integer_literal_ok (n : Z) : integer_literal_check n = true.
Proof.
  assert (Hnum : numeral_of is_digit 10 (Z.abs n) (numeral 10 (Z.abs n)) = true).
  { assert (Hg : forall d, 0 <= d < 10 ->
                digit_of (digit_char d) = Some d /\ is_digit (digit_char d) = true).
    { intros d Hd.
      destruct (decimal_digit_chars 10 d ltac:(lia) Hd) as (H1 & H2 & _). auto. }
    pose proof (numeral_value 10 (fun c => c) is_digit (Z.abs n)
                              ltac:(lia) Hg ltac:(lia)) as H.
    now rewrite map_id in H. }
  apply numeral_of_parts in Hnum as (Hdig & Hval & Hne).
  rewrite <- digits_value_radix in Hval by assumption.
  unfold integer_literal_check, wf_literal, int_value, integer_literal, accumulated,
    render_mantissa.
  cbn [l_sign l_int l_point l_frac l_tail l_percent render_tail upper_tail
       tail_ok forallb negb orb andb].
  rewrite Hdig, Hval, !app_nil_r.
  destruct (numeral 10 (Z.abs n)) as [|c r] eqn:E; [contradiction|].
  destruct (Z.ltb_spec n 0); cbn [sign_ok opt_char app andb Ascii.eqb Bool.eqb].
  - change (is_sign "-") with true. cbn [andb]. apply Z.eqb_eq. lia.
  - apply Z.eqb_eq. lia.
Qed.

Lemma render_integer_literal (n : Z) : render (integer_literal n) = py_str n.
Proof.
  unfold render, render_mantissa, integer_literal, py_str, signed_numeral.
  cbn [l_sign l_int l_point l_frac l_tail l_percent render_tail percent_text].
  rewrite !app_nil_r.
  destruct (Z.ltb_spec n 0); cbn [opt_char app].
  - now rewrite Z.abs_neq by lia.
  - now rewrite Z.abs_eq by lia.
Qed.

(** X14: the text of a well-formed Integer, as written in a program
    listing or by WRITE, is its decimal numeral with a minus sign when
    negative; on the screen and in STR$ a number that is not negative has
    a space in front.  The text of the listing reads back as the same
    Integer: [tokenise_number] consumes the whole text and
    [token_to_value] turns the token written into the Integer the text
    came from. *)
Theorem integer_text_round_trip
  (store : list Z -> M value) (v : value) (write : bool) (outs : list Z)
  (self : Values) :
  wf_value v -> fst v = INT ->
  exists n text tok,
    integer_to_int v false = Ok n /\ text = py_str n /\
    number_to_str v false write = Ok text /\
    number_to_str v true true = Ok text /\
    number_to_str v true false
      = Ok (if 0 <=? n then " "%char :: text else text) /\
    representation store v self
      = store (bytes_of (if 0 <=? n then " "%char :: text else text)) self /\
    tokenise_number {| buf := text; pos := 0 |} outs self
      = (Ok ({| buf := text; pos := List.length text |}, outs ++ tok), self) /\
    token_to_value tok = Ok (Some v).
Proof.
  intros Hwf Ht.
  destruct (integer_decode_encode v Hwf Ht) as (n & u & Hn & Hback & _ & _ & Hr & _).
  pose proof (integer_literal_ok n) as Hchk.
  unfold integer_literal_check in Hchk. apply andb_prop in Hchk as [Hwl Hval].
  apply Z.eqb_eq in Hval.
  destruct (tokenise_integral (integer_literal n) outs self Hwl eq_refl)
    as (tok & v' & Htok & Hv' & Tv' & Wv' & Hn'); [lia|].
  rewrite render_integer_literal in Htok. rewrite Hval in Hn'.
  assert (v' = v).
  { destruct (integer_decode_encode v' Wv' Tv') as (n' & _ & Hn'' & Hback' & _).
    rewrite Hn' in Hn''. injection Hn'' as <-. congruence. }
  subst v'.
  exists n, (py_str n), tok. split; [assumption|]. split; [reflexivity|].
  unfold representation, pass_number, bind, lift, number_to_str.
  rewrite Ht. cbn [fst]. rewrite Ht, !Hn. cbn [rbind andb negb].
  repeat split; try assumption; destruct (0 <=? n); reflexivity.
Qed.

Lemma integer_text_round_trip_witness :
  exists n text tok,
    integer_to_int (INT, [0xff; 0x7f]) false = Ok n /\ text = py_str n /\
    number_to_str (INT, [0xff; 0x7f]) false false = Ok text /\
    number_to_str (INT, [0xff; 0x7f]) true true = Ok text /\
    number_to_str (INT, [0xff; 0x7f]) true false
      = Ok (if 0 <=? n then " "%char :: text else text) /\
    representation store_in_handle (INT, [0xff; 0x7f]) soft_values
      = store_in_handle (bytes_of (if 0 <=? n then " "%char :: text else text))
                        soft_values /\
    tokenise_number {| buf := text; pos := 0 |} [] soft_values
      = (Ok ({| buf := text; pos := List.length text |}, [] ++ tok), soft_values) /\
    token_to_value tok = Ok (Some (INT, [0xff; 0x7f])).
Proof.
  apply (integer_text_round_trip store_in_handle (INT, [0xff; 0x7f]) false []
                                 soft_values).
  - exact wf_integer_32767.
  - reflexivity.
Defined.

(** ** Integer division and remainder *)

Lemma to_int_integer (v : value) :
  fst v = INT -> to_int v false = integer_to_int v false.
Proof. intros Ht. unfold to_int, to_integer. now rewrite Ht. Qed.

Lemma float_safe_pure (r : result value) (self : Values) :
  (forall e, r = Raise e -> is_float_error e = false) ->
  float_safe (lift r) self = (r, self).
Proof.
  intros H. unfold float_safe, lift. destruct r as [v|e]; [reflexivity|].
  now rewrite (H e eq_refl).
Qed.

(** The quotient the code computes from the signs and the magnitudes. *)
Lemma signed_quotient (a b : Z) :
  b <> 0 ->
  (if Bool.eqb (0 <=? a) (0 <=? b) then a / b else - (Z.abs a / Z.abs b))
    = Z.quot a b.
Proof.
  intros Hb. rewrite (Z.quot_div a b Hb).
  destruct (Z.leb_spec 0 a); destruct (Z.leb_spec 0 b); cbn [Bool.eqb].
  - rewrite !Z.abs_eq by lia.
    destruct (Z.eq_dec a 0) as [->|]; [cbn; lia|].
    rewrite !Z.sgn_pos by lia. lia.
  - rewrite (Z.abs_eq a), (Z.abs_neq b) by lia.
    destruct (Z.eq_dec a 0) as [->|]; [cbn; lia|].
    rewrite Z.sgn_pos, Z.sgn_neg by lia. lia.
  - rewrite (Z.abs_neq a), (Z.abs_eq b) by lia.
    rewrite Z.sgn_neg, Z.sgn_pos by lia. lia.
  - rewrite !Z.abs_neq by lia. rewrite Z.div_opp_opp by lia.
    rewrite !Z.sgn_neg by lia. lia.
Qed.

Lemma quot_range (a b : Z) :
  - 32768 <= a <= 32767 -> b <> 0 -> - 32768 <= Z.quot a b <= 32768.
Proof.
  intros Ha Hb.
  assert (H : Z.abs (Z.quot a b) <= Z.abs a).
  { rewrite <- Z.quot_abs by assumption.
    apply Z.quot_le_upper_bound; [lia|]. nia. }
  lia.
Qed.

(** X15: on well-formed Integers with a divisor that is not zero, integer
    division truncates towards zero: the result is the Integer of the
    quotient rounded towards zero, and nothing is written to the screen.
    One quotient does not fit: -32768 divided by -1 fails with Overflow,
    also when faults are handled softly, and no message is written. *)
Theorem divide_int_truncates
  (left right : value) (a b : Z) (self : Values) :
  wf_value left -> fst left = INT -> wf_value right -> fst right = INT ->
  integer_to_int left false = Ok a -> integer_to_int right false = Ok b ->
  b <> 0 ->
  (Z.quot a b <> 32768 ->
   exists v, divide_int left right self = (Ok v, self) /\ fst v = INT /\
             wf_value v /\ integer_to_int v false = Ok (Z.quot a b)) /\
  (Z.quot a b = 32768 ->
   a = - 32768 /\ b = - 1 /\
   divide_int left right self = (Raise (RunError error.OVERFLOW), self)).
Proof.
  intros Wl Tl Wr Tr Ha Hb Hnz.
  destruct (integer_to_int_range left Wl Tl) as (a' & Ha' & Hra).
  rewrite Ha in Ha'. injection Ha' as <-.
  destruct (integer_to_int_range right Wr Tr) as (b' & Hb' & Hrb).
  rewrite Hb in Hb'. injection Hb' as <-.
  pose proof (quot_range a b Hra Hnz) as Hq.
  assert (Hdiv : divide_int left right self =
                 float_safe (lift (int_to_integer (Z.quot a b) false)) self).
  { unfold divide_int. rewrite !to_int_integer, Ha, Hb by assumption.
    cbn [rbind]. destruct (Z.eqb_spec b 0); [contradiction|].
    rewrite <- (signed_quotient a b Hnz).
    destruct (Bool.eqb _ _); reflexivity. }
  rewrite Hdiv. split.
  - intros Hne.
    destruct (int_to_integer_signed_ok (Z.quot a b)) as (v & Hv & Tv & Wv & Hback);
      [lia|].
    exists v. rewrite Hv. auto.
  - intros Heq. rewrite Heq.
    assert (a = - 32768 /\ b = - 1).
    { assert (H : Z.abs (Z.quot a b) = Z.abs a / Z.abs b).
      { rewrite <- Z.quot_abs by assumption. apply Z.quot_div_nonneg; lia. }
      rewrite Heq in H. cbn [Z.abs] in H.
      assert (Hb1 : Z.abs b = 1).
      { destruct (Z.eq_dec (Z.abs b) 1); [assumption|].
        assert (2 <= Z.abs b) by lia.
        assert (Z.abs a / Z.abs b <= Z.abs a / 2)
          by (apply Z.div_le_compat_l; lia).
        assert (Z.abs a / 2 <= 16384) by (apply Z.div_le_upper_bound; lia). lia. }
      rewrite Hb1, Z.div_1_r in H.
      assert (a = - 32768) by lia. subst a. split; [reflexivity|].
      destruct (Z.eq_dec b 1) as [->|]; [cbn in Heq; lia|]. lia. }
    repeat split; try tauto.
Qed.

Lemma divide_int_truncates_witness :
  exists v, divide_int (INT, [0xf9; 0xff]) (INT, [0x02; 0x00]) soft_values
              = (Ok v, soft_values) /\ fst v = INT /\ wf_value v /\
            integer_to_int v false = Ok (Z.quot (- 7) 2).
Proof.
  apply (proj1 (divide_int_truncates (INT, [0xf9; 0xff]) (INT, [0x02; 0x00])
                  (- 7) 2 soft_values
                  (wf_integer 0xf9 0xff ltac:(unfold is_byte; lia)
                              ltac:(unfold is_byte; lia))
                  eq_refl
                  (wf_integer 0x02 0x00 ltac:(unfold is_byte; lia)
                              ltac:(unfold is_byte; lia))
                  eq_refl eq_refl eq_refl ltac:(discriminate))).
  discriminate.
Defined.

(** X16: on well-formed Integers with a divisor that is not zero, MOD
    returns the remainder of the division that truncates towards zero,
    which is zero or has the sign of the dividend, whenever the dividend
    is not negative, and also for a negative dividend when the divisor is
    positive and does not divide it. *)
Theorem mod_truncated_remainder
  (left right : value) (a b : Z) (self : Values) :
  wf_value left -> fst left = INT -> wf_value right -> fst right = INT ->
  integer_to_int left false = Ok a -> integer_to_int right false = Ok b ->
  b <> 0 -> 0 <= a \/ (0 < b /\ a mod b <> 0) ->
  exists v, mod_ left right self = (Ok v, self) /\ fst v = INT /\
            wf_value v /\ integer_to_int v false = Ok (Z.rem a b).
Proof.
  intros Wl Tl Wr Tr Ha Hb Hnz Hcase.
  destruct (integer_to_int_range left Wl Tl) as (a' & Ha' & Hra).
  rewrite Ha in Ha'. injection Ha' as <-.
  destruct (integer_to_int_range right Wr Tr) as (b' & Hb' & Hrb).
  rewrite Hb in Hb'. injection Hb' as <-.
  assert (Hrem : (if (a <? 0) || (a mod b <? 0) then a mod b - b else a mod b)
                 = Z.rem a b).
  { pose proof (Z.div_mod a b Hnz) as Hdm.
    pose proof (Z.quot_rem' a b) as Hqr.
    destruct (Z.ltb_spec a 0) as [Hneg|Hpos]; cbn [orb].
    - destruct Hcase as [|[Hbpos Hnd]]; [lia|].
      pose proof (Z.mod_pos_bound a b Hbpos).
      pose proof (Z.rem_bound_pos_neg a b Hbpos ltac:(lia)).
      assert (Z.rem a b <> 0).
      { intros E. apply Hnd. apply Z.rem_divide in E; [|lia].
        now apply Z.mod_divide. }
      remember (a / b - Z.quot a b) as k eqn:Ek.
      assert (Hk : b * k = Z.rem a b - a mod b) by (subst k; lia).
      assert (k = - 1) by nia. lia.
    - destruct (Z.lt_trichotomy b 0) as [Hbneg|[|Hbpos]]; [|lia|].
      + pose proof (Z.mod_neg_bound a b Hbneg).
        pose proof (Z.rem_bound_neg_pos a b Hbneg Hpos).
        remember (a / b - Z.quot a b) as k eqn:Ek.
        assert (Hk : b * k = Z.rem a b - a mod b) by (subst k; lia).
        destruct (Z.ltb_spec (a mod b) 0).
        * assert (k = - 1) by nia. lia.
        * assert (k = 0) by nia. lia.
      + pose proof (Z.mod_pos_bound a b Hbpos).
        destruct (Z.ltb_spec (a mod b) 0); [lia|].
        symmetry. apply Z.rem_mod_nonneg; lia. }
  assert (Hrange : - 32768 <= Z.rem a b <= 32767).
  { pose proof (Z.rem_bound_abs a b Hnz).
    destruct (Z.le_ge_cases 0 a).
    - pose proof (Z.rem_nonneg a b Hnz ltac:(lia)). lia.
    - pose proof (Z.rem_nonpos a b Hnz ltac:(lia)). lia. }
  destruct (int_to_integer_signed_ok (Z.rem a b)) as (v & Hv & Tv & Wv & Hback);
    [assumption|].
  exists v. split; [|auto].
  unfold mod_. rewrite !to_int_integer, Ha, Hb by assumption.
  cbn [rbind]. destruct (Z.eqb_spec b 0); [contradiction|].
  rewrite Hrem, Hv. reflexivity.
Qed.

Lemma mod_truncated_remainder_witness :
  exists v, mod_ (INT, [0xf9; 0xff]) (INT, [0x02; 0x00]) soft_values
              = (Ok v, soft_values) /\ fst v = INT /\ wf_value v /\
            integer_to_int v false = Ok (Z.rem (- 7) 2).
Proof.
  apply (mod_truncated_remainder (INT, [0xf9; 0xff]) (INT, [0x02; 0x00])
           (- 7) 2 soft_values
           (wf_integer 0xf9 0xff ltac:(unfold is_byte; lia)
                       ltac:(unfold is_byte; lia))
           eq_refl
           (wf_integer 0x02 0x00 ltac:(unfold is_byte; lia)
                       ltac:(unfold is_byte; lia))
           eq_refl eq_refl eq_refl ltac:(discriminate)).
  right. split; [lia|]. discriminate.
Defined.

(** ** Extracting decimal digits *)

Lemma count_digit_spec (fuel : nat) : forall num pow10 digit,
  0 < pow10 -> 0 <= num -> num / pow10 <= Z.of_nat fuel ->
  count_digit fuel num pow10 digit = Ok (digit + num / pow10, num mod pow10).
Proof.
  induction fuel as [|fuel IH]; intros num pow10 digit Hp Hn Hq.
  - assert (num / pow10 = 0) by (pose proof (Z.div_pos num pow10 Hn Hp); lia).
    assert (num < pow10).
    { destruct (Z.lt_ge_cases num pow10); [assumption|].
      assert (1 <= num / pow10) by (apply Z.div_le_lower_bound; lia). lia. }
    cbn [count_digit]. destruct (Z.leb_spec pow10 num); [lia|].
    rewrite Z.div_small, Z.mod_small by lia. now rewrite Z.add_0_r.
  - cbn [count_digit]. destruct (Z.leb_spec pow10 num).
    + assert (E : num = (num - pow10) + 1 * pow10) by lia.
      assert (Hd : num / pow10 = (num - pow10) / pow10 + 1)
        by (rewrite E at 1; apply Z.div_add; lia).
      assert (Hm : num mod pow10 = (num - pow10) mod pow10)
        by (rewrite E at 1; apply Z.mod_add; lia).
      rewrite IH by lia. rewrite Hd, Hm. f_equal. f_equal. lia.
    + rewrite Z.div_small, Z.mod_small by lia. now rewrite Z.add_0_r.
Qed.

Lemma digits_fold_shift (ds : list ascii) : forall acc,
  fold_left (fun acc c => acc * 10 + (ord c - 48)) ds acc =
    acc * 10 ^ len ds + digits_value ds.
Proof.
  unfold digits_value, len.
  induction ds as [|c ds IH]; intros acc.
  - cbn. lia.
  - cbn [fold_left List.length]. rewrite IH, (IH (0 * 10 + (ord c - 48))).
    rewrite Nat2Z.inj_succ, Z.pow_succ_r by lia. ring.
Qed.

Lemma digits_value_cons (c : ascii) (ds : list ascii) :
  digits_value (c :: ds) = (ord c - 48) * 10 ^ len ds + digits_value ds.
Proof.
  unfold digits_value at 1. cbn [fold_left]. rewrite digits_fold_shift. ring.
Qed.

Lemma digits_value_app (ds es : list ascii) :
  digits_value (ds ++ es) = digits_value ds * 10 ^ len es + digits_value es.
Proof.
  unfold digits_value at 1. rewrite fold_left_app.
  fold (digits_value ds). apply digits_fold_shift.
Qed.

Lemma digits_loop_spec (n : nat) : forall num,
  0 <= num < 10 ^ Z.of_nat n ->
  exists ds, digits_loop n num (10 ^ (Z.of_nat n - 1)) = Ok ds /\
             List.length ds = n /\ forallb is_digit ds = true /\
             digits_value ds = num.
Proof.
  induction n as [|n IH]; intros num Hn.
  - exists []. cbn in *. repeat split. lia.
  - replace (Z.of_nat (S n) - 1) with (Z.of_nat n) by lia.
    rewrite Nat2Z.inj_succ, Z.pow_succ_r in Hn by lia.
    assert (Hp : 0 < 10 ^ Z.of_nat n) by (apply Z.pow_pos_nonneg; lia).
    cbn [digits_loop]. destruct (Z.leb_spec 1 (10 ^ Z.of_nat n)); [|lia].
    assert (Hq : 0 <= num / 10 ^ Z.of_nat n < 10).
    { split; [apply Z.div_pos; lia|apply Z.div_lt_upper_bound; lia]. }
    assert (H208 : num / 10 ^ Z.of_nat n <= Z.of_nat 208)
      by (change (Z.of_nat 208) with 208; lia).
    rewrite count_digit_spec by (assumption || lia). cbn [rbind fst snd].
    change (ord "0") with 48.
    destruct (chr_ord (48 + num / 10 ^ Z.of_nat n)) as (c & Hc & Hord); [lia|].
    rewrite Hc. cbn [rbind].
    assert (Hpow : 10 ^ Z.of_nat n / 10 = 10 ^ (Z.of_nat n - 1)).
    { destruct n as [|n]; [reflexivity|].
      rewrite Nat2Z.inj_succ, Z.pow_succ_r by lia.
      replace (Z.succ (Z.of_nat n) - 1) with (Z.of_nat n) by lia.
      rewrite Z.mul_comm. apply Z.div_mul. lia. }
    rewrite Hpow.
    destruct (IH (num mod 10 ^ Z.of_nat n)) as (ds & Hds & Hlen & Hdig & Hval);
      [apply Z.mod_pos_bound; lia|].
    rewrite Hds. cbn [rbind]. exists (c :: ds).
    split; [reflexivity|]. split; [cbn [List.length]; lia|].
    split.
    + cbn [forallb]. rewrite Hdig, andb_true_r. unfold is_digit. rewrite Hord.
      apply andb_true_intro. split; [apply Z.leb_le|apply Z.leb_le]; lia.
    + rewrite digits_value_cons, Hord, Hval. unfold len. rewrite Hlen.
      pose proof (Z.div_mod num (10 ^ Z.of_nat n)). lia.
Qed.

Lemma remove_trailing_zeros_spec (r : list ascii) :
  r <> [] ->
  exists k, r = repeat "0"%char k ++ remove_trailing_zeros r /\
            remove_trailing_zeros r <> [] /\
            (List.length (remove_trailing_zeros r) = 1%nat \/
             hd "0"%char (remove_trailing_zeros r) <> "0"%char).
Proof.
  induction r as [|c r IH]; [congruence|]. intros _.
  destruct r as [|c' r].
  - exists 0%nat. cbn. repeat split; [discriminate|now left].
  - assert (E : remove_trailing_zeros (c :: c' :: r) =
                if Ascii.eqb c "0" then remove_trailing_zeros (c' :: r)
                else c :: c' :: r) by reflexivity.
    rewrite E. clear E. destruct (Ascii.eqb_spec c "0") as [->|Hc].
    + destruct IH as (k & Hk & Hne & Hlast); [discriminate|].
      exists (S k). cbn [repeat app]. rewrite <- Hk. auto.
    + exists 0%nat. cbn [repeat app hd]. repeat split; [discriminate|now right].
Qed.

Lemma last_rev_hd (l : list ascii) (d : ascii) : last (rev l) d = hd d l.
Proof.
  destruct l as [|c l]; [reflexivity|]. cbn [rev hd]. apply last_last.
Qed.

(** X17: for a number below the power of ten of the number of digits
    asked for, [_get_digits] returns exactly that many characters, all
    decimal digits, and they are the decimal numeral of the number, with
    zeros in front where needed.  With trailing zeros removed, what is
    left is not empty, the zeros removed put back behind it give the full
    numeral, and it ends in a digit that is not zero unless it is one
    character long. *)
Theorem get_digits_numeral (num digits : Z) :
  0 < digits -> 0 <= num < 10 ^ digits ->
  exists ds short,
    _get_digits num digits false = Ok ds /\ len ds = digits /\
    forallb is_digit ds = true /\ digits_value ds = num /\
    _get_digits num digits true = Ok short /\ short <> [] /\
    ds = short ++ times "0" (digits - len short) /\
    (len short = 1 \/ last short "0"%char <> "0"%char).
Proof.
  intros Hd Hn.
  destruct (digits_loop_spec (Z.to_nat digits) num) as (ds & Hds & Hlen & Hdig & Hval);
    [now rewrite Z2Nat.id by lia|].
  rewrite Z2Nat.id in Hds by lia.
  assert (Hne : rev ds <> []).
  { intros E. apply (f_equal (@List.length ascii)) in E.
    rewrite length_rev, Hlen in E. cbn in E. lia. }
  destruct (remove_trailing_zeros_spec (rev ds) Hne) as (k & Hk & Hne' & Hlast).
  exists ds, (rev (remove_trailing_zeros (rev ds))).
  unfold _get_digits. destruct (Z.leb_spec digits 0); [lia|].
  rewrite Hds. cbn [rbind].
  split; [reflexivity|]. split; [unfold len; lia|].
  split; [assumption|]. split; [assumption|]. split; [reflexivity|].
  split.
  { intros E. apply Hne'. apply (f_equal (@rev ascii)) in E.
    now rewrite rev_involutive in E. }
  split.
  - apply (f_equal (@rev ascii)) in Hk. rewrite rev_involutive, rev_app_distr in Hk.
    rewrite Hk at 1. f_equal.
    assert (Hrep : rev (repeat "0"%char k) = repeat "0"%char k).
    { clear. induction k as [|k IH]; [reflexivity|].
      cbn [repeat rev]. rewrite IH. symmetry. apply repeat_cons. }
    rewrite Hrep. unfold times. f_equal.
    apply (f_equal (@List.length ascii)) in Hk.
    rewrite length_app, !length_rev, repeat_length in Hk.
    unfold len. rewrite length_rev. lia.
  - unfold len. rewrite length_rev, last_rev_hd.
    destruct Hlast as [Hone | Hnz]; [left; lia|now right].
Qed.

Lemma get_digits_numeral_witness :
  exists ds short,
    _get_digits 1200 7 false = Ok ds /\ len ds = 7 /\
    forallb is_digit ds = true /\ digits_value ds = 1200 /\
    _get_digits 1200 7 true = Ok short /\ short <> [] /\
    ds = short ++ times "0" (7 - len short) /\
    (len short = 1 \/ last short "0"%char <> "0"%char).
Proof. apply (get_digits_numeral 1200 7); lia. Defined.

(** ** Values as strings of bytes *)

Lemma to_single_single (x : value) (self : Values) :
  fst x = SNG -> to_single x self = (Ok x, self).
Proof. intros Ht. unfold to_single, float_safe, lift. now rewrite Ht. Qed.

Lemma to_double_double (x : value) (self : Values) :
  fst x = DBL -> to_double x self = (Ok x, self).
Proof. intros Ht. unfold to_double, float_safe, lift. now rewrite Ht. Qed.

Lemma cv_stored (n : nat) (t : typechar) (bs : list Z) (h : value) (self : Values) :
  fst h = STR -> copy (_strings self) h = bs -> List.length bs = n ->
  SIZE_TO_TYPE n = Some t -> cv n h self = Ok (t, bs).
Proof.
  intros Hh Hc Hlen Ht. unfold cv, pass_string. rewrite Hh. cbn [rbind].
  rewrite Hc. unfold len. rewrite Hlen, Z.ltb_irrefl. cbn [throw_if rbind].
  rewrite <- Hlen, firstn_all. unfold from_bytes. now rewrite Hlen, Ht.
Qed.

(** X18: the bytes of a number survive the string space.  For a
    well-formed Integer, Single or Double [x], MKI$, MKS$ or MKD$ hands
    exactly the bytes of [x] to the string space, and CVI, CVS or CVD of
    the handle returned gives [x] back, provided the string space keeps
    its contract on that call. *)
Theorem mk_cv_round_trip
  (store : list Z -> M value) (x h : value) (self self' : Values) :
  wf_value x -> stored store (to_bytes x) self h self' ->
  (fst x = INT -> mki store x self = (Ok h, self') /\ cvi h self' = Ok x) /\
  (fst x = SNG -> mks store x self = (Ok h, self') /\ cvs h self' = Ok x) /\
  (fst x = DBL -> mkd store x self = (Ok h, self') /\ cvd h self' = Ok x).
Proof.
  intros [Hlen _] (Hstore & Hh & Hcopy).
  destruct x as [t bs]. cbn [fst snd to_bytes] in *.
  split; [|split]; intros ->; cbn [TYPE_TO_SIZE] in Hlen; split.
  - unfold mki, bind, lift, to_integer. exact Hstore.
  - apply (cv_stored 2 INT bs); try assumption; [lia|reflexivity].
  - unfold mks, bind. now rewrite to_single_single.
  - apply (cv_stored 4 SNG bs); try assumption; [lia|reflexivity].
  - unfold mkd, bind. now rewrite to_double_double.
  - apply (cv_stored 8 DBL bs); try assumption; [lia|reflexivity].
Qed.

Lemma mk_cv_round_trip_witness :
  (fst (SNG, [0; 0; 0x80; 0x81]) = INT ->
   mki store_in_handle (SNG, [0; 0; 0x80; 0x81]) soft_values
     = (Ok (STR, [0; 0; 0x80; 0x81]), soft_values) /\
   cvi (STR, [0; 0; 0x80; 0x81]) soft_values = Ok (SNG, [0; 0; 0x80; 0x81])) /\
  (fst (SNG, [0; 0; 0x80; 0x81]) = SNG ->
   mks store_in_handle (SNG, [0; 0; 0x80; 0x81]) soft_values
     = (Ok (STR, [0; 0; 0x80; 0x81]), soft_values) /\
   cvs (STR, [0; 0; 0x80; 0x81]) soft_values = Ok (SNG, [0; 0; 0x80; 0x81])) /\
  (fst (SNG, [0; 0; 0x80; 0x81]) = DBL ->
   mkd store_in_handle (SNG, [0; 0; 0x80; 0x81]) soft_values
     = (Ok (STR, [0; 0; 0x80; 0x81]), soft_values) /\
   cvd (STR, [0; 0; 0x80; 0x81]) soft_values = Ok (SNG, [0; 0; 0x80; 0x81])).
Proof.
  apply (mk_cv_round_trip store_in_handle (SNG, [0; 0; 0x80; 0x81])
                          (STR, [0; 0; 0x80; 0x81]) soft_values soft_values).
  - exact wf_single_minus_1.
  - repeat split.
Defined.

(** X19: ASC undoes CHR$.  For a well-formed Integer [x] from 0 to 255,
    CHR$ hands the one byte [x] to the string space, and ASC of the handle
    returned gives [x] back, provided the string space keeps its contract
    on that call. *)
Theorem asc_character
  (store : list Z -> M value) (x h : value) (n : Z) (self self' : Values) :
  wf_value x -> fst x = INT -> integer_to_int x false = Ok n ->
  0 <= n <= 255 -> stored store [n] self h self' ->
  character store x self = (Ok h, self') /\ asc h self' = Ok x.
Proof.
  intros Hwf Ht Hn Hr (Hstore & Hh & Hcopy).
  destruct (integer_decode_encode x Hwf Ht) as (n' & _ & Hn' & Hback & _).
  rewrite Hn in Hn'. injection Hn' as <-.
  destruct (chr_ord n) as (c & Hc & Hord); [lia|]. split.
  - unfold character, bind, lift. rewrite to_int_integer, Hn by assumption.
    unfold range_check.
    destruct (Z.ltb_spec n 0); [lia|]. destruct (Z.ltb_spec 255 n); [lia|].
    cbn [orb throw_if]. now rewrite Hc, Hord.
  - unfold asc, pass_string. rewrite Hh. cbn [rbind]. rewrite Hcopy.
    cbn [throw_if rbind getitem nth_error]. exact Hback.
Qed.

Lemma asc_character_witness :
  character store_in_handle (INT, [0x01; 0x00]) soft_values
    = (Ok (STR, [1]), soft_values) /\
  asc (STR, [1]) soft_values = Ok (INT, [0x01; 0x00]).
Proof.
  apply (asc_character store_in_handle (INT, [0x01; 0x00]) (STR, [1]) 1
                       soft_values soft_values).
  - exact wf_integer_1.
  - reflexivity.
  - reflexivity.
  - lia.
  - repeat split.
Defined.

(** ** Substrings *)

Lemma slice_prefix {A} (s : list A) (k : Z) :
  0 <= k -> slice s 0 (Z.min k (len s)) = firstn (Z.to_nat k) s.
Proof.
  intros Hk. unfold slice.
  rewrite !slice_index_inside by (unfold len; lia).
  rewrite Z.sub_0_r. cbn [Z.to_nat skipn].
  destruct (Z.le_ge_cases k (len s)).
  - now rewrite Z.min_l by lia.
  - rewrite Z.min_r by lia. unfold len in *.
    rewrite !firstn_all2 by lia. reflexivity.
Qed.

Lemma slice_suffix {A} (s : list A) (k : Z) :
  0 < k ->
  slice s (- Z.min k (len s)) (len s) = skipn (List.length s - Z.to_nat k) s.
Proof.
  intros Hk. unfold slice.
  assert (Ha : slice_index (- Z.min k (len s)) (len s) = len s - Z.min k (len s)).
  { unfold slice_index, len. destruct (Z.ltb_spec (- Z.min k (Z.of_nat (List.length s))) 0); lia. }
  rewrite Ha, slice_index_inside by (unfold len; lia).
  rewrite firstn_all2 by (rewrite length_skipn; unfold len; lia).
  f_equal. unfold len. lia.
Qed.

Lemma slice_middle {A} (s : list A) (i n : Z) :
  0 <= i -> 0 <= n -> i <= len s ->
  slice s i (Z.min (i + n) (len s)) = firstn (Z.to_nat n) (skipn (Z.to_nat i) s).
Proof.
  intros Hi Hn Hlen. unfold slice.
  rewrite !slice_index_inside by (unfold len in *; lia).
  destruct (Z.le_ge_cases (i + n) (len s)).
  - rewrite Z.min_l by lia. f_equal. lia.
  - rewrite Z.min_r by lia.
    rewrite !firstn_all2; [reflexivity| |]; rewrite length_skipn; unfold len in *; lia.
Qed.

Lemma range_check_ok (lower upper val : Z) :
  lower <= val <= upper -> range_check lower upper val = Ok tt.
Proof.
  intros H. unfold range_check.
  destruct (Z.ltb_spec val lower); [lia|]. destruct (Z.ltb_spec upper val); [lia|].
  reflexivity.
Qed.

Lemma left_stores (store : list Z -> M value) (s stop : value) (k : Z)
  (self : Values) :
  to_int stop false = Ok k -> 1 <= k <= 255 ->
  left store s stop self
    = store (firstn (Z.to_nat k) (copy (_strings self) s)) self.
Proof.
  intros Hk Hr. unfold left, bind, lift. rewrite Hk, range_check_ok by lia.
  destruct (Z.eqb_spec k 0); [lia|]. now rewrite slice_prefix by lia.
Qed.

Lemma right_stores (store : list Z -> M value) (s stop : value) (k : Z)
  (self : Values) :
  to_int stop false = Ok k -> 1 <= k <= 255 ->
  right store s stop self
    = store (skipn (List.length (copy (_strings self) s) - Z.to_nat k)
                   (copy (_strings self) s)) self.
Proof.
  intros Hk Hr. unfold right, bind, lift. rewrite Hk, range_check_ok by lia.
  destruct (Z.eqb_spec k 0); [lia|]. now rewrite slice_suffix by lia.
Qed.

Lemma mid_stores (store : list Z -> M value) (s start num : value) (i n : Z)
  (self : Values) :
  to_int start false = Ok i -> to_int num false = Ok n ->
  1 <= i <= 255 -> 1 <= n <= 255 -> i <= len (copy (_strings self) s) ->
  mid store s start num self
    = store (firstn (Z.to_nat n)
                    (skipn (Z.to_nat (i - 1)) (copy (_strings self) s))) self.
Proof.
  intros Hi Hn Hri Hrn Hlen. unfold mid, bind, lift.
  rewrite Hi, Hn, !range_check_ok by lia.
  destruct (Z.eqb_spec n 0); [lia|].
  destruct (Z.ltb_spec (len (copy (_strings self) s)) i); [lia|]. cbn [orb].
  now rewrite slice_middle by lia.
Qed.

(** X20: LEFT$, RIGHT$ and MID$ hand to the string space the part of the
    string one expects: with a count [k] from 1 to 255, LEFT$ the first
    [k] bytes and RIGHT$ the last [k] bytes, the whole string when it is
    shorter; MID$ from the position [i], counted from 1 and not beyond the
    string, the [n] bytes from there on, or as many as are left.  A count
    of zero, and a start beyond the string, give the null string, and
    nothing is stored. *)
Theorem substring_bytes
  (store : list Z -> M value) (s start num : value) (i n : Z) (self : Values) :
  to_int start false = Ok i -> to_int num false = Ok n ->
  1 <= i <= 255 -> 0 <= n <= 255 ->
  let b := copy (_strings self) s in
  (1 <= n ->
   left store s num self = store (firstn (Z.to_nat n) b) self /\
   right store s num self = store (skipn (List.length b - Z.to_nat n) b) self /\
   (i <= len b ->
    mid store s start num self
      = store (firstn (Z.to_nat n) (skipn (Z.to_nat (i - 1)) b)) self)) /\
  (n = 0 ->
   left store s num self = (Ok (null STR), self) /\
   right store s num self = (Ok (null STR), self) /\
   mid store s start num self = (Ok (null STR), self)) /\
  (len b < i -> mid store s start num self = (Ok (null STR), self)).
Proof.
  intros Hi Hn Hri Hrn b. repeat split.
  - now apply left_stores.
  - now apply right_stores.
  - intros Hlen. apply mid_stores; try assumption; lia.
  - subst n. unfold left, bind, lift. now rewrite Hn.
  - subst n. unfold right, bind, lift. now rewrite Hn.
  - subst n. unfold mid, bind, lift. now rewrite Hi, Hn, !range_check_ok by lia.
  - unfold mid, bind, lift. rewrite Hi, Hn, !range_check_ok by lia.
    fold b. destruct (Z.ltb_spec (len b) i); [|lia]. now rewrite orb_true_r.
Qed.

Lemma substring_bytes_witness :
  let b := copy (_strings string_space_AB) (STR, [3; 0; 0]) in
  (1 <= 1 ->
   left store_in_handle (STR, [3; 0; 0]) (INT, [0x01; 0x00]) string_space_AB
     = store_in_handle (firstn (Z.to_nat 1) b) string_space_AB /\
   right store_in_handle (STR, [3; 0; 0]) (INT, [0x01; 0x00]) string_space_AB
     = store_in_handle (skipn (List.length b - Z.to_nat 1) b) string_space_AB /\
   (1 <= len b ->
    mid store_in_handle (STR, [3; 0; 0]) (INT, [0x01; 0x00]) (INT, [0x01; 0x00])
        string_space_AB
      = store_in_handle (firstn (Z.to_nat 1) (skipn (Z.to_nat (1 - 1)) b))
                        string_space_AB)) /\
  (1 = 0 ->
   left store_in_handle (STR, [3; 0; 0]) (INT, [0x01; 0x00]) string_space_AB
     = (Ok (null STR), string_space_AB) /\
   right store_in_handle (STR, [3; 0; 0]) (INT, [0x01; 0x00]) string_space_AB
     = (Ok (null STR), string_space_AB) /\
   mid store_in_handle (STR, [3; 0; 0]) (INT, [0x01; 0x00]) (INT, [0x01; 0x00])
       string_space_AB
     = (Ok (null STR), string_space_AB)) /\
  (len b < 1 ->
   mid store_in_handle (STR, [3; 0; 0]) (INT, [0x01; 0x00]) (INT, [0x01; 0x00])
       string_space_AB
     = (Ok (null STR), string_space_AB)).
Proof.
  apply (substring_bytes store_in_handle (STR, [3; 0; 0]) (INT, [0x01; 0x00])
                    (INT, [0x01; 0x00]) 1 1 string_space_AB).
  - reflexivity.
  - reflexivity.
  - lia.
  - lia.
Defined.

(** X21: LEFT$ and RIGHT$ split a string, and MID$ agrees with both.
    When the counts [k1] and [k2], each from 1 to 255, add up to the
    length of the string, the bytes LEFT$ stores for [k1] followed by the
    bytes RIGHT$ stores for [k2] are the string; MID$ from position 1 for
    [k1] bytes stores what LEFT$ does, and MID$ from position [k1 + 1] for
    [k2] bytes stores what RIGHT$ does. *)
Theorem left_right_split
  (store : list Z -> M value) (s stop1 stop2 one start : value) (k1 k2 : Z)
  (self : Values) :
  to_int stop1 false = Ok k1 -> to_int stop2 false = Ok k2 ->
  to_int one false = Ok 1 -> to_int start false = Ok (k1 + 1) ->
  1 <= k1 -> 1 <= k2 -> k1 + k2 = len (copy (_strings self) s) -> k1 + k2 <= 255 ->
  exists l r,
    l ++ r = copy (_strings self) s /\
    left store s stop1 self = store l self /\
    right store s stop2 self = store r self /\
    mid store s one stop1 self = store l self /\
    mid store s start stop2 self = store r self.
Proof.
  intros H1 H2 Hone Hstart Hk1 Hk2 Hsum Hmax.
  exists (firstn (Z.to_nat k1) (copy (_strings self) s)),
         (skipn (Z.to_nat k1) (copy (_strings self) s)).
  split; [apply firstn_skipn|].
  split; [apply left_stores; [assumption|lia]|].
  assert (Hlen : (List.length (copy (_strings self) s) - Z.to_nat k2
                  = Z.to_nat k1)%nat)
    by (unfold len in Hsum; lia).
  split.
  { rewrite (right_stores store s stop2 k2) by (assumption || lia).
    now rewrite Hlen. }
  split.
  { rewrite (mid_stores store s one stop1 1 k1) by (assumption || lia).
    reflexivity. }
  rewrite (mid_stores store s start stop2 (k1 + 1) k2) by (assumption || lia).
  replace (k1 + 1 - 1) with k1 by lia. f_equal.
  apply firstn_all2. rewrite length_skipn. unfold len in Hsum. lia.
Qed.

Lemma left_right_split_witness :
  exists l r,
    l ++ r = copy (_strings string_space_AB) (STR, [2; 0; 0]) /\
    left store_in_handle (STR, [2; 0; 0]) (INT, [0x01; 0x00]) string_space_AB
      = store_in_handle l string_space_AB /\
    right store_in_handle (STR, [2; 0; 0]) (INT, [0x01; 0x00]) string_space_AB
      = store_in_handle r string_space_AB /\
    mid store_in_handle (STR, [2; 0; 0]) (INT, [0x01; 0x00]) (INT, [0x01; 0x00])
        string_space_AB
      = store_in_handle l string_space_AB /\
    mid store_in_handle (STR, [2; 0; 0]) (INT, [0x02; 0x00]) (INT, [0x01; 0x00])
        string_space_AB
      = store_in_handle r string_space_AB.
Proof.
  apply (left_right_split store_in_handle (STR, [2; 0; 0]) (INT, [0x01; 0x00])
           (INT, [0x01; 0x00]) (INT, [0x01; 0x00]) (INT, [0x02; 0x00]) 1 1
           string_space_AB); try reflexivity; try lia.
Defined.

(** ** Searching a string *)

Lemma startswith_firstn (small : list Z) : forall big,
  startswith big small = true <-> firstn (List.length small) big = small.
Proof.
  induction small as [|c small IH]; intros big.
  - cbn. destruct big; tauto.
  - destruct big as [|b big]; cbn [startswith List.length firstn].
    + split; discriminate.
    + rewrite andb_true_iff, Z.eqb_eq, IH. split.
      * intros [-> ->]. reflexivity.
      * intros H. injection H as -> H. auto.
Qed.

Lemma occurs_at_head (big small : list Z) :
  occurs_at big small 0 <-> startswith big small = true.
Proof.
  unfold occurs_at. cbn [Z.to_nat skipn]. rewrite startswith_firstn.
  split; [tauto|]. intros H. split; [lia|assumption].
Qed.

Lemma occurs_at_tail (b : Z) (big small : list Z) (i : Z) :
  1 <= i -> (occurs_at (b :: big) small i <-> occurs_at big small (i - 1)).
Proof.
  intros Hi. unfold occurs_at.
  replace (Z.to_nat i) with (S (Z.to_nat (i - 1))) by lia. cbn [skipn].
  split; intros [_ H]; (split; [lia|assumption]).
Qed.

Lemma find_spec (small : list Z) (big : list Z) :
  (find big small = - 1 /\
   forall i, 0 <= i <= len big -> ~ occurs_at big small i) \/
  (0 <= find big small <= len big /\ occurs_at big small (find big small) /\
   forall i, 0 <= i < find big small -> ~ occurs_at big small i).
Proof.
  induction big as [|b big IH].
  - cbn [find]. destruct (startswith [] small) eqn:E.
    + right. split; [cbn; lia|]. split; [now apply occurs_at_head|]. lia.
    + left. split; [reflexivity|]. intros i Hi. cbn in Hi.
      assert (i = 0) by lia. subst i. rewrite occurs_at_head. congruence.
  - cbn [find]. destruct (startswith (b :: big) small) eqn:E.
    + right. split; [unfold len; cbn [List.length]; lia|].
      split; [now apply occurs_at_head|]. lia.
    + assert (H0 : ~ occurs_at (b :: big) small 0)
        by (rewrite occurs_at_head; congruence).
      assert (Hlen : len (b :: big) = len big + 1)
        by (unfold len; cbn [List.length]; lia).
      destruct IH as [[Hr IH] | (Hr & Hocc & IH)].
      * left. rewrite Hr. split; [reflexivity|]. intros i Hi.
        destruct (Z.eq_dec i 0) as [->|]; [assumption|].
        rewrite occurs_at_tail by lia. apply IH. lia.
      * right. destruct (Z.eqb_spec (find big small) (- 1)); [lia|].
        split; [lia|]. split.
        -- rewrite occurs_at_tail by lia.
           now replace (find big small + 1 - 1) with (find big small) by lia.
        -- intros i Hi. destruct (Z.eq_dec i 0) as [->|]; [assumption|].
           rewrite occurs_at_tail by lia. apply IH. lia.
Qed.

Lemma occurs_at_skipn (big small : list Z) (k i : Z) :
  0 <= k -> 0 <= i ->
  (occurs_at (skipn (Z.to_nat k) big) small i <-> occurs_at big small (k + i)).
Proof.
  intros Hk Hi. unfold occurs_at. rewrite skipn_skipn.
  replace (Z.to_nat i + Z.to_nat k)%nat with (Z.to_nat (k + i)) by lia.
  split; intros [_ H]; (split; [lia|assumption]).
Qed.

Lemma slice_tail {A} (s : list A) (k : Z) :
  0 <= k <= len s -> slice s k (len s) = skipn (Z.to_nat k) s.
Proof.
  intros Hk. unfold slice. rewrite !slice_index_inside by (unfold len in *; lia).
  apply firstn_all2. rewrite length_skipn. unfold len in *. lia.
Qed.

(** X22: INSTR returns the position, counted from 1, of the first
    occurrence of the second string in the first at or after the start
    position, and Integer 0 when there is none, when the first string is
    empty or when the start lies beyond it; an empty second string is
    found at the start position. *)
Theorem instr_first_occurrence
  (big small : value) (start : Z) (self : Values) :
  fst big = STR -> fst small = STR -> 1 <= start ->
  len (copy (_strings self) big) <= 255 ->
  let b := copy (_strings self) big in
  let s := copy (_strings self) small in
  exists p v,
    instr big small start self = Ok v /\ int_to_integer p false = Ok v /\
    ((p = 0 /\
      (b = [] \/ len b < start \/
       forall i, start - 1 <= i <= len b -> ~ occurs_at b s i)) \/
     (start <= p <= len b + 1 /\ b <> [] /\ occurs_at b s (p - 1) /\
      forall i, start - 1 <= i < p - 1 -> ~ occurs_at b s i)).
Proof.
  intros Hb Hs Hstart Hmax. cbv zeta.
  unfold instr, pass_string. rewrite Hb, Hs. cbn [rbind].
  remember (copy (_strings self) big) as b eqn:Eb.
  remember (copy (_strings self) small) as s eqn:Es.
  clear Eb Es.
  destruct (list_eq_dec Z.eq_dec b []) as [->|Hne].
  - exists 0, (null INT). cbn [orb]. repeat split. left. split; [reflexivity|]. now left.
  - assert (Hmatch : match b with [] => true | _ :: _ => false end = false)
      by (destruct b; [contradiction|reflexivity]).
    rewrite Hmatch. cbn [orb].
    destruct (Z.ltb_spec (len b) start).
    + exists 0, (null INT). repeat split. left. split; [reflexivity|]. right. now left.
    + rewrite slice_tail by lia.
      destruct (find_spec s (skipn (Z.to_nat (start - 1)) b))
        as [[Hr Hnone] | (Hr & Hocc & Hfirst)].
      * rewrite Hr. cbn [Z.eqb]. exists 0, (null INT). repeat split.
        left. split; [reflexivity|]. right. right. intros i Hi.
        replace i with (start - 1 + (i - (start - 1))) by lia.
        rewrite <- occurs_at_skipn by lia. apply Hnone.
        unfold len in *. rewrite length_skipn. lia.
      * unfold len in Hr. rewrite length_skipn in Hr.
        remember (find (skipn (Z.to_nat (start - 1)) b) s) as r eqn:Er.
        destruct (Z.eqb_spec r (- 1)); [lia|].
        destruct (int_to_integer_signed_ok (start + r)) as (v & Hv & _);
          [unfold len in *; lia|].
        exists (start + r), v. split; [assumption|]. split; [assumption|].
        right. split; [unfold len in *; lia|]. split; [assumption|]. split.
        -- rewrite occurs_at_skipn in Hocc by lia.
           now replace (start + r - 1) with (start - 1 + r) by lia.
        -- intros i Hi. replace i with (start - 1 + (i - (start - 1))) by lia.
           rewrite <- occurs_at_skipn by lia. apply Hfirst. lia.
Qed.

Lemma instr_first_occurrence_witness :
  let b := copy (_strings string_space_AB) (STR, [3; 0; 0]) in
  let s := copy (_strings string_space_AB) (STR, [2; 0; 0]) in
  exists p v,
    instr (STR, [3; 0; 0]) (STR, [2; 0; 0]) 1 string_space_AB = Ok v /\
    int_to_integer p false = Ok v /\
    ((p = 0 /\
      (b = [] \/ len b < 1 \/
       forall i, 1 - 1 <= i <= len b -> ~ occurs_at b s i)) \/
     (1 <= p <= len b + 1 /\ b <> [] /\ occurs_at b s (p - 1) /\
      forall i, 1 - 1 <= i < p - 1 -> ~ occurs_at b s i)).
Proof.
  apply (instr_first_occurrence (STR, [3; 0; 0]) (STR, [2; 0; 0]) 1
                                string_space_AB).
  - reflexivity.
  - reflexivity.
  - lia.
  - vm_compute. discriminate.
Defined.

(** ** Counting the lines that differ *)

Lemma count_pairs_filter (lines1 : list string) : forall lines2 count,
  count_pairs lines1 lines2 count
    = count + len (filter differ (combine lines1 lines2)).
Proof.
  induction lines1 as [|one lines1 IH]; intros lines2 count.
  - cbn. lia.
  - destruct lines2 as [|two lines2]; [cbn; lia|].
    cbn [count_pairs combine filter]. rewrite IH.
    unfold differ at 2. cbn [fst snd].
    destruct (String.eqb one two); cbn [negb]; unfold len; cbn [List.length]; lia.
Qed.

Lemma filter_differ_nil (lines1 : list string) : forall lines2,
  filter differ (combine lines1 lines2) = [] <->
  firstn (Nat.min (List.length lines1) (List.length lines2)) lines1
    = firstn (Nat.min (List.length lines1) (List.length lines2)) lines2.
Proof.
  induction lines1 as [|one lines1 IH]; intros lines2.
  - cbn. tauto.
  - destruct lines2 as [|two lines2]; [cbn; tauto|].
    cbn [combine filter List.length Nat.min firstn]. unfold differ at 1.
    cbn [fst snd]. destruct (String.eqb_spec one two) as [->|Hne]; cbn [negb].
    + rewrite IH. split; [intros ->; reflexivity|].
      intros H. now injection H.
    + split; [discriminate|]. intros H. injection H as H _. contradiction.
Qed.

(** X23: [count_diff] returns the number of lines of the first file and
    the number of places, within the length of the shorter file, at which
    the two files have different lines.  The count never exceeds either
    length, and it is zero exactly when the files agree on the lines they
    both have: lines that only the longer file has are not counted. *)
Theorem count_diff_common_lines (lines1 lines2 : list string) :
  let m := Nat.min (List.length lines1) (List.length lines2) in
  fst (count_diff lines1 lines2) = len lines1 /\
  snd (count_diff lines1 lines2) = len (filter differ (combine lines1 lines2)) /\
  0 <= snd (count_diff lines1 lines2) <= Z.of_nat m /\
  (snd (count_diff lines1 lines2) = 0 <-> firstn m lines1 = firstn m lines2).
Proof.
  intros m. unfold count_diff. cbn [fst snd]. rewrite count_pairs_filter.
  cbn [Z.add]. split; [reflexivity|]. split; [reflexivity|]. split.
  - unfold len. split; [lia|].
    pose proof (filter_length_le differ (combine lines1 lines2)) as H.
    rewrite length_combine in H. unfold m. lia.
  - unfold m. rewrite <- filter_differ_nil. unfold len.
    destruct (filter differ (combine lines1 lines2)); cbn [List.length].
    + tauto.
    + split; [lia|discriminate].
Qed.

(** ** Conversion to a requested type *)

Lemma float_safe_class (c : fp.fcls) (r : result fp.Float) (self : Values) :
  class_outcome c r ->
  match float_safe (lift (let* f := r in Ok (fp.pack f))) self with
  | (Ok w, _) => fst w = fp.type_sign c
  | (Raise e, _) => e = RunError error.OVERFLOW
  end.
Proof.
  intros H. unfold float_safe, lift. destruct r as [f|e]; cbn [rbind].
  - cbn in H. now rewrite pack_type, H.
  - destruct H as (g & -> & Hg). cbn [is_float_error].
    pose proof (handle_overflow (_math_error_handler self) g) as Hh.
    destruct (handle _ _) as [[v|y] h]; cbn [fst] in Hh; [|assumption].
    subst v. now rewrite pack_type, Hg.
Qed.

(** X24: conversion to a requested type returns a value of that type or
    fails.  With a string on exactly one side, the operand or the type
    asked for, it fails with Type Mismatch and leaves the object as it
    was; otherwise the value returned carries the sigil asked for, also
    when it is the saturated value put in place of an overflow, and the
    only failure is Overflow. *)
Theorem to_type_tag (t : typechar) (v : value) (self : Values) :
  wf_value v ->
  (xorb (typechar_eqb t STR) (typechar_eqb (fst v) STR) = true ->
   to_type t v self = (Raise (RunError error.TYPE_MISMATCH), self)) /\
  (xorb (typechar_eqb t STR) (typechar_eqb (fst v) STR) = false ->
   match to_type t v self with
   | (Ok w, _) => fst w = t
   | (Raise e, _) => e = RunError error.OVERFLOW
   end).
Proof.
  intros Hwf. destruct v as [tv bs]. cbn [fst].
  assert (Hint : tv = INT -> exists n, integer_to_int (tv, bs) false = Ok n).
  { intros ->. destruct (integer_to_int_range _ Hwf eq_refl) as (n & Hn & _). eauto. }
  split; intros Hx.
  - destruct t, tv; try discriminate Hx; reflexivity.
  - destruct t, tv; try discriminate Hx; try reflexivity;
      unfold to_type, to_single, to_double, lift, to_integer; cbn [fst].
    + destruct (_ || _); [reflexivity|].
      unfold int_to_integer. destruct (_ || _); reflexivity.
    + destruct (_ || _); [reflexivity|].
      unfold int_to_integer. destruct (_ || _); reflexivity.
    + destruct (Hint eq_refl) as (n & ->). cbn [rbind].
      apply (float_safe_class fp.Single (fp.from_int fp.Single n)).
      apply (normalise_outcome (fp.mk fp.Single _ _ _)).
    + apply (float_safe_class fp.Single
               (fp.round_to_single (fp.unpack (DBL, bs)))).
      apply (normalise_outcome (fp.mk fp.Single _ _ _)).
    + destruct (Hint eq_refl) as (n & ->). cbn [rbind].
      apply (float_safe_class fp.Double (fp.from_int fp.Double n)).
      apply (normalise_outcome (fp.mk fp.Double _ _ _)).
Qed.

Lemma to_type_tag_witness :
  (xorb (typechar_eqb SNG STR) (typechar_eqb (fst (INT, [0x01; 0x00])) STR) = true ->
   to_type SNG (INT, [0x01; 0x00]) soft_values
     = (Raise (RunError error.TYPE_MISMATCH), soft_values)) /\
  (xorb (typechar_eqb SNG STR) (typechar_eqb (fst (INT, [0x01; 0x00])) STR) = false ->
   match to_type SNG (INT, [0x01; 0x00]) soft_values with
   | (Ok w, _) => fst w = SNG
   | (Raise e, _) => e = RunError error.OVERFLOW
   end).
Proof. apply (to_type_tag SNG (INT, [0x01; 0x00]) soft_values wf_integer_1). Defined.

(** ** Rounding a float to an Integer *)

Lemma int_to_integer_flag (n : Z) :
  - 32768 <= n <= 32767 -> int_to_integer n true = int_to_integer n false.
Proof.
  intros Hn. unfold int_to_integer.
  destruct (Z.gtb_spec n 0xffff); [lia|]. destruct (Z.gtb_spec n 0x7fff); [lia|].
  reflexivity.
Qed.

(** X25: without the unsigned flag, a float operand of [to_integer] is
    rounded to a nearest integer; the call fails with Overflow exactly
    when the rounded value lies outside [-32768, 32767], and otherwise
    returns the well-formed Integer that holds the rounded value, which is
    also what [to_int] returns. *)
Theorem to_integer_signed_range (inp : value) :
  wf_value inp -> fst inp = SNG \/ fst inp = DBL ->
  let val := fp.round_to_int (fp.unpack inp) in
  nearest_int (fp.unpack inp) val /\
  (val < - 32768 \/ 32767 < val ->
   to_integer inp false = Raise (RunError error.OVERFLOW) /\
   to_int inp false = Raise (RunError error.OVERFLOW)) /\
  (- 32768 <= val <= 32767 ->
   exists v, to_integer inp false = Ok v /\ fst v = INT /\ wf_value v /\
             integer_to_int v false = Ok val /\ to_int inp false = Ok val).
Proof.
  intros Hwf Ht val.
  destruct (unpack_bounds inp Hwf Ht) as [Hman Hexp].
  assert (Hto : to_integer inp false =
                if (val >? 0x7fff) || (val <? - 0x8000)
                then Raise (RunError error.OVERFLOW)
                else int_to_integer val true).
  { unfold to_integer. destruct Ht as [-> | ->]; reflexivity. }
  split; [apply round_to_int_nearest; lia|].
  unfold to_int. rewrite Hto.
  destruct (Z.gtb_spec val 0x7fff); destruct (Z.ltb_spec val (- 0x8000));
    cbn [orb]; split; try (intros; lia); try (intros _; split; reflexivity).
  intros Hr. rewrite int_to_integer_flag by lia.
  destruct (int_to_integer_signed_ok val) as (v & Hv & Tv & Wv & Hback); [lia|].
  exists v. rewrite Hv. cbn [rbind]. auto.
Qed.

Lemma to_integer_signed_range_witness :
  exists v, to_integer (SNG, [0; 0; 0x80; 0x81]) false = Ok v /\ fst v = INT /\
            wf_value v /\ integer_to_int v false = Ok (- 1) /\
            to_int (SNG, [0; 0; 0x80; 0x81]) false = Ok (- 1).
Proof.
  destruct (to_integer_signed_range (SNG, [0; 0; 0x80; 0x81]) wf_single_minus_1
                                    (or_introl eq_refl)) as (_ & _ & Hok).
  apply Hok. vm_compute. split; discriminate.
Defined.

(** ** Widening a Single *)

Lemma wf_single_bytes (s : value) :
  wf_value s -> fst s = SNG ->
  exists b0 b1 b2 e, s = (SNG, [b0; b1; b2; e]) /\
                     is_byte b0 /\ is_byte b1 /\ is_byte b2 /\ is_byte e.
Proof.
  destruct s as [t bs]. unfold wf_value. cbn [fst snd]. intros [Hlen Hall] ->.
  cbn [TYPE_TO_SIZE] in Hlen.
  do 5 (destruct bs as [|? bs]; cbn [List.length] in Hlen; try lia).
  do 4 eexists. split; [reflexivity|].
  rewrite Forall_forall in Hall. repeat split; apply Hall; cbn; tauto.
Qed.

Lemma single_unpack (b0 b1 b2 e : Z) :
  fp.unpack (SNG, [b0; b1; b2; e]) =
    fp.mk fp.Single (0x80 <=? b2)
          ((b0 + 256 * b1 + 65536 * Z.lor b2 0x80) * 256) e.
Proof.
  unfold fp.unpack, fp.from_bytes. cbn [fst snd].
  change (Z.to_nat (fp.byte_size fp.Single - 2)) with 2%nat.
  cbn [nth firstn fp.le_int]. rewrite Z.shiftl_mul_pow2 by lia.
  change (0x100 ^ (fp.byte_size fp.Single - 2)) with 65536.
  change (2 ^ 8) with 256. f_equal. ring.
Qed.

Lemma double_unpack_widened (b0 b1 b2 e : Z) :
  fp.unpack (DBL, repeat 0 4 ++ [b0; b1; b2; e]) =
    fp.mk fp.Double (0x80 <=? b2)
          ((b0 + 256 * b1 + 65536 * Z.lor b2 0x80) * 256 * 2 ^ 32) e.
Proof.
  unfold fp.unpack, fp.from_bytes. cbn [fst snd repeat app].
  change (Z.to_nat (fp.byte_size fp.Double - 2)) with 6%nat.
  cbn [nth firstn fp.le_int]. rewrite Z.shiftl_mul_pow2 by lia.
  change (0x100 ^ (fp.byte_size fp.Double - 2)) with 281474976710656.
  change (2 ^ 8) with 256. change (2 ^ 32) with 4294967296. f_equal. ring.
Qed.

Lemma sign_byte_back (b : Z) :
  is_byte b ->
  (if 0x80 <=? b then Z.lor (Z.land (Z.lor b 0x80) 0x7f) 0x80
   else Z.land (Z.lor b 0x80) 0x7f) = b.
Proof. intros Hb. by_bytes b Hb. Qed.

Lemma single_pack_unpack (b0 b1 b2 e : Z) :
  is_byte b0 -> is_byte b1 -> is_byte b2 -> is_byte e ->
  fp.pack (fp.mk fp.Single (0x80 <=? b2)
                 ((b0 + 256 * b1 + 65536 * Z.lor b2 0x80) * 256) e)
    = (SNG, [b0; b1; b2; e]).
Proof.
  intros H0 H1 H2 He. pose proof (lor_80_bounds b2 H2) as HL.
  unfold is_byte in *.
  unfold fp.pack, fp.to_bytes.
  rewrite apply_carry_clean; cbn [fp.cls fp.man fp.neg fp.exp].
  - change (Z.to_nat (fp.byte_size fp.Single - 2)) with 2%nat.
    change (8 * (fp.byte_size fp.Single - 2)) with 16.
    cbn [fp.le_bytes fp.type_sign app].
    rewrite !shiftr_8, !land_ff.
    rewrite Z.div_mul by lia.
    rewrite (Z.shiftr_div_pow2 _ 16) by lia. change (2 ^ 16) with 65536.
    assert (E0 : (b0 + 256 * b1 + 65536 * Z.lor b2 0x80) mod 256 = b0).
    { symmetry. apply Z.mod_unique with (q := b1 + 256 * Z.lor b2 0x80); lia. }
    assert (E1 : ((b0 + 256 * b1 + 65536 * Z.lor b2 0x80) / 256) mod 256 = b1).
    { assert (Hq : (b0 + 256 * b1 + 65536 * Z.lor b2 0x80) / 256
                   = b1 + 256 * Z.lor b2 0x80).
      { symmetry. apply Z.div_unique with (r := b0); lia. }
      rewrite Hq. symmetry. apply Z.mod_unique with (q := Z.lor b2 0x80); lia. }
    assert (E2 : (b0 + 256 * b1 + 65536 * Z.lor b2 0x80) / 65536 = Z.lor b2 0x80).
    { symmetry. apply Z.div_unique with (r := b0 + 256 * b1); lia. }
    rewrite E0, E1, E2, sign_byte_back by (unfold is_byte; lia). reflexivity.
  - apply Z.mod_mul. lia.
  - change (2 ^ (fp.mantissa_bits fp.Single + 8)) with 4294967296. lia.
Qed.

Lemma single_round_back (b0 b1 b2 e : Z) :
  is_byte b0 -> is_byte b1 -> is_byte b2 -> is_byte e ->
  fp.round_to_single
    (fp.mk fp.Double (0x80 <=? b2)
           ((b0 + 256 * b1 + 65536 * Z.lor b2 0x80) * 256 * 2 ^ 32) e)
  = Ok (if e =? 0 then fp.zero fp.Single
        else fp.mk fp.Single (0x80 <=? b2)
                   ((b0 + 256 * b1 + 65536 * Z.lor b2 0x80) * 256) e).
Proof.
  intros H0 H1 H2 He. pose proof (lor_80_bounds b2 H2) as HL.
  unfold is_byte in *.
  unfold fp.round_to_single. cbn [fp.man fp.neg fp.exp].
  rewrite Z.shiftr_div_pow2, Z.div_mul by lia.
  set (man := (b0 + 256 * b1 + 65536 * Z.lor b2 0x80) * 256).
  assert (Hman : 2 ^ 31 <= man < 2 ^ 32)
    by (unfold man; change (2 ^ 31) with 2147483648;
        change (2 ^ 32) with 4294967296; lia).
  assert (Hlog : Z.log2 man = 31) by (apply Z.log2_unique; lia).
  unfold fp.normalise. cbn [fp.man fp.neg fp.exp fp.cls].
  destruct (Z.eqb_spec man 0); [lia|]. cbn [orb].
  destruct (Z.eqb_spec e 0); [reflexivity|].
  rewrite Hlog. change (fp.mantissa_bits fp.Single + 7) with 31.
  cbn [Z.leb Z.compare Pos.compare Pos.compare_cont Z.sub Z.opp Z.add Z.pos_sub].
  rewrite Z.shiftl_0_r, Z.sub_0_r.
  rewrite apply_carry_clean; cbn [fp.cls fp.man fp.neg fp.exp].
  - destruct (Z.leb_spec e 0); [lia|]. destruct (Z.ltb_spec 0xff e); [lia|].
    reflexivity.
  - unfold man. apply Z.mod_mul. lia.
  - change (2 ^ (fp.mantissa_bits fp.Single + 8)) with (2 ^ 32). lia.
Qed.

(** X26: a well-formed Single widens to the Double whose bytes are four
    zero bytes followed by the bytes of the Single, which is well formed
    and never a fault.  In the working form of the floats the sign and the
    exponent byte are the same and the mantissa is shifted by the
    difference of the two biases, so that the Double stands for the same
    number.  Narrowing that Double gives the Single back, or the null
    Single when the exponent byte of the Single is zero. *)
Theorem to_double_widens (s : value) (self : Values) :
  wf_value s -> fst s = SNG ->
  exists d,
    to_double s self = (Ok d, self) /\ d = (DBL, repeat 0 4 ++ snd s) /\
    wf_value d /\
    fp.neg (fp.unpack d) = fp.neg (fp.unpack s) /\
    fp.exp (fp.unpack d) = fp.exp (fp.unpack s) /\
    fp.man (fp.unpack d)
      = fp.man (fp.unpack s) * 2 ^ (fp.bias fp.Double - fp.bias fp.Single) /\
    to_single d self
      = (Ok (if fp.exp (fp.unpack s) =? 0 then null SNG else s), self).
Proof.
  intros Hwf Ht.
  destruct (wf_single_bytes s Hwf Ht) as (b0 & b1 & b2 & e & -> & H0 & H1 & H2 & He).
  exists (DBL, repeat 0 4 ++ [b0; b1; b2; e]).
  split; [reflexivity|]. split; [reflexivity|]. split.
  { split; [reflexivity|]. cbn [snd repeat app].
    repeat (apply Forall_cons; [first [assumption | unfold is_byte; lia]|]).
    apply Forall_nil. }
  rewrite double_unpack_widened, single_unpack. cbn [fp.neg fp.exp fp.man].
  split; [reflexivity|]. split; [reflexivity|]. split; [reflexivity|].
  unfold to_single, float_safe, lift. cbn [fst].
  rewrite double_unpack_widened, single_round_back by assumption. cbn [rbind].
  destruct (Z.eqb_spec e 0); [reflexivity|].
  now rewrite single_pack_unpack.
Qed.

Lemma to_double_widens_witness :
  exists d,
    to_double (SNG, [0; 0; 0x80; 0x81]) soft_values = (Ok d, soft_values) /\
    d = (DBL, repeat 0 4 ++ snd (SNG, [0; 0; 0x80; 0x81])) /\
    wf_value d /\
    fp.neg (fp.unpack d) = fp.neg (fp.unpack (SNG, [0; 0; 0x80; 0x81])) /\
    fp.exp (fp.unpack d) = fp.exp (fp.unpack (SNG, [0; 0; 0x80; 0x81])) /\
    fp.man (fp.unpack d)
      = fp.man (fp.unpack (SNG, [0; 0; 0x80; 0x81]))
        * 2 ^ (fp.bias fp.Double - fp.bias fp.Single) /\
    to_single d soft_values
      = (Ok (if fp.exp (fp.unpack (SNG, [0; 0; 0x80; 0x81])) =? 0
             then null SNG else (SNG, [0; 0; 0x80; 0x81])), soft_values).
Proof.
  apply (to_double_widens (SNG, [0; 0; 0x80; 0x81]) soft_values).
  - exact wf_single_minus_1.
  - reflexivity.
Defined.
